(** * Cache simulator: direct-mapped and fully associative (LRU) engines

    A shallow embedding of [src/cache_engine.py] (the engine behind the web
    adapter [src/app.py]) and the properties its specification states.

    Python integers are [Z]; [&], [>>] and [<<] are [Z.land], [Z.shiftr] and
    [Z.shiftl]; [//] is [Z.div] (both floor).  Strings are [string] and are
    compared with [String.eqb], as the source compares them with [==].
    Objects mutated in place become explicit state passing: every method
    takes [self] and returns the new [self].  A method that can raise returns
    the state reached when the exception left it, together with the
    exception. *)

From Stdlib Require Import ZArith List String Bool Lia Sorted.
From Stdlib Require Import Floats Uint63.
Import ListNotations.
Local Open Scope Z_scope.

(** ** Python primitives *)

(** The built-in exceptions the engine can meet. *)
Inductive exn : Type :=
| ZeroDivisionError
| ValueError
| IndexError
| KeyError
| StopIteration.

Inductive result (A : Type) : Type :=
| Ok (a : A)
| Raise (e : exn).
Arguments Ok {A} a.
Arguments Raise {A} e.

(** [a // b] on integers. *)
Definition py_floordiv (a b : Z) : result Z :=
  if b =? 0 then Raise ZeroDivisionError else Ok (a / b).

(** [int(math.log2(x))] on an integer [x]: a domain error for [x <= 0],
    otherwise the truncated base-2 logarithm.  The source goes through a
    double; the truncation is the floor of the exact logarithm on every power
    of two and on every argument below [2^47], which is the range modelled. *)
Definition int_log2 (x : Z) : result Z :=
  if x <=? 0 then Raise ValueError else Ok (Z.log2 x).

(** Position denoted by a Python list index (negative indices count from the
    end). *)
Definition py_index (len : nat) (i : Z) : option nat :=
  let n := Z.of_nat len in
  if (0 <=? i) && (i <? n) then Some (Z.to_nat i)
  else if (- n <=? i) && (i <? 0) then Some (Z.to_nat (n + i))
  else None.

(** [l[i]]; [None] stands for [IndexError]. *)
Definition py_getitem {A : Type} (l : list A) (i : Z) : option A :=
  match py_index (List.length l) i with
  | Some k => nth_error l k
  | None => None
  end.

Fixpoint list_set {A : Type} (l : list A) (k : nat) (v : A) : list A :=
  match l, k with
  | [], _ => []
  | _ :: t, O => v :: t
  | h :: t, S k' => h :: list_set t k' v
  end.

(** The object [l[i]] after it was mutated into [v]. *)
Definition py_mutate {A : Type} (l : list A) (i : Z) (v : A) : list A :=
  match py_index (List.length l) i with
  | Some k => list_set l k v
  | None => l
  end.

(** A Python number as [get_statistics] returns them: the integer [0] or a
    float. *)
Inductive number : Type :=
| PyInt (z : Z)
| PyFloat (f : float).

(** Conversion of a counter to a double (exact below [2^53]). *)
Definition float_of_Z (z : Z) : float := PrimFloat.of_uint63 (Uint63.of_Z z).

(** [a / b] on two integers, for [b <> 0]. *)
Definition py_truediv (a b : Z) : float := (float_of_Z a / float_of_Z b)%float.

(** Nearest integer to [num / den], ties to even ([0 < den]). *)
Definition round_half_even (num den : Z) : Z :=
  let q := num / den in
  let r := num mod den in
  if 2 * r <? den then q
  else if den <? 2 * r then q + 1
  else if Z.even q then q else q + 1.

(** [round(x, 2)] on a float: the exact binary value is rounded to two
    decimals (ties to even), and the decimal result is read back as the
    nearest double.  Zeros, infinities and NaN come back unchanged. *)
Definition float_round2 (x : float) : float :=
  match Prim2SF x with
  | S754_finite s m e =>
      let num := Z.pos m * 100 in
      let n := if 0 <=? e then num * 2 ^ e else round_half_even num (2 ^ (- e)) in
      let r := (float_of_Z n / float_of_Z 100)%float in
      if s then (- r)%float else r
  | _ => x
  end.

(** [round(x, 2)]: an integer is returned as it is. *)
Definition py_round2 (x : number) : number :=
  match x with
  | PyInt z => PyInt z
  | PyFloat f => PyFloat (float_round2 f)
  end.

(** ** CacheBlock *)

Record CacheBlock : Type := mkCacheBlock {
  valid : Z;
  tag : option Z;
  data : option Z;
  dirty : Z
}.

(** [CacheBlock()] *)
Definition CacheBlock_new : CacheBlock := mkCacheBlock 0 None None 0.

(** [block.tag == tag] for an integer [tag]. *)
Definition tag_eqb (b : CacheBlock) (t : Z) : bool :=
  match tag b with
  | Some t' => t' =? t
  | None => false
  end.

(** [address if data is None else data] *)
Definition payload (address : Z) (data : option Z) : Z :=
  match data with
  | None => address
  | Some d => d
  end.

(** ** The response of one access

    The fields of the dictionary [access] returns, without the two snapshots
    [cache_state] and [statistics], which are functions of the state returned
    next to the response.  [steps] keeps the name of each step. *)
Record Response : Type := mkResponse {
  access_number : Z;
  r_address : Z;
  r_operation : string;
  r_tag : Z;
  r_index : option Z;
  r_offset : Z;
  steps : list string;
  hit : bool;
  eviction : bool;
  dirty_writeback : bool;
  affected_line : option Z
}.

Definition add_step (name : string) (r : Response) : Response :=
  mkResponse (access_number r) (r_address r) (r_operation r) (r_tag r)
    (r_index r) (r_offset r) (steps r ++ [name]) (hit r) (eviction r)
    (dirty_writeback r) (affected_line r).

Definition set_hit (v : bool) (r : Response) : Response :=
  mkResponse (access_number r) (r_address r) (r_operation r) (r_tag r)
    (r_index r) (r_offset r) (steps r) v (eviction r)
    (dirty_writeback r) (affected_line r).

Definition set_eviction (v : bool) (r : Response) : Response :=
  mkResponse (access_number r) (r_address r) (r_operation r) (r_tag r)
    (r_index r) (r_offset r) (steps r) (hit r) v
    (dirty_writeback r) (affected_line r).

Definition set_dirty_writeback (v : bool) (r : Response) : Response :=
  mkResponse (access_number r) (r_address r) (r_operation r) (r_tag r)
    (r_index r) (r_offset r) (steps r) (hit r) (eviction r)
    v (affected_line r).

Definition set_affected_line (v : option Z) (r : Response) : Response :=
  mkResponse (access_number r) (r_address r) (r_operation r) (r_tag r)
    (r_index r) (r_offset r) (steps r) (hit r) (eviction r)
    (dirty_writeback r) v.

(** ** CacheSimulator: configuration and counters shared by both engines *)

Module CacheSimulator.

Record t : Type := mk {
  cache_size : Z;
  block_size : Z;
  num_blocks : Z;
  write_policy : string;
  offset_bits : Z;
  total_accesses : Z;
  hits : Z;
  misses : Z;
  memory_reads : Z;
  memory_writes : Z
}.

Definition __init__ (cache_size block_size : Z) (write_policy : string) : result t :=
  match py_floordiv cache_size block_size with
  | Raise e => Raise e
  | Ok num_blocks =>
      match int_log2 block_size with
      | Raise e => Raise e
      | Ok offset_bits =>
          Ok (mk cache_size block_size num_blocks write_policy offset_bits 0 0 0 0 0)
      end
  end.

Definition incr_total_accesses (s : t) : t :=
  mk (cache_size s) (block_size s) (num_blocks s) (write_policy s) (offset_bits s)
     (total_accesses s + 1) (hits s) (misses s) (memory_reads s) (memory_writes s).

Definition incr_hits (s : t) : t :=
  mk (cache_size s) (block_size s) (num_blocks s) (write_policy s) (offset_bits s)
     (total_accesses s) (hits s + 1) (misses s) (memory_reads s) (memory_writes s).

Definition incr_misses (s : t) : t :=
  mk (cache_size s) (block_size s) (num_blocks s) (write_policy s) (offset_bits s)
     (total_accesses s) (hits s) (misses s + 1) (memory_reads s) (memory_writes s).

Definition incr_memory_reads (s : t) : t :=
  mk (cache_size s) (block_size s) (num_blocks s) (write_policy s) (offset_bits s)
     (total_accesses s) (hits s) (misses s) (memory_reads s + 1) (memory_writes s).

Definition incr_memory_writes (s : t) : t :=
  mk (cache_size s) (block_size s) (num_blocks s) (write_policy s) (offset_bits s)
     (total_accesses s) (hits s) (misses s) (memory_reads s) (memory_writes s + 1).

Record Statistics : Type := mkStatistics {
  stat_total_accesses : Z;
  stat_hits : Z;
  stat_misses : Z;
  hit_ratio : number;
  miss_ratio : number;
  stat_memory_reads : Z;
  stat_memory_writes : Z;
  total_memory_traffic : Z
}.

Definition get_statistics (self : t) : Statistics :=
  let hit_ratio :=
    if 0 <? total_accesses self
    then PyFloat (py_truediv (hits self) (total_accesses self) * float_of_Z 100)%float
    else PyInt 0 in
  let miss_ratio :=
    if 0 <? total_accesses self
    then PyFloat (py_truediv (misses self) (total_accesses self) * float_of_Z 100)%float
    else PyInt 0 in
  mkStatistics (total_accesses self) (hits self) (misses self)
    (py_round2 hit_ratio) (py_round2 miss_ratio)
    (memory_reads self) (memory_writes self)
    (memory_reads self + memory_writes self).

End CacheSimulator.

(** ** Methods: state passing with exceptions

    A method body is a function from the object's state to the state it
    leaves behind and either its return value or the exception raised.  The
    mutations made before an exception stay, as in the source. *)

Definition M (S A : Type) : Type := S -> S * result A.

Definition ret {S A : Type} (a : A) : M S A := fun s => (s, Ok a).

Definition bind {S A B : Type} (m : M S A) (k : A -> M S B) : M S B :=
  fun s =>
    match m s with
    | (s', Ok a) => k a s'
    | (s', Raise e) => (s', Raise e)
    end.

Definition get {S : Type} : M S S := fun s => (s, Ok s).

Definition modify {S : Type} (f : S -> S) : M S unit := fun s => (f s, Ok tt).

Definition raise {S A : Type} (e : exn) : M S A := fun s => (s, Raise e).

(** A lookup that raises [e] when it finds nothing. *)
Definition or_raise {S A : Type} (e : exn) (o : option A) : M S A :=
  match o with
  | Some a => ret a
  | None => raise e
  end.

Notation "x <- m ;; k" := (bind m (fun x => k))
  (at level 61, m at next level, right associativity).
Notation "m ;; k" := (bind m (fun _ => k))
  (at level 61, right associativity).

(** ** Direct-mapped cache *)

Module DirectMappedCache.

Record t : Type := mk {
  base : CacheSimulator.t;
  index_bits : Z;
  tag_bits : Z;
  cache : list CacheBlock
}.

Definition __init__ (cache_size block_size : Z) (write_policy : string) : result t :=
  match CacheSimulator.__init__ cache_size block_size write_policy with
  | Raise e => Raise e
  | Ok super =>
      match int_log2 (CacheSimulator.num_blocks super) with
      | Raise e => Raise e
      | Ok index_bits =>
          Ok (mk super index_bits
                (32 - index_bits - CacheSimulator.offset_bits super)
                (repeat CacheBlock_new (Z.to_nat (CacheSimulator.num_blocks super))))
      end
  end.

Definition on_base (f : CacheSimulator.t -> CacheSimulator.t) (self : t) : t :=
  mk (f (base self)) (index_bits self) (tag_bits self) (cache self).

(** The line object at [index] after it was mutated into [line]. *)
Definition mutate_line (index : Z) (line : CacheBlock) (self : t) : t :=
  mk (base self) (index_bits self) (tag_bits self) (py_mutate (cache self) index line).

Definition write_policy (self : t) : string := CacheSimulator.write_policy (base self).

(** Returns [(tag, index, offset)]. *)
Definition decompose_address (self : t) (address : Z) : Z * Z * Z :=
  let offset_bits := CacheSimulator.offset_bits (base self) in
  let offset_mask := Z.shiftl 1 offset_bits - 1 in
  let offset := Z.land address offset_mask in
  let index_mask := Z.shiftl 1 (index_bits self) - 1 in
  let index := Z.land (Z.shiftr address offset_bits) index_mask in
  let tag := Z.shiftr address (offset_bits + index_bits self) in
  (tag, index, offset).

Definition _handle_write_hit (index address : Z) (data : option Z) (response : Response)
  : M t Response :=
  self <- get ;;
  cache_line <- or_raise IndexError (py_getitem (cache self) index) ;;
  if (write_policy self =? "write-through")%string then
    modify (mutate_line index
              (mkCacheBlock (valid cache_line) (tag cache_line) (Some (payload address data)) 0)) ;;
    modify (on_base CacheSimulator.incr_memory_writes) ;;
    ret (add_step "Write" response)
  else
    modify (mutate_line index
              (mkCacheBlock (valid cache_line) (tag cache_line) (Some (payload address data)) 1)) ;;
    ret (add_step "Write" response).

Definition _fetch_from_memory (index tag address : Z) (operation : string)
  (data : option Z) (response : Response) : M t Response :=
  self <- get ;;
  cache_line <- or_raise IndexError (py_getitem (cache self) index) ;;
  modify (on_base CacheSimulator.incr_memory_reads) ;;
  let response := add_step "Memory Fetch" response in
  if (operation =? "write")%string then
    if (write_policy self =? "write-through")%string then
      modify (mutate_line index (mkCacheBlock 1 (Some tag) (Some (payload address data)) 0)) ;;
      modify (on_base CacheSimulator.incr_memory_writes) ;;
      ret response
    else
      modify (mutate_line index (mkCacheBlock 1 (Some tag) (Some (payload address data)) 1)) ;;
      ret response
  else
    modify (mutate_line index (mkCacheBlock 1 (Some tag) (Some (payload address data)) 0)) ;;
    ret response.

Definition access (address : Z) (operation : string) (data : option Z) : M t Response :=
  modify (on_base CacheSimulator.incr_total_accesses) ;;
  self <- get ;;
  let '(tag, index, offset) := decompose_address self address in
  let response :=
    mkResponse (CacheSimulator.total_accesses (base self)) address operation
      tag (Some index) offset [] false false false (Some index) in
  cache_line <- or_raise IndexError (py_getitem (cache self) index) ;;
  let response := add_step "Fetch" response in
  response <-
    (if (valid cache_line =? 1) && tag_eqb cache_line tag then
       modify (on_base CacheSimulator.incr_hits) ;;
       let response := set_hit true response in
       let response := add_step "Compare Tag" response in
       let response := add_step "Hit/Miss" response in
       if (operation =? "write")%string
       then _handle_write_hit index address data response
       else ret response
     else
       modify (on_base CacheSimulator.incr_misses) ;;
       let response := set_hit false response in
       response <-
         (if valid cache_line =? 1 then
            let response := add_step "Compare Tag" response in
            let response := set_eviction true response in
            if (write_policy self =? "write-back")%string && (dirty cache_line =? 1) then
              modify (on_base CacheSimulator.incr_memory_writes) ;;
              ret (set_dirty_writeback true response)
            else ret response
          else ret (add_step "Compare Tag" response)) ;;
       let response := add_step "Hit/Miss" response in
       _fetch_from_memory index tag address operation data response) ;;
  ret (add_step "Update Cache" response).

End DirectMappedCache.

(** ** Ordered dictionary of lines

    [collections.OrderedDict] keyed by line number: the entries in iteration
    order.  A block is mutated in place, which keeps its position; only
    [move_to_end] changes the order. *)

Module OrderedDict.

Definition t : Type := list (Z * CacheBlock).

(** [d[k]]; [None] stands for [KeyError]. *)
Fixpoint getitem (d : t) (k : Z) : option CacheBlock :=
  match d with
  | [] => None
  | (k', v) :: rest => if k' =? k then Some v else getitem rest k
  end.

(** The object [d[k]] after it was mutated into [v]. *)
Fixpoint mutate (d : t) (k : Z) (v : CacheBlock) : t :=
  match d with
  | [] => []
  | (k', v') :: rest =>
      if k' =? k then (k', v) :: rest else (k', v') :: mutate rest k v
  end.

Fixpoint remove (d : t) (k : Z) : t :=
  match d with
  | [] => []
  | (k', v') :: rest => if k' =? k then rest else (k', v') :: remove rest k
  end.

(** [d.move_to_end(k)]; [None] stands for [KeyError]. *)
Definition move_to_end (d : t) (k : Z) : option t :=
  match getitem d k with
  | Some v => Some (remove d k ++ [(k, v)])
  | None => None
  end.

(** [next(iter(d))]; [None] stands for [StopIteration]. *)
Definition first_key (d : t) : option Z :=
  match d with
  | [] => None
  | (k, _) :: _ => Some k
  end.

Definition keys (d : t) : list Z := map fst d.

Definition values (d : t) : list CacheBlock := map snd d.

End OrderedDict.

(** ** Fully associative cache with LRU replacement *)

Module FullyAssociativeCache.

Record t : Type := mk {
  base : CacheSimulator.t;
  tag_bits : Z;
  cache : OrderedDict.t
}.

Definition __init__ (cache_size block_size : Z) (write_policy : string) : result t :=
  match CacheSimulator.__init__ cache_size block_size write_policy with
  | Raise e => Raise e
  | Ok super =>
      Ok (mk super (32 - CacheSimulator.offset_bits super)
            (map (fun i => (Z.of_nat i, CacheBlock_new))
                 (seq 0 (Z.to_nat (CacheSimulator.num_blocks super)))))
  end.

Definition on_base (f : CacheSimulator.t -> CacheSimulator.t) (self : t) : t :=
  mk (f (base self)) (tag_bits self) (cache self).

Definition mutate_line (line_num : Z) (line : CacheBlock) (self : t) : t :=
  mk (base self) (tag_bits self) (OrderedDict.mutate (cache self) line_num line).

Definition set_cache (d : OrderedDict.t) (self : t) : t :=
  mk (base self) (tag_bits self) d.

Definition write_policy (self : t) : string := CacheSimulator.write_policy (base self).

(** Returns [(tag, offset)]. *)
Definition decompose_address (self : t) (address : Z) : Z * Z :=
  let offset_bits := CacheSimulator.offset_bits (base self) in
  let offset_mask := Z.shiftl 1 offset_bits - 1 in
  let offset := Z.land address offset_mask in
  let tag := Z.shiftr address offset_bits in
  (tag, offset).

Fixpoint find_block_from (items : OrderedDict.t) (tag : Z) : option Z :=
  match items with
  | [] => None
  | (line_num, block) :: rest =>
      if (valid block =? 1) && tag_eqb block tag then Some line_num
      else find_block_from rest tag
  end.

Definition _find_block (self : t) (tag : Z) : option Z :=
  find_block_from (cache self) tag.

Fixpoint find_empty_from (items : OrderedDict.t) : option Z :=
  match items with
  | [] => None
  | (line_num, block) :: rest =>
      if valid block =? 0 then Some line_num else find_empty_from rest
  end.

Definition _find_empty_line (self : t) : option Z :=
  find_empty_from (cache self).

Definition _evict_lru : M t Z :=
  self <- get ;;
  or_raise StopIteration (OrderedDict.first_key (cache self)).

Definition _update_lru (line_num : Z) : M t unit :=
  self <- get ;;
  d <- or_raise KeyError (OrderedDict.move_to_end (cache self) line_num) ;;
  modify (set_cache d).

Definition _handle_write_hit (line_num address : Z) (data : option Z) (response : Response)
  : M t Response :=
  self <- get ;;
  cache_line <- or_raise KeyError (OrderedDict.getitem (cache self) line_num) ;;
  if (write_policy self =? "write-through")%string then
    modify (mutate_line line_num
              (mkCacheBlock (valid cache_line) (tag cache_line) (Some (payload address data)) 0)) ;;
    modify (on_base CacheSimulator.incr_memory_writes) ;;
    ret (add_step "Write" response)
  else
    modify (mutate_line line_num
              (mkCacheBlock (valid cache_line) (tag cache_line) (Some (payload address data)) 1)) ;;
    ret (add_step "Write" response).

Definition _fetch_from_memory (line_num tag address : Z) (operation : string)
  (data : option Z) (response : Response) : M t Response :=
  self <- get ;;
  cache_line <- or_raise KeyError (OrderedDict.getitem (cache self) line_num) ;;
  modify (on_base CacheSimulator.incr_memory_reads) ;;
  let response := add_step "Memory Fetch" response in
  if (operation =? "write")%string then
    if (write_policy self =? "write-through")%string then
      modify (mutate_line line_num (mkCacheBlock 1 (Some tag) (Some (payload address data)) 0)) ;;
      modify (on_base CacheSimulator.incr_memory_writes) ;;
      ret response
    else
      modify (mutate_line line_num (mkCacheBlock 1 (Some tag) (Some (payload address data)) 1)) ;;
      ret response
  else
    modify (mutate_line line_num (mkCacheBlock 1 (Some tag) (Some (payload address data)) 0)) ;;
    ret response.

Definition access (address : Z) (operation : string) (data : option Z) : M t Response :=
  modify (on_base CacheSimulator.incr_total_accesses) ;;
  self <- get ;;
  let '(tag, offset) := decompose_address self address in
  let response :=
    mkResponse (CacheSimulator.total_accesses (base self)) address operation
      tag None offset [] false false false None in
  let response := add_step "Search" response in
  response <-
    (match _find_block self tag with
     | Some hit_line =>
         modify (on_base CacheSimulator.incr_hits) ;;
         let response := set_hit true response in
         let response := set_affected_line (Some hit_line) response in
         let response := add_step "Compare Tag" response in
         let response := add_step "Hit/Miss" response in
         _update_lru hit_line ;;
         if (operation =? "write")%string
         then _handle_write_hit hit_line address data response
         else ret response
     | None =>
         modify (on_base CacheSimulator.incr_misses) ;;
         let response := set_hit false response in
         let response := add_step "Compare Tag" response in
         let response := add_step "Hit/Miss" response in
         target <-
           (match _find_empty_line self with
            | Some empty_line => ret (empty_line, response)
            | None =>
                target_line <- _evict_lru ;;
                evicted_block <- or_raise KeyError (OrderedDict.getitem (cache self) target_line) ;;
                let response := set_eviction true response in
                if (write_policy self =? "write-back")%string && (dirty evicted_block =? 1) then
                  modify (on_base CacheSimulator.incr_memory_writes) ;;
                  ret (target_line, set_dirty_writeback true response)
                else ret (target_line, response)
            end) ;;
         let '(target_line, response) := target in
         let response := set_affected_line (Some target_line) response in
         response <- _fetch_from_memory target_line tag address operation data response ;;
         _update_lru target_line ;;
         ret response
     end) ;;
  ret (add_step "Update Cache" response).

End FullyAssociativeCache.

(** ** The cache held by the adapter: either engine *)

Inductive Cache : Type :=
| DirectMapped (c : DirectMappedCache.t)
| FullyAssociative (c : FullyAssociativeCache.t).

(** The constructor call of [create_cache] and [reset_cache] in [app.py]. *)
Definition construct (cache_size block_size : Z) (cache_type write_policy : string)
  : result Cache :=
  if (cache_type =? "direct-mapped")%string then
    match DirectMappedCache.__init__ cache_size block_size write_policy with
    | Ok c => Ok (DirectMapped c)
    | Raise e => Raise e
    end
  else
    match FullyAssociativeCache.__init__ cache_size block_size write_policy with
    | Ok c => Ok (FullyAssociative c)
    | Raise e => Raise e
    end.

(** [create_cache] of [app.py] on the global [active_cache]: the new value of
    the global and the [success] flag of the reply.  The assignment happens
    only when the constructor returns. *)
Definition create_cache (active_cache : option Cache)
  (cache_size block_size : Z) (cache_type write_policy : string)
  : option Cache * bool :=
  match construct cache_size block_size cache_type write_policy with
  | Ok c => (Some c, true)
  | Raise _ => (active_cache, false)
  end.

(** [cache.access(address, operation, data)] on either engine. *)
Definition access (address : Z) (operation : string) (data : option Z) : M Cache Response :=
  fun c =>
    match c with
    | DirectMapped d =>
        let (d', r) := DirectMappedCache.access address operation data d in
        (DirectMapped d', r)
    | FullyAssociative f =>
        let (f', r) := FullyAssociativeCache.access address operation data f in
        (FullyAssociative f', r)
    end.

Definition base (c : Cache) : CacheSimulator.t :=
  match c with
  | DirectMapped d => DirectMappedCache.base d
  | FullyAssociative f => FullyAssociativeCache.base f
  end.

(** The line objects of a cache, in iteration order. *)
Definition lines (c : Cache) : list CacheBlock :=
  match c with
  | DirectMapped d => DirectMappedCache.cache d
  | FullyAssociative f => OrderedDict.values (FullyAssociativeCache.cache f)
  end.

Definition get_statistics (c : Cache) : CacheSimulator.Statistics :=
  CacheSimulator.get_statistics (base c).

(** One call of [access]: address, operation, data. *)
Record Request : Type := mkRequest {
  q_address : Z;
  q_operation : string;
  q_data : option Z
}.

Definition serve (q : Request) : M Cache Response :=
  access (q_address q) (q_operation q) (q_data q).

(** A sequence of calls on one cache.  The result is the final state and the
    history of outcomes, most recent first.  A call that raised leaves the
    state it reached, and the next call goes on from there, as it does behind
    the adapter. *)
Fixpoint run_from (c : Cache) (history : list (result Response)) (qs : list Request)
  : Cache * list (result Response) :=
  match qs with
  | [] => (c, history)
  | q :: rest =>
      let (c', r) := serve q c in
      run_from c' (r :: history) rest
  end.

Definition run (c : Cache) (qs : list Request) : Cache * list (result Response) :=
  run_from c [] qs.

Definition write (address : Z) : Request := mkRequest address "write" None.

Definition read (address : Z) : Request := mkRequest address "read" None.

(** ** Recency of lines along a history *)

(** The line an outcome touched: the line hit, or the line filled. *)
Definition touched (r : result Response) : option Z :=
  match r with
  | Ok resp => affected_line resp
  | Raise _ => None
  end.

(** Number of calls since [line] was last touched, along a history given most
    recent first; [None] when it never was. *)
Fixpoint age (history : list (result Response)) (line : Z) : option nat :=
  match history with
  | [] => None
  | r :: earlier =>
      match touched r with
      | Some l =>
          if l =? line then Some O
          else option_map S (age earlier line)
      | None => option_map S (age earlier line)
      end
  end.

(** [victim] has gone strictly longer without a touch than [other]. *)
Definition older (history : list (result Response)) (victim other : Z) : Prop :=
  exists a b, age history victim = Some a /\ age history other = Some b /\ (b < a)%nat.

(** ** The configuration invariants of the specification *)

Definition is_power_of_two (x : Z) : bool :=
  (0 <? x) && (x =? 2 ^ Z.log2 x).

(** Follows the specification, section 3: positive sizes, block size and line
    count exact powers of two, exact division, block size at most the total
    size. *)
Definition config_invariants (totalSize blockSize : Z) : bool :=
  (0 <? totalSize) && (0 <? blockSize)
  && is_power_of_two blockSize
  && is_power_of_two (totalSize / blockSize)
  && (totalSize mod blockSize =? 0)
  && (blockSize <=? totalSize).

(** A freshly created instance: every line invalid and clean, every counter
    zero. *)
Definition fresh (c : Cache) : Prop :=
  Forall (fun b => b = CacheBlock_new) (lines c)
  /\ CacheSimulator.total_accesses (base c) = 0
  /\ CacheSimulator.hits (base c) = 0
  /\ CacheSimulator.misses (base c) = 0
  /\ CacheSimulator.memory_reads (base c) = 0
  /\ CacheSimulator.memory_writes (base c) = 0.

(** ** Notions used by the statements *)

(** The line object numbered [l], if the cache has one. *)
Definition line_at (c : Cache) (l : Z) : option CacheBlock :=
  match c with
  | DirectMapped d => py_getitem (DirectMappedCache.cache d) l
  | FullyAssociative f => OrderedDict.getitem (FullyAssociativeCache.cache f) l
  end.

(** The line a miss installs. *)
Definition filled_block (tag address : Z) (operation : string) (data : option Z)
  (write_policy : string) : CacheBlock :=
  mkCacheBlock 1 (Some tag) (Some (payload address data))
    (if (operation =? "write")%string
     then if (write_policy =? "write-through")%string then 0 else 1
     else 0).

(** A line after a write hit. *)
Definition written_block (line : CacheBlock) (address : Z) (data : option Z)
  (write_policy : string) : CacheBlock :=
  mkCacheBlock (valid line) (tag line) (Some (payload address data))
    (if (write_policy =? "write-through")%string then 0 else 1).

Definition b2z (b : bool) : Z := if b then 1 else 0.

(** The counters after one access that was classified: [hit] tells how,
    [writeback] whether a dirty victim was written back. *)
Definition counted (s : CacheSimulator.t) (hit writeback : bool) (operation : string)
  : CacheSimulator.t :=
  CacheSimulator.mk
    (CacheSimulator.cache_size s) (CacheSimulator.block_size s)
    (CacheSimulator.num_blocks s) (CacheSimulator.write_policy s)
    (CacheSimulator.offset_bits s)
    (CacheSimulator.total_accesses s + 1)
    (CacheSimulator.hits s + b2z hit)
    (CacheSimulator.misses s + b2z (negb hit))
    (CacheSimulator.memory_reads s + b2z (negb hit))
    (CacheSimulator.memory_writes s + b2z writeback
     + b2z ((operation =? "write")%string
            && (CacheSimulator.write_policy s =? "write-through")%string)).

(** One call of the fully associative [access], case by case: a hit on line
    [k], a fill of the first empty line [k], the eviction of the first line
    [k] of the dictionary, or the exception of an engine without lines.  The
    pair is the state left behind and the outcome. *)
Inductive fa_case (f : FullyAssociativeCache.t) (address : Z) (op : string)
  (data : option Z) : FullyAssociativeCache.t * result Response -> Prop :=
| fa_hit (k : Z) (line : CacheBlock) (resp : Response) :
    let tg := Z.shiftr address (CacheSimulator.offset_bits (FullyAssociativeCache.base f)) in
    FullyAssociativeCache.find_block_from (FullyAssociativeCache.cache f) tg = Some k ->
    OrderedDict.getitem (FullyAssociativeCache.cache f) k = Some line ->
    valid line = 1 ->
    tag_eqb line tg = true ->
    hit resp = true -> eviction resp = false -> dirty_writeback resp = false ->
    affected_line resp = Some k ->
    access_number resp = CacheSimulator.total_accesses (FullyAssociativeCache.base f) + 1 ->
    fa_case f address op data
      (FullyAssociativeCache.mk
         (counted (FullyAssociativeCache.base f) true false op)
         (FullyAssociativeCache.tag_bits f)
         (OrderedDict.remove (FullyAssociativeCache.cache f) k
          ++ [(k, if (op =? "write")%string
                  then written_block line address data (FullyAssociativeCache.write_policy f)
                  else line)]),
       Ok resp)
| fa_fill (k : Z) (line : CacheBlock) (resp : Response) :
    let tg := Z.shiftr address (CacheSimulator.offset_bits (FullyAssociativeCache.base f)) in
    FullyAssociativeCache.find_block_from (FullyAssociativeCache.cache f) tg = None ->
    FullyAssociativeCache.find_empty_from (FullyAssociativeCache.cache f) = Some k ->
    OrderedDict.getitem (FullyAssociativeCache.cache f) k = Some line ->
    valid line = 0 ->
    hit resp = false -> eviction resp = false -> dirty_writeback resp = false ->
    affected_line resp = Some k ->
    access_number resp = CacheSimulator.total_accesses (FullyAssociativeCache.base f) + 1 ->
    fa_case f address op data
      (FullyAssociativeCache.mk
         (counted (FullyAssociativeCache.base f) false false op)
         (FullyAssociativeCache.tag_bits f)
         (OrderedDict.remove (FullyAssociativeCache.cache f) k
          ++ [(k, filled_block tg address op data (FullyAssociativeCache.write_policy f))]),
       Ok resp)
| fa_evict (k : Z) (line : CacheBlock) (rest : OrderedDict.t) (resp : Response) :
    let tg := Z.shiftr address (CacheSimulator.offset_bits (FullyAssociativeCache.base f)) in
    let writeback :=
      ((FullyAssociativeCache.write_policy f =? "write-back")%string && (dirty line =? 1)) in
    FullyAssociativeCache.find_block_from (FullyAssociativeCache.cache f) tg = None ->
    FullyAssociativeCache.find_empty_from (FullyAssociativeCache.cache f) = None ->
    FullyAssociativeCache.cache f = (k, line) :: rest ->
    hit resp = false -> eviction resp = true -> dirty_writeback resp = writeback ->
    affected_line resp = Some k ->
    access_number resp = CacheSimulator.total_accesses (FullyAssociativeCache.base f) + 1 ->
    fa_case f address op data
      (FullyAssociativeCache.mk
         (counted (FullyAssociativeCache.base f) false writeback op)
         (FullyAssociativeCache.tag_bits f)
         (rest ++ [(k, filled_block tg address op data (FullyAssociativeCache.write_policy f))]),
       Ok resp)
| fa_stop :
    FullyAssociativeCache.cache f = [] ->
    fa_case f address op data
      (FullyAssociativeCache.on_base
         (fun s => CacheSimulator.incr_misses (CacheSimulator.incr_total_accesses s)) f,
       Raise StopIteration).


(** The cache of the scenarios of the specification: 16 bytes in blocks of 4
    bytes, as the constructors build it. *)
Definition scenario_direct_mapped (write_policy : string) : Cache :=
  DirectMapped
    (DirectMappedCache.mk (CacheSimulator.mk 16 4 4 write_policy 2 0 0 0 0 0)
       2 28 (repeat CacheBlock_new 4)).

Definition scenario_fully_associative (write_policy : string) : Cache :=
  FullyAssociative
    (FullyAssociativeCache.mk (CacheSimulator.mk 16 4 4 write_policy 2 0 0 0 0 0)
       30 [(0, CacheBlock_new); (1, CacheBlock_new); (2, CacheBlock_new);
           (3, CacheBlock_new)]).

(** Whether an outcome was a hit; [None] for an exception. *)
Definition hit_of (r : result Response) : option bool :=
  match r with
  | Ok resp => Some (hit resp)
  | Raise _ => None
  end.

(** The widths of the address fields of a cache: offset bits, and index bits
    for the direct-mapped engine. *)
Definition field_bits (c : Cache) : Z * option Z :=
  match c with
  | DirectMapped d =>
      (CacheSimulator.offset_bits (DirectMappedCache.base d),
       Some (DirectMappedCache.index_bits d))
  | FullyAssociative f =>
      (CacheSimulator.offset_bits (FullyAssociativeCache.base f), None)
  end.

Definition is_direct_mapped (c : Cache) : bool :=
  match c with
  | DirectMapped _ => true
  | FullyAssociative _ => false
  end.


(** The valid bit of a line is [0] or [1]. *)
Definition block_ok (b : CacheBlock) : Prop := valid b = 0 \/ valid b = 1.

(** What the constructors establish and every access keeps, for the
    direct-mapped engine: the index mask never reaches past the line list. *)
Definition dm_sound (d : DirectMappedCache.t) : Prop :=
  0 <= CacheSimulator.offset_bits (DirectMappedCache.base d)
  /\ 0 <= DirectMappedCache.index_bits d
  /\ 2 ^ DirectMappedCache.index_bits d <= Z.of_nat (List.length (DirectMappedCache.cache d))
  /\ Forall block_ok (DirectMappedCache.cache d).

(** The order of recency a history induces on the lines it touched: least
    recently touched first. *)
Fixpoint lru_order (history : list (result Response)) : list Z :=
  match history with
  | [] => []
  | r :: earlier =>
      match touched r with
      | Some l => List.remove Z.eq_dec l (lru_order earlier) ++ [l]
      | None => lru_order earlier
      end
  end.

(** The fully associative engine after a history: the dictionary lists the
    lines never filled, in their initial order, and then the valid lines from
    the least to the most recently touched. *)
Definition fa_sound (f : FullyAssociativeCache.t) (history : list (result Response)) : Prop :=
  0 <= CacheSimulator.offset_bits (FullyAssociativeCache.base f)
  /\ NoDup (OrderedDict.keys (FullyAssociativeCache.cache f))
  /\ exists empty resident,
       FullyAssociativeCache.cache f = empty ++ resident
       /\ Forall (fun b => valid b = 0) (OrderedDict.values empty)
       /\ Forall (fun b => valid b = 1) (OrderedDict.values resident)
       /\ OrderedDict.keys resident = lru_order history.

Definition sound (c : Cache) (history : list (result Response)) : Prop :=
  match c with
  | DirectMapped d => dm_sound d
  | FullyAssociative f => fa_sound f history
  end.

(** The states an adapter can hold: a constructed cache after any calls. *)
Definition reachable (c : Cache) : Prop :=
  exists cache_size block_size cache_type write_policy c0 qs,
    construct cache_size block_size cache_type write_policy = Ok c0
    /\ c = fst (run c0 qs).


(** ** The rest of the web engine and of its adapter *)

(** [cache_type]: each constructor sets it and nothing assigns it again. *)
Definition cache_type (c : Cache) : string :=
  match c with
  | DirectMapped _ => "direct-mapped"
  | FullyAssociative _ => "fully-associative"
  end.

Definition tag_bits (c : Cache) : Z :=
  match c with
  | DirectMapped d => DirectMappedCache.tag_bits d
  | FullyAssociative f => FullyAssociativeCache.tag_bits f
  end.

(** The dictionary [get_cache_state] returns.  [bits] has an [index] entry for
    the direct-mapped engine only.  [lines] holds [to_dict] of every line in
    iteration order, which carries the four fields of the line and nothing
    else (no line number). *)
Record CacheState : Type := mkCacheState {
  st_type : string;
  st_size : Z;
  st_block_size : Z;
  st_num_blocks : Z;
  st_write_policy : string;
  st_tag_bits : Z;
  st_index_bits : option Z;
  st_offset_bits : Z;
  st_lines : list CacheBlock;
  st_statistics : CacheSimulator.Statistics
}.

Definition get_cache_state (c : Cache) : CacheState :=
  mkCacheState (cache_type c)
    (CacheSimulator.cache_size (base c)) (CacheSimulator.block_size (base c))
    (CacheSimulator.num_blocks (base c)) (CacheSimulator.write_policy (base c))
    (tag_bits c)
    (match c with
     | DirectMapped d => Some (DirectMappedCache.index_bits d)
     | FullyAssociative _ => None
     end)
    (CacheSimulator.offset_bits (base c))
    (lines c)
    (get_statistics c).

(** The replies of [cache_access] in [app.py]. *)
Inductive AccessReply : Type :=
| NoActiveCache
| AccessFailed (e : exn)
| AccessDone (r : Response).

(** [cache_access] on the global [active_cache]: the adapter never passes
    data, and reports an exception of the engine as a failure; the cache keeps
    what the call did before it raised. *)
Definition cache_access (active_cache : option Cache) (address : Z) (operation : string)
  : option Cache * AccessReply :=
  match active_cache with
  | None => (None, NoActiveCache)
  | Some c =>
      match access address operation None c with
      | (c', Ok resp) => (Some c', AccessDone resp)
      | (c', Raise e) => (Some c', AccessFailed e)
      end
  end.

(** [reset_cache]: the new value of the global and the [success] flag of the
    reply.  The constructor call is not guarded: its exception would leave the
    handler, and the global as it was. *)
Definition reset_cache (active_cache : option Cache) : option Cache * result bool :=
  match active_cache with
  | None => (None, Ok false)
  | Some c =>
      match construct (CacheSimulator.cache_size (base c))
              (CacheSimulator.block_size (base c)) (cache_type c)
              (CacheSimulator.write_policy (base c)) with
      | Ok c' => (Some c', Ok true)
      | Raise e => (Some c, Raise e)
      end
  end.

(** ** The console program, [cache_simulator.py]

    Its two engines are the ones above without the response: the same fields,
    the same updates, and prints in place of the trace.  The prints format
    integers and strings and change nothing, so they are left out.  The
    attribute [lru_counter] of the fully associative engine is set to 0 and
    never read. *)

Module ConsoleDirectMappedCache.

Definition _handle_write_hit (index address : Z) (data : option Z)
  : M DirectMappedCache.t unit :=
  self <- get ;;
  cache_line <- or_raise IndexError (py_getitem (DirectMappedCache.cache self) index) ;;
  if (DirectMappedCache.write_policy self =? "write-through")%string then
    modify (DirectMappedCache.mutate_line index
              (mkCacheBlock (valid cache_line) (tag cache_line)
                 (Some (payload address data)) 0)) ;;
    modify (DirectMappedCache.on_base CacheSimulator.incr_memory_writes)
  else
    modify (DirectMappedCache.mutate_line index
              (mkCacheBlock (valid cache_line) (tag cache_line)
                 (Some (payload address data)) 1)).

Definition _fetch_from_memory (index tag address : Z) (operation : string)
  (data : option Z) : M DirectMappedCache.t unit :=
  self <- get ;;
  cache_line <- or_raise IndexError (py_getitem (DirectMappedCache.cache self) index) ;;
  modify (DirectMappedCache.on_base CacheSimulator.incr_memory_reads) ;;
  if (operation =? "write")%string then
    if (DirectMappedCache.write_policy self =? "write-through")%string then
      modify (DirectMappedCache.mutate_line index
                (mkCacheBlock 1 (Some tag) (Some (payload address data)) 0)) ;;
      modify (DirectMappedCache.on_base CacheSimulator.incr_memory_writes)
    else
      modify (DirectMappedCache.mutate_line index
                (mkCacheBlock 1 (Some tag) (Some (payload address data)) 1))
  else
    modify (DirectMappedCache.mutate_line index
              (mkCacheBlock 1 (Some tag) (Some (payload address data)) 0)).

Definition access (address : Z) (operation : string) (data : option Z)
  : M DirectMappedCache.t unit :=
  modify (DirectMappedCache.on_base CacheSimulator.incr_total_accesses) ;;
  self <- get ;;
  let '(tag, index, offset) := DirectMappedCache.decompose_address self address in
  cache_line <- or_raise IndexError (py_getitem (DirectMappedCache.cache self) index) ;;
  if (valid cache_line =? 1) && tag_eqb cache_line tag then
    modify (DirectMappedCache.on_base CacheSimulator.incr_hits) ;;
    if (operation =? "write")%string
    then _handle_write_hit index address data
    else ret tt
  else
    modify (DirectMappedCache.on_base CacheSimulator.incr_misses) ;;
    (if valid cache_line =? 1 then
       if (DirectMappedCache.write_policy self =? "write-back")%string
          && (dirty cache_line =? 1)
       then modify (DirectMappedCache.on_base CacheSimulator.incr_memory_writes)
       else ret tt
     else ret tt) ;;
    _fetch_from_memory index tag address operation data.

End ConsoleDirectMappedCache.

Module ConsoleFullyAssociativeCache.

Definition _handle_write_hit (line_num address : Z) (data : option Z)
  : M FullyAssociativeCache.t unit :=
  self <- get ;;
  cache_line <- or_raise KeyError
                  (OrderedDict.getitem (FullyAssociativeCache.cache self) line_num) ;;
  if (FullyAssociativeCache.write_policy self =? "write-through")%string then
    modify (FullyAssociativeCache.mutate_line line_num
              (mkCacheBlock (valid cache_line) (tag cache_line)
                 (Some (payload address data)) 0)) ;;
    modify (FullyAssociativeCache.on_base CacheSimulator.incr_memory_writes)
  else
    modify (FullyAssociativeCache.mutate_line line_num
              (mkCacheBlock (valid cache_line) (tag cache_line)
                 (Some (payload address data)) 1)).

Definition _fetch_from_memory (line_num tag address : Z) (operation : string)
  (data : option Z) : M FullyAssociativeCache.t unit :=
  self <- get ;;
  cache_line <- or_raise KeyError
                  (OrderedDict.getitem (FullyAssociativeCache.cache self) line_num) ;;
  modify (FullyAssociativeCache.on_base CacheSimulator.incr_memory_reads) ;;
  if (operation =? "write")%string then
    if (FullyAssociativeCache.write_policy self =? "write-through")%string then
      modify (FullyAssociativeCache.mutate_line line_num
                (mkCacheBlock 1 (Some tag) (Some (payload address data)) 0)) ;;
      modify (FullyAssociativeCache.on_base CacheSimulator.incr_memory_writes)
    else
      modify (FullyAssociativeCache.mutate_line line_num
                (mkCacheBlock 1 (Some tag) (Some (payload address data)) 1))
  else
    modify (FullyAssociativeCache.mutate_line line_num
              (mkCacheBlock 1 (Some tag) (Some (payload address data)) 0)).

Definition access (address : Z) (operation : string) (data : option Z)
  : M FullyAssociativeCache.t unit :=
  modify (FullyAssociativeCache.on_base CacheSimulator.incr_total_accesses) ;;
  self <- get ;;
  let '(tag, offset) := FullyAssociativeCache.decompose_address self address in
  match FullyAssociativeCache._find_block self tag with
  | Some hit_line =>
      modify (FullyAssociativeCache.on_base CacheSimulator.incr_hits) ;;
      FullyAssociativeCache._update_lru hit_line ;;
      self' <- get ;;
      cache_line <- or_raise KeyError
                      (OrderedDict.getitem (FullyAssociativeCache.cache self') hit_line) ;;
      if (operation =? "write")%string
      then _handle_write_hit hit_line address data
      else ret tt
  | None =>
      modify (FullyAssociativeCache.on_base CacheSimulator.incr_misses) ;;
      target_line <-
        (match FullyAssociativeCache._find_empty_line self with
         | Some empty_line => ret empty_line
         | None =>
             target_line <- FullyAssociativeCache._evict_lru ;;
             evicted_block <- or_raise KeyError
                                (OrderedDict.getitem (FullyAssociativeCache.cache self)
                                   target_line) ;;
             if (FullyAssociativeCache.write_policy self =? "write-back")%string
                && (dirty evicted_block =? 1)
             then modify (FullyAssociativeCache.on_base CacheSimulator.incr_memory_writes) ;;
                  ret target_line
             else ret target_line
         end) ;;
      _fetch_from_memory target_line tag address operation data ;;
      FullyAssociativeCache._update_lru target_line
  end.

End ConsoleFullyAssociativeCache.

(** [interactive_mode]: the test that sends the user back to the prompt for
    the cache size, and the two tests for the block size. *)
Definition rejects_size (x : Z) : bool :=
  (x <=? 0) || negb (Z.land x (x - 1) =? 0).

Definition rejects_block_size (cache_size block_size : Z) : bool :=
  rejects_size block_size || (cache_size <? block_size).

(** [str.lower] on a byte string; the membership tests below look for ASCII
    words only. *)
Definition lower_ascii (ch : Ascii.ascii) : Ascii.ascii :=
  let n := Ascii.nat_of_ascii ch in
  if ((65 <=? n) && (n <=? 90))%nat then Ascii.ascii_of_nat (n + 32) else ch.

Fixpoint lower (s : string) : string :=
  match s with
  | EmptyString => EmptyString
  | String ch rest => String (lower_ascii ch) (lower rest)
  end.

(** The loop of [interactive_mode] over the operation tokens: a token the two
    tests do not know is passed over. *)
Fixpoint parse_operations (tokens : list string) : list string :=
  match tokens with
  | [] => []
  | op :: rest =>
      if ((lower op =? "r") || (lower op =? "read"))%string
      then "read"%string :: parse_operations rest
      else if ((lower op =? "w") || (lower op =? "write"))%string
      then "write"%string :: parse_operations rest
      else parse_operations rest
  end.

(** [while len(operations) < len(addresses): operations.append('read')] *)
Definition pad_operations (operations : list string) (n : nat) : list string :=
  operations ++ repeat "read"%string (n - List.length operations).

(** The calls [interactive_mode] makes, from the addresses and the operation
    tokens it read: [zip(addresses, operations)], each without data.  An empty
    operations line gives the operations ['read'] * len(addresses), which is
    what the padding gives from no token. *)
Definition interactive_requests (addresses : list Z) (tokens : list string)
  : list Request :=
  map (fun p => mkRequest (fst p) (snd p) None)
      (combine addresses
         (pad_operations (parse_operations tokens) (List.length addresses))).

(** ** Notions used by the further properties *)

(** The names of the steps of a response: [first] is the probe of the engine,
    then the comparison and the decision, the write of a write hit or the
    fetch of a miss, and the update. *)
Definition trace_steps (first : string) (is_hit : bool) (operation : string)
  : list string :=
  [first; "Compare Tag"; "Hit/Miss"]%string
  ++ (if is_hit
      then if (operation =? "write")%string then ["Write"%string] else []
      else ["Memory Fetch"%string])
  ++ ["Update Cache"%string].

(** The tag of [address] for cache [c]. *)
Definition tag_of (c : Cache) (address : Z) : Z :=
  match c with
  | DirectMapped d => fst (fst (DirectMappedCache.decompose_address d address))
  | FullyAssociative f => fst (FullyAssociativeCache.decompose_address f address)
  end.

(** The latest outcome of a history (most recent first) that touched line
    [l]. *)
Fixpoint latest (history : list (result Response)) (l : Z) : option Response :=
  match history with
  | [] => None
  | Ok resp :: earlier =>
      match affected_line resp with
      | Some k => if k =? l then Some resp else latest earlier l
      | None => latest earlier l
      end
  | Raise _ :: earlier => latest earlier l
  end.

(** The block of [address] is resident in [c]: a valid line carries its tag,
    and for the direct-mapped engine it is the line of its index. *)
Definition holds (c : Cache) (address : Z) : Prop :=
  exists l b,
    line_at c l = Some b
    /\ valid b = 1
    /\ tag b = Some (tag_of c address)
    /\ match c with
       | DirectMapped d =>
           l = snd (fst (DirectMappedCache.decompose_address d address))
       | FullyAssociative _ => True
       end.

(** A line as the engines keep it: invalid lines are as constructed, valid
    lines have a tag, a payload and a dirty bit of 0 or 1. *)
Definition line_ok (b : CacheBlock) : Prop :=
  (valid b = 0 /\ b = CacheBlock_new)
  \/ (valid b = 1 /\ tag b <> None /\ data b <> None /\ (dirty b = 0 \/ dirty b = 1)).

(** Number of dirty lines. *)
Fixpoint dirty_count (l : list CacheBlock) : Z :=
  match l with
  | [] => 0
  | b :: rest => b2z (dirty b =? 1) + dirty_count rest
  end.

(** Number of calls whose operation is exactly ['write']. *)
Fixpoint write_count (qs : list Request) : Z :=
  match qs with
  | [] => 0
  | q :: rest => b2z (q_operation q =? "write")%string + write_count rest
  end.

(** The immutable part of a cache. *)
Definition configuration (c : Cache) : Z * Z * Z * string * string :=
  (CacheSimulator.cache_size (base c), CacheSimulator.block_size (base c),
   CacheSimulator.num_blocks (base c), CacheSimulator.write_policy (base c),
   cache_type c).

(** The tags of the valid lines of a list of lines, in order. *)
Definition valid_tags (l : list CacheBlock) : list (option Z) :=
  map tag (filter (fun b => valid b =? 1) l).

(** A session on the adapter: [cache_access] for each address and operation
    in turn, each on the global the call before left. *)
Fixpoint cache_accesses (active_cache : option Cache) (calls : list (Z * string))
  : option Cache * list AccessReply :=
  match calls with
  | [] => (active_cache, [])
  | (address, operation) :: rest =>
      let (active_cache', reply) := cache_access active_cache address operation in
      let (final, replies) := cache_accesses active_cache' rest in
      (final, reply :: replies)
  end.

(** Two lines hold the same block: the same valid bit and the same tag. *)
Definition same_block (b1 b2 : CacheBlock) : Prop :=
  valid b1 = valid b2 /\ tag b1 = tag b2.

Definition same_entries (d1 d2 : OrderedDict.t) : Prop :=
  Forall2 (fun e1 e2 => fst e1 = fst e2 /\ same_block (snd e1) (snd e2)) d1 d2.

(** Two caches place the same blocks on the same lines, in the same order,
    and agree on the counters that count accesses, hits, misses and fetches. *)
Definition same_placement (c1 c2 : Cache) : Prop :=
  field_bits c1 = field_bits c2
  /\ CacheSimulator.total_accesses (base c1) = CacheSimulator.total_accesses (base c2)
  /\ CacheSimulator.hits (base c1) = CacheSimulator.hits (base c2)
  /\ CacheSimulator.misses (base c1) = CacheSimulator.misses (base c2)
  /\ CacheSimulator.memory_reads (base c1) = CacheSimulator.memory_reads (base c2)
  /\ match c1, c2 with
     | DirectMapped d1, DirectMapped d2 =>
         Forall2 same_block (DirectMappedCache.cache d1) (DirectMappedCache.cache d2)
     | FullyAssociative f1, FullyAssociative f2 =>
         same_entries (FullyAssociativeCache.cache f1) (FullyAssociativeCache.cache f2)
     | _, _ => False
     end.

(** The placement decision a response reports: hit or miss, whether a valid
    line was replaced, and the line used; an exception stays what it is. *)
Definition outcome (r : result Response) : result (bool * bool * option Z) :=
  match r with
  | Ok resp => Ok (hit resp, eviction resp, affected_line resp)
  | Raise e => Raise e
  end.


(** The line index of [address] for cache [c]; the fully associative engine
    has none. *)
Definition index_of (c : Cache) (address : Z) : option Z :=
  match c with
  | DirectMapped d => Some (snd (fst (DirectMappedCache.decompose_address d address)))
  | FullyAssociative _ => None
  end.

(** ** Python primitives: basic facts *)

Lemma py_index_bound (len : nat) (i : Z) (k : nat) :
  py_index len i = Some k -> (k < len)%nat.
Proof.
  unfold py_index.
  destruct ((0 <=? i) && (i <? Z.of_nat len)) eqn:E1.
  - intros [= <-]. apply andb_prop in E1 as [H1 H2]. lia.
  - destruct ((- Z.of_nat len <=? i) && (i <? 0)) eqn:E2; [|discriminate].
    intros [= <-]. apply andb_prop in E2 as [H1 H2]. lia.
Qed.

Lemma py_index_in_range (len : nat) (i : Z) :
  0 <= i < Z.of_nat len -> py_index len i = Some (Z.to_nat i).
Proof.
  intros H. unfold py_index.
  replace ((0 <=? i) && (i <? Z.of_nat len)) with true; [reflexivity|].
  symmetry. apply andb_true_intro. split; lia.
Qed.

Lemma py_getitem_in_range {A : Type} (l : list A) (i : Z) :
  0 <= i < Z.of_nat (List.length l) -> exists x, py_getitem l i = Some x.
Proof.
  intros H. unfold py_getitem. rewrite py_index_in_range by exact H.
  destruct (nth_error l (Z.to_nat i)) eqn:E; [eauto|].
  apply nth_error_None in E. lia.
Qed.

Lemma py_getitem_In {A : Type} (l : list A) (i : Z) (x : A) :
  py_getitem l i = Some x -> In x l.
Proof.
  unfold py_getitem. destruct (py_index _ i); [|discriminate].
  apply nth_error_In.
Qed.

Lemma list_set_length {A : Type} (l : list A) (k : nat) (v : A) :
  List.length (list_set l k v) = List.length l.
Proof.
  revert k. induction l as [|h t IH]; intros [|k]; simpl; auto.
Qed.

Lemma list_set_nth_same {A : Type} (l : list A) (k : nat) (v : A) :
  (k < List.length l)%nat -> nth_error (list_set l k v) k = Some v.
Proof.
  revert k. induction l as [|h t IH]; intros [|k] H; simpl in *; try lia; auto.
  apply IH. lia.
Qed.

Lemma list_set_Forall {A : Type} (P : A -> Prop) (l : list A) (k : nat) (v : A) :
  Forall P l -> P v -> Forall P (list_set l k v).
Proof.
  intros Hl Hv. revert k.
  induction Hl as [|h t Hh Ht IH]; intros [|k]; simpl; auto.
Qed.

Lemma py_mutate_length {A : Type} (l : list A) (i : Z) (v : A) :
  List.length (py_mutate l i v) = List.length l.
Proof.
  unfold py_mutate. destruct (py_index _ i); [apply list_set_length|reflexivity].
Qed.

Lemma py_mutate_Forall {A : Type} (P : A -> Prop) (l : list A) (i : Z) (v : A) :
  Forall P l -> P v -> Forall P (py_mutate l i v).
Proof.
  intros Hl Hv. unfold py_mutate.
  destruct (py_index _ i); [apply list_set_Forall; assumption|assumption].
Qed.

Lemma py_getitem_mutate_same {A : Type} (l : list A) (i : Z) (x v : A) :
  py_getitem l i = Some x -> py_getitem (py_mutate l i v) i = Some v.
Proof.
  unfold py_getitem, py_mutate. intros H.
  destruct (py_index (List.length l) i) as [k|] eqn:E; [|discriminate].
  rewrite list_set_length, E. apply list_set_nth_same.
  eapply py_index_bound; eassumption.
Qed.

(** ** Bit fields *)

Lemma mask_ones (n : Z) : Z.shiftl 1 n - 1 = Z.ones n.
Proof. unfold Z.ones. lia. Qed.

Lemma land_mask_mod (a n : Z) : 0 <= n -> Z.land a (Z.shiftl 1 n - 1) = a mod 2 ^ n.
Proof. intros H. rewrite mask_ones. apply Z.land_ones, H. Qed.

Lemma land_mask_range (a n : Z) : 0 <= n -> 0 <= Z.land a (Z.shiftl 1 n - 1) < 2 ^ n.
Proof.
  intros H. rewrite land_mask_mod by exact H.
  apply Z.mod_pos_bound. apply Z.pow_pos_nonneg; lia.
Qed.


(** ** The direct-mapped access, case by case *)

Ltac reduce_monad :=
  cbv beta iota delta
    [bind ret get modify raise or_raise
     DirectMappedCache.on_base DirectMappedCache.mutate_line
     FullyAssociativeCache.on_base FullyAssociativeCache.mutate_line
     FullyAssociativeCache.set_cache].

Ltac reduce_fields :=
  cbn [fst snd andb negb b2z
       access_number r_address r_operation r_tag r_index r_offset steps hit
       eviction dirty_writeback affected_line
       add_step set_hit set_eviction set_dirty_writeback set_affected_line
       CacheSimulator.incr_total_accesses CacheSimulator.incr_hits
       CacheSimulator.incr_misses CacheSimulator.incr_memory_reads
       CacheSimulator.incr_memory_writes
       CacheSimulator.cache_size CacheSimulator.block_size CacheSimulator.num_blocks
       CacheSimulator.write_policy CacheSimulator.offset_bits
       CacheSimulator.total_accesses CacheSimulator.hits CacheSimulator.misses
       CacheSimulator.memory_reads CacheSimulator.memory_writes
       DirectMappedCache.write_policy DirectMappedCache.on_base
       DirectMappedCache.mutate_line DirectMappedCache.base
       DirectMappedCache.index_bits DirectMappedCache.tag_bits DirectMappedCache.cache
       FullyAssociativeCache.write_policy FullyAssociativeCache.on_base
       FullyAssociativeCache.mutate_line FullyAssociativeCache.set_cache
       FullyAssociativeCache.base FullyAssociativeCache.tag_bits
       FullyAssociativeCache.cache].

Ltac reduce_methods := repeat (progress (reduce_monad; reduce_fields)).

Ltac split_if :=
  match goal with
  | |- context [if ?b then _ else _] => destruct b eqn:?
  end.

Lemma DM_access_spec (d : DirectMappedCache.t) (address : Z) (op : string) (data : option Z) :
  dm_sound d ->
  let ob := CacheSimulator.offset_bits (DirectMappedCache.base d) in
  let ib := DirectMappedCache.index_bits d in
  let wp := DirectMappedCache.write_policy d in
  let tag := Z.shiftr address (ob + ib) in
  let index := Z.land (Z.shiftr address ob) (Z.shiftl 1 ib - 1) in
  exists line resp,
    py_getitem (DirectMappedCache.cache d) index = Some line
    /\ let is_hit := (valid line =? 1) && tag_eqb line tag in
       let evicts := negb is_hit && (valid line =? 1) in
       let writeback := evicts && (wp =? "write-back")%string && (dirty line =? 1) in
       DirectMappedCache.access address op data d =
         (DirectMappedCache.mk
            (counted (DirectMappedCache.base d) is_hit writeback op)
            ib (DirectMappedCache.tag_bits d)
            (if is_hit then
               if (op =? "write")%string
               then py_mutate (DirectMappedCache.cache d) index
                      (written_block line address data wp)
               else DirectMappedCache.cache d
             else py_mutate (DirectMappedCache.cache d) index
                    (filled_block tag address op data wp)),
          Ok resp)
       /\ hit resp = is_hit
       /\ eviction resp = evicts
       /\ dirty_writeback resp = writeback
       /\ affected_line resp = Some index
       /\ access_number resp = CacheSimulator.total_accesses (DirectMappedCache.base d) + 1.
Proof.
  intros (Hob & Hib & Hlen & Hok).
  destruct d as [[cs bs nb wp ob t h m r w] ib tb cache].
  simpl in Hob, Hib, Hlen, Hok.
  unfold DirectMappedCache.access, DirectMappedCache.decompose_address,
    DirectMappedCache._handle_write_hit, DirectMappedCache._fetch_from_memory,
    DirectMappedCache.write_policy, counted, filled_block, written_block.
  reduce_methods.
  remember (Z.land (Z.shiftr address ob) (Z.shiftl 1 ib - 1)) as index eqn:Eindex.
  remember (Z.shiftr address (ob + ib)) as tg eqn:Etag.
  destruct (py_getitem_in_range cache index) as [line Hline].
  { pose proof (land_mask_range (Z.shiftr address ob) _ Hib) as Hr.
    rewrite <- Eindex in Hr. lia. }
  exists line.
  clear Eindex Etag.
  rewrite Hline. reduce_methods.
  destruct (valid line =? 1) eqn:Ev;
    destruct (tag_eqb line tg) eqn:Et;
    repeat (reduce_methods; rewrite ?Hline; try split_if);
    rewrite ?Z.add_0_r;
    (eexists; split; [reflexivity|]; repeat split).
Qed.

(** ** The ordered dictionary *)

Lemma od_getitem_In (d : OrderedDict.t) (k : Z) (b : CacheBlock) :
  OrderedDict.getitem d k = Some b -> In (k, b) d.
Proof.
  induction d as [|[k' v] rest IH]; simpl; [discriminate|].
  destruct (k' =? k) eqn:E.
  - intros [= <-]. apply Z.eqb_eq in E. subst. now left.
  - intros H. right. auto.
Qed.

Lemma od_In_getitem (d : OrderedDict.t) (k : Z) (b : CacheBlock) :
  NoDup (OrderedDict.keys d) -> In (k, b) d -> OrderedDict.getitem d k = Some b.
Proof.
  induction d as [|[k' v] rest IH]; simpl; [tauto|].
  intros Hnd [H|H].
  - inversion H; subst. now rewrite Z.eqb_refl.
  - inversion Hnd as [|? ? Hnotin Hnd']; subst.
    destruct (k' =? k) eqn:E.
    + apply Z.eqb_eq in E. subst. exfalso. apply Hnotin.
      change k with (fst (k, b)). now apply in_map.
    + auto.
Qed.

Lemma od_keys_remove (d : OrderedDict.t) (k : Z) :
  NoDup (OrderedDict.keys d) ->
  OrderedDict.keys (OrderedDict.remove d k) = List.remove Z.eq_dec k (OrderedDict.keys d).
Proof.
  induction d as [|[k' v] rest IH]; simpl; [reflexivity|].
  intros Hnd. inversion Hnd as [|? ? Hnotin Hnd']; subst.
  destruct (Z.eq_dec k k') as [->|Hne].
  - rewrite Z.eqb_refl. symmetry. apply notin_remove. exact Hnotin.
  - replace (k' =? k) with false by (symmetry; apply Z.eqb_neq; congruence).
    simpl. f_equal. apply IH. exact Hnd'.
Qed.

Lemma od_remove_app_notin (d1 d2 : OrderedDict.t) (k : Z) :
  ~ In k (OrderedDict.keys d1) ->
  OrderedDict.remove (d1 ++ d2) k = d1 ++ OrderedDict.remove d2 k.
Proof.
  induction d1 as [|[k' v] rest IH]; simpl; [reflexivity|].
  intros H. destruct (k' =? k) eqn:E.
  - apply Z.eqb_eq in E. tauto.
  - f_equal. apply IH. tauto.
Qed.

Lemma od_getitem_app_notin (d1 d2 : OrderedDict.t) (k : Z) :
  ~ In k (OrderedDict.keys d1) ->
  OrderedDict.getitem (d1 ++ d2) k = OrderedDict.getitem d2 k.
Proof.
  induction d1 as [|[k' v] rest IH]; simpl; [reflexivity|].
  intros H. destruct (k' =? k) eqn:E.
  - apply Z.eqb_eq in E. tauto.
  - apply IH. tauto.
Qed.

Lemma od_mutate_app_notin (d1 d2 : OrderedDict.t) (k : Z) (v : CacheBlock) :
  ~ In k (OrderedDict.keys d1) ->
  OrderedDict.mutate (d1 ++ d2) k v = d1 ++ OrderedDict.mutate d2 k v.
Proof.
  induction d1 as [|[k' v'] rest IH]; simpl; [reflexivity|].
  intros H. destruct (k' =? k) eqn:E.
  - apply Z.eqb_eq in E. tauto.
  - f_equal. apply IH. tauto.
Qed.

Lemma od_remove_mutate (d : OrderedDict.t) (k : Z) (v : CacheBlock) :
  OrderedDict.remove (OrderedDict.mutate d k v) k = OrderedDict.remove d k.
Proof.
  induction d as [|[k' v'] rest IH]; simpl; [reflexivity|].
  destruct (k' =? k) eqn:E; simpl; rewrite E; [reflexivity|].
  f_equal. exact IH.
Qed.

Lemma od_getitem_mutate (d : OrderedDict.t) (k : Z) (v b : CacheBlock) :
  OrderedDict.getitem d k = Some b ->
  OrderedDict.getitem (OrderedDict.mutate d k v) k = Some v.
Proof.
  induction d as [|[k' v'] rest IH]; simpl; [discriminate|].
  destruct (k' =? k) eqn:E; simpl; rewrite E; auto.
Qed.

Lemma od_notin_keys_remove (d : OrderedDict.t) (k : Z) :
  NoDup (OrderedDict.keys d) -> ~ In k (OrderedDict.keys (OrderedDict.remove d k)).
Proof.
  intros Hnd. rewrite od_keys_remove by exact Hnd. apply remove_In.
Qed.

Lemma od_keys_app (d1 d2 : OrderedDict.t) :
  OrderedDict.keys (d1 ++ d2) = OrderedDict.keys d1 ++ OrderedDict.keys d2.
Proof. apply map_app. Qed.

Lemma od_values_app (d1 d2 : OrderedDict.t) :
  OrderedDict.values (d1 ++ d2) = OrderedDict.values d1 ++ OrderedDict.values d2.
Proof. apply map_app. Qed.

Lemma od_getitem_moved (d : OrderedDict.t) (k : Z) (v : CacheBlock) :
  NoDup (OrderedDict.keys d) ->
  OrderedDict.getitem (OrderedDict.remove d k ++ [(k, v)]) k = Some v.
Proof.
  intros Hnd. rewrite od_getitem_app_notin by (apply od_notin_keys_remove, Hnd).
  simpl. now rewrite Z.eqb_refl.
Qed.

Lemma od_mutate_moved (d : OrderedDict.t) (k : Z) (v v' : CacheBlock) :
  NoDup (OrderedDict.keys d) ->
  OrderedDict.mutate (OrderedDict.remove d k ++ [(k, v)]) k v'
  = OrderedDict.remove d k ++ [(k, v')].
Proof.
  intros Hnd. rewrite od_mutate_app_notin by (apply od_notin_keys_remove, Hnd).
  simpl. now rewrite Z.eqb_refl.
Qed.

Lemma find_block_from_Some (d : OrderedDict.t) (tg k : Z) :
  FullyAssociativeCache.find_block_from d tg = Some k ->
  exists b, In (k, b) d /\ valid b = 1 /\ tag_eqb b tg = true.
Proof.
  induction d as [|[k' v] rest IH]; simpl; [discriminate|].
  destruct ((valid v =? 1) && tag_eqb v tg) eqn:E.
  - intros [= <-]. apply andb_prop in E as [E1 E2]. apply Z.eqb_eq in E1.
    exists v. auto.
  - intros H. destruct (IH H) as (b & Hin & Hb). exists b. auto.
Qed.

Lemma find_empty_from_Some (d : OrderedDict.t) (k : Z) :
  FullyAssociativeCache.find_empty_from d = Some k ->
  exists b, In (k, b) d /\ valid b = 0.
Proof.
  induction d as [|[k' v] rest IH]; simpl; [discriminate|].
  destruct (valid v =? 0) eqn:E.
  - intros [= <-]. apply Z.eqb_eq in E. eauto.
  - intros H. destruct (IH H) as (b & Hin & Hb). eauto.
Qed.

Lemma find_empty_from_None (d : OrderedDict.t) :
  FullyAssociativeCache.find_empty_from d = None ->
  Forall (fun b => valid b <> 0) (OrderedDict.values d).
Proof.
  induction d as [|[k' v] rest IH]; simpl; [constructor|].
  destruct (valid v =? 0) eqn:E; [discriminate|].
  intros H. constructor; [apply Z.eqb_neq, E|auto].
Qed.

(** ** The fully associative access, case by case *)

Lemma fa_case_eq (f : FullyAssociativeCache.t) (address : Z) (op : string)
  (data : option Z) (x y : FullyAssociativeCache.t * result Response) :
  fa_case f address op data x -> x = y -> fa_case f address op data y.
Proof. intros H <-. exact H. Qed.

Ltac close_case :=
  unfold counted, filled_block, written_block, FullyAssociativeCache.write_policy;
  reduce_fields;
  repeat match goal with
         | E : _ = true |- _ => rewrite E
         | E : _ = false |- _ => rewrite E
         end;
  reduce_fields; rewrite ?Z.add_0_r; reflexivity.

Lemma FA_access_cases (f : FullyAssociativeCache.t) (address : Z) (op : string)
  (data : option Z) :
  NoDup (OrderedDict.keys (FullyAssociativeCache.cache f)) ->
  fa_case f address op data (FullyAssociativeCache.access address op data f).
Proof.
  intros Hnd.
  destruct f as [[cs bs nb wp ob t h m r w] tb cache].
  simpl in Hnd.
  unfold FullyAssociativeCache.access, FullyAssociativeCache.decompose_address,
    FullyAssociativeCache._find_block, FullyAssociativeCache._find_empty_line.
  reduce_methods.
  destruct (FullyAssociativeCache.find_block_from cache (Z.shiftr address ob))
    as [k|] eqn:Efind.
  - destruct (find_block_from_Some _ _ _ Efind) as (line & Hin & Hv & Ht).
    pose proof (od_In_getitem _ _ _ Hnd Hin) as Hget.
    unfold FullyAssociativeCache._update_lru, FullyAssociativeCache._handle_write_hit,
      OrderedDict.move_to_end.
    reduce_methods. rewrite Hget. reduce_methods.
    destruct (op =? "write")%string eqn:Eop.
    + reduce_methods. rewrite (od_getitem_moved _ _ _ Hnd). reduce_methods.
      destruct (wp =? "write-through")%string eqn:Ewp; reduce_methods;
        rewrite (od_mutate_moved _ _ _ _ Hnd);
        (eapply fa_case_eq; [eapply (fa_hit _ address op data k line)|];
         [..|close_case]; solve [eassumption|reflexivity]).
    + reduce_methods.
      (eapply fa_case_eq; [eapply (fa_hit _ address op data k line)|];
         [..|close_case]; solve [eassumption|reflexivity]).
  - destruct (FullyAssociativeCache.find_empty_from cache) as [k|] eqn:Eempty.
    + destruct (find_empty_from_Some _ _ Eempty) as (line & Hin & Hv).
      pose proof (od_In_getitem _ _ _ Hnd Hin) as Hget.
      unfold FullyAssociativeCache._update_lru, FullyAssociativeCache._fetch_from_memory,
        OrderedDict.move_to_end.
      reduce_methods. rewrite Hget. reduce_methods.
      destruct (op =? "write")%string eqn:Eop;
        [destruct (wp =? "write-through")%string eqn:Ewp|];
        reduce_methods;
        rewrite (od_getitem_mutate _ _ _ _ Hget); reduce_methods;
        rewrite od_remove_mutate;
        (eapply fa_case_eq; [eapply (fa_fill _ address op data k line)|];
         [..|close_case]; solve [eassumption|reflexivity]).
    + unfold FullyAssociativeCache._evict_lru, FullyAssociativeCache._update_lru,
        FullyAssociativeCache._fetch_from_memory, OrderedDict.move_to_end,
        OrderedDict.first_key.
      reduce_methods.
      destruct cache as [|[k line] rest].
      * reduce_methods. apply fa_stop. reflexivity.
      * reduce_methods.
        assert (Hget : OrderedDict.getitem ((k, line) :: rest) k = Some line)
          by (simpl; now rewrite Z.eqb_refl).
        rewrite Hget. reduce_methods.
        assert (Hrm : forall v, OrderedDict.remove (OrderedDict.mutate ((k, line) :: rest) k v) k
                                = rest)
          by (intros v; simpl; rewrite Z.eqb_refl; simpl; now rewrite Z.eqb_refl).
        destruct (wp =? "write-back")%string eqn:Ewb;
          destruct (dirty line =? 1) eqn:Ed;
          (destruct (op =? "write")%string eqn:Eop;
           [destruct (wp =? "write-through")%string eqn:Ewp|]);
          reduce_methods; rewrite ?Hget; reduce_methods;
          rewrite ?Eop, ?Ewp; reduce_methods;
          rewrite (od_getitem_mutate _ _ _ _ Hget); reduce_methods;
          rewrite Hrm;
          (eapply fa_case_eq; [eapply (fa_evict _ address op data k line rest)|];
           [..|close_case];
           solve [eassumption|reflexivity
                 |unfold FullyAssociativeCache.write_policy; reduce_fields;
                  rewrite ?Ewb, ?Ed; reflexivity]).
Qed.

(** ** What the constructors build *)

Lemma CacheSimulator_init_inv (cs bs : Z) (wp : string) (s : CacheSimulator.t) :
  CacheSimulator.__init__ cs bs wp = Ok s ->
  0 < bs /\ s = CacheSimulator.mk cs bs (cs / bs) wp (Z.log2 bs) 0 0 0 0 0.
Proof.
  unfold CacheSimulator.__init__, py_floordiv, int_log2.
  destruct (bs =? 0) eqn:E0; [discriminate|].
  destruct (bs <=? 0) eqn:E1; [discriminate|].
  intros [= <-]. split; [lia|reflexivity].
Qed.

Lemma DM_init_inv (cs bs : Z) (wp : string) (d : DirectMappedCache.t) :
  DirectMappedCache.__init__ cs bs wp = Ok d ->
  0 < bs /\ 0 < cs / bs
  /\ d = DirectMappedCache.mk
           (CacheSimulator.mk cs bs (cs / bs) wp (Z.log2 bs) 0 0 0 0 0)
           (Z.log2 (cs / bs)) (32 - Z.log2 (cs / bs) - Z.log2 bs)
           (repeat CacheBlock_new (Z.to_nat (cs / bs))).
Proof.
  unfold DirectMappedCache.__init__.
  destruct (CacheSimulator.__init__ cs bs wp) as [s|e] eqn:E; [|discriminate].
  apply CacheSimulator_init_inv in E as [Hbs ->]. simpl.
  unfold int_log2. destruct (cs / bs <=? 0) eqn:E1; [discriminate|].
  intros [= <-]. repeat split; lia.
Qed.

Lemma FA_init_inv (cs bs : Z) (wp : string) (f : FullyAssociativeCache.t) :
  FullyAssociativeCache.__init__ cs bs wp = Ok f ->
  0 < bs
  /\ f = FullyAssociativeCache.mk
           (CacheSimulator.mk cs bs (cs / bs) wp (Z.log2 bs) 0 0 0 0 0)
           (32 - Z.log2 bs)
           (map (fun i => (Z.of_nat i, CacheBlock_new)) (seq 0 (Z.to_nat (cs / bs)))).
Proof.
  unfold FullyAssociativeCache.__init__.
  destruct (CacheSimulator.__init__ cs bs wp) as [s|e] eqn:E; [|discriminate].
  apply CacheSimulator_init_inv in E as [Hbs ->]. simpl.
  intros [= <-]. split; [lia|reflexivity].
Qed.

Lemma construct_inv (cs bs : Z) (ct wp : string) (c : Cache) :
  construct cs bs ct wp = Ok c ->
  (exists d, c = DirectMapped d /\ (ct =? "direct-mapped")%string = true
             /\ DirectMappedCache.__init__ cs bs wp = Ok d)
  \/ (exists f, c = FullyAssociative f /\ (ct =? "direct-mapped")%string = false
              /\ FullyAssociativeCache.__init__ cs bs wp = Ok f).
Proof.
  unfold construct. destruct (ct =? "direct-mapped")%string.
  - destruct (DirectMappedCache.__init__ cs bs wp) as [d|e] eqn:E; [|discriminate].
    intros [= <-]. left. eauto.
  - destruct (FullyAssociativeCache.__init__ cs bs wp) as [f|e] eqn:E; [|discriminate].
    intros [= <-]. right. eauto.
Qed.

Lemma initial_keys_NoDup (n : nat) :
  NoDup (OrderedDict.keys (map (fun i => (Z.of_nat i, CacheBlock_new)) (seq 0 n))).
Proof.
  unfold OrderedDict.keys. rewrite map_map. simpl.
  apply NoDup_map_NoDup_ForallPairs; [|apply seq_NoDup].
  intros x y _ _ H. lia.
Qed.

Lemma initial_values (n : nat) :
  OrderedDict.values (map (fun i => (Z.of_nat i, CacheBlock_new)) (seq 0 n))
  = repeat CacheBlock_new n.
Proof.
  unfold OrderedDict.values. rewrite map_map. simpl.
  generalize 0%nat. induction n as [|n IH]; intros start; simpl; [reflexivity|].
  f_equal. apply IH.
Qed.

Lemma Forall_repeat {A : Type} (P : A -> Prop) (x : A) (n : nat) :
  P x -> Forall P (repeat x n).
Proof. intros H. induction n; simpl; constructor; auto. Qed.

Lemma construct_sound (cs bs : Z) (ct wp : string) (c : Cache) :
  construct cs bs ct wp = Ok c -> sound c [].
Proof.
  intros H. destruct (construct_inv _ _ _ _ _ H) as [(d & -> & _ & Hd)|(f & -> & _ & Hf)].
  - apply DM_init_inv in Hd as (Hbs & Hnb & ->). simpl. unfold dm_sound. simpl.
    repeat split.
    + apply Z.log2_nonneg.
    + apply Z.log2_nonneg.
    + rewrite repeat_length. pose proof (Z.log2_spec _ Hnb). lia.
    + apply Forall_repeat. left. reflexivity.
  - apply FA_init_inv in Hf as (Hbs & ->). simpl. unfold fa_sound. simpl.
    repeat split.
    + apply Z.log2_nonneg.
    + apply initial_keys_NoDup.
    + eexists _, []. rewrite app_nil_r. repeat split.
      * rewrite initial_values. apply Forall_repeat. reflexivity.
      * constructor.
Qed.

Lemma construct_fresh (cs bs : Z) (ct wp : string) (c : Cache) :
  construct cs bs ct wp = Ok c -> fresh c.
Proof.
  intros H. destruct (construct_inv _ _ _ _ _ H) as [(d & -> & _ & Hd)|(f & -> & _ & Hf)].
  - apply DM_init_inv in Hd as (Hbs & Hnb & ->). unfold fresh. simpl.
    repeat split. apply Forall_repeat. reflexivity.
  - apply FA_init_inv in Hf as (Hbs & ->). unfold fresh. simpl.
    repeat split. rewrite initial_values. apply Forall_repeat. reflexivity.
Qed.

(** ** Recency order *)

Lemma NoDup_list_remove (k : Z) (l : list Z) :
  NoDup l -> NoDup (List.remove Z.eq_dec k l).
Proof.
  induction 1 as [|x l Hx Hl IH]; simpl; [constructor|].
  destruct (Z.eq_dec k x); [exact IH|].
  constructor; [|exact IH].
  intros Hin. apply in_remove in Hin. tauto.
Qed.

Lemma NoDup_move_to_end (k : Z) (l : list Z) :
  NoDup l -> NoDup (List.remove Z.eq_dec k l ++ [k]).
Proof.
  intros H. apply NoDup_app.
  - apply NoDup_list_remove, H.
  - constructor; [simpl; tauto|constructor].
  - intros a Ha [<-|[]]. revert Ha. apply remove_In.
Qed.

Lemma age_touched (h : list (result Response)) (l : Z) :
  In l (lru_order h) -> exists a, age h l = Some a.
Proof.
  induction h as [|r h IH]; simpl; [tauto|].
  destruct (touched r) as [k|].
  - intros Hin. destruct (k =? l) eqn:E; [eauto|].
    apply in_app_or in Hin as [Hin|[->|[]]].
    + apply in_remove in Hin as [Hin _]. destruct (IH Hin) as [a ->]. simpl. eauto.
    + rewrite Z.eqb_refl in E. discriminate.
  - intros Hin. destruct (IH Hin) as [a ->]. simpl. eauto.
Qed.

Lemma StronglySorted_weaken {A : Type} (R R' : A -> A -> Prop) (l : list A) :
  (forall x y, In x l -> In y l -> R x y -> R' x y) ->
  StronglySorted R l -> StronglySorted R' l.
Proof.
  intros Himp Hs. induction Hs as [|a l Hs IH Hall]; constructor.
  - apply IH. intros x y Hx Hy. apply Himp; now right.
  - rewrite Forall_forall in *. intros y Hy. apply Himp; [now left|now right|auto].
Qed.

Lemma StronglySorted_remove (R : Z -> Z -> Prop) (k : Z) (l : list Z) :
  StronglySorted R l -> StronglySorted R (List.remove Z.eq_dec k l).
Proof.
  induction 1 as [|a l Hs IH Hall]; simpl; [constructor|].
  destruct (Z.eq_dec k a); [exact IH|].
  constructor; [exact IH|].
  rewrite Forall_forall in *. intros y Hy. apply in_remove in Hy. apply Hall, Hy.
Qed.

Lemma StronglySorted_snoc {A : Type} (R : A -> A -> Prop) (l : list A) (x : A) :
  StronglySorted R l -> Forall (fun y => R y x) l -> StronglySorted R (l ++ [x]).
Proof.
  induction 1 as [|a l Hs IH Hall]; simpl; intros Hx.
  - constructor; constructor.
  - inversion Hx; subst. constructor; [auto|].
    apply Forall_app. split; [exact Hall|]. constructor; [assumption|constructor].
Qed.

Lemma older_later (r : result Response) (h : list (result Response)) (x y : Z) :
  touched r <> Some x -> touched r <> Some y ->
  older h x y -> older (r :: h) x y.
Proof.
  intros Hx Hy (a & b & Ha & Hb & Hlt). unfold older. simpl.
  destruct (touched r) as [k|].
  - destruct (k =? x) eqn:Ex; [apply Z.eqb_eq in Ex; congruence|].
    destruct (k =? y) eqn:Ey; [apply Z.eqb_eq in Ey; congruence|].
    rewrite Ha, Hb. simpl. exists (S a), (S b). repeat split. lia.
  - rewrite Ha, Hb. simpl. exists (S a), (S b). repeat split. lia.
Qed.

(** The recency order lists the touched lines by strictly decreasing age. *)
Lemma lru_order_sorted (h : list (result Response)) :
  StronglySorted (older h) (lru_order h).
Proof.
  induction h as [|r h IH]; simpl; [constructor|].
  destruct (touched r) as [k|] eqn:Et.
  - apply StronglySorted_snoc.
    + apply StronglySorted_weaken with (R := older h).
      * intros x y Hx Hy. apply in_remove in Hx, Hy.
        apply older_later; rewrite Et; intros [= ->]; tauto.
      * apply StronglySorted_remove, IH.
    + apply Forall_forall. intros y Hy. apply in_remove in Hy as [Hy Hne].
      destruct (age_touched _ _ Hy) as [a Ha].
      unfold older. simpl. rewrite Et, Z.eqb_refl.
      replace (k =? y) with false by (symmetry; apply Z.eqb_neq; congruence).
      rewrite Ha. simpl. exists (S a), O. repeat split. lia.
  - apply StronglySorted_weaken with (R := older h); [|exact IH].
    intros x y _ _. apply older_later; rewrite Et; discriminate.
Qed.

(** ** Soundness is kept by every call *)

Lemma access_DirectMapped (d : DirectMappedCache.t) (a : Z) (op : string) (data : option Z) :
  access a op data (DirectMapped d)
  = (DirectMapped (fst (DirectMappedCache.access a op data d)),
     snd (DirectMappedCache.access a op data d)).
Proof. unfold access. destruct (DirectMappedCache.access a op data d). reflexivity. Qed.

Lemma access_FullyAssociative (f : FullyAssociativeCache.t) (a : Z) (op : string)
  (data : option Z) :
  access a op data (FullyAssociative f)
  = (FullyAssociative (fst (FullyAssociativeCache.access a op data f)),
     snd (FullyAssociativeCache.access a op data f)).
Proof. unfold access. destruct (FullyAssociativeCache.access a op data f). reflexivity. Qed.

Lemma DM_access_sound (d : DirectMappedCache.t) (a : Z) (op : string) (data : option Z) :
  dm_sound d -> dm_sound (fst (DirectMappedCache.access a op data d)).
Proof.
  intros Hs. destruct (DM_access_spec d a op data Hs) as (line & resp & Hline & Hacc & _).
  cbv zeta in Hacc. rewrite Hacc. destruct Hs as (Hob & Hib & Hlen & Hok).
  unfold dm_sound. simpl. repeat split; try assumption.
  - repeat match goal with |- context [if ?b then _ else _] => destruct b end;
      rewrite ?py_mutate_length; assumption.
  - pose proof (py_getitem_In _ _ _ Hline) as Hin.
    assert (Hl : block_ok line) by (rewrite Forall_forall in Hok; auto).
    repeat match goal with |- context [if ?b then _ else _] => destruct b end;
      try assumption; apply py_mutate_Forall; try assumption;
      first [exact Hl|right; reflexivity].
Qed.

Lemma find_empty_resident (d : OrderedDict.t) :
  Forall (fun b => valid b = 1) (OrderedDict.values d) ->
  FullyAssociativeCache.find_empty_from d = None.
Proof.
  induction d as [|[k v] rest IH]; simpl; [reflexivity|].
  intros H. inversion H as [|? ? Hv Hrest]; subst.
  rewrite Hv. simpl. auto.
Qed.

Lemma In_keys (d : OrderedDict.t) (k : Z) (b : CacheBlock) :
  In (k, b) d -> In k (OrderedDict.keys d).
Proof. intros H. change k with (fst (k, b)). now apply in_map. Qed.

Lemma In_values (d : OrderedDict.t) (k : Z) (b : CacheBlock) :
  In (k, b) d -> In b (OrderedDict.values d).
Proof. intros H. change b with (snd (k, b)). now apply in_map. Qed.

Lemma od_remove_values (P : CacheBlock -> Prop) (d : OrderedDict.t) (k : Z) :
  Forall P (OrderedDict.values d) -> Forall P (OrderedDict.values (OrderedDict.remove d k)).
Proof.
  induction d as [|[k' v] rest IH]; simpl; [auto|].
  intros H. inversion H; subst. destruct (k' =? k); [assumption|].
  simpl. constructor; auto.
Qed.

Lemma NoDup_keys_moved (d : OrderedDict.t) (k : Z) (v : CacheBlock) :
  NoDup (OrderedDict.keys d) ->
  NoDup (OrderedDict.keys (OrderedDict.remove d k ++ [(k, v)])).
Proof.
  intros H. rewrite od_keys_app, od_keys_remove by exact H.
  apply NoDup_move_to_end, H.
Qed.

(** Touching line [k], a resident line or the first empty one, keeps the
    shape of the dictionary and moves [k] to the recent end of the order. *)
Lemma touch_keeps_shape (empty resident : OrderedDict.t) (k : Z) (v : CacheBlock) :
  NoDup (OrderedDict.keys (empty ++ resident)) ->
  Forall (fun b => valid b = 0) (OrderedDict.values empty) ->
  Forall (fun b => valid b = 1) (OrderedDict.values resident) ->
  valid v = 1 ->
  In k (OrderedDict.keys resident) \/ (exists b rest, empty = (k, b) :: rest) ->
  exists empty' resident',
    OrderedDict.remove (empty ++ resident) k ++ [(k, v)] = empty' ++ resident'
    /\ Forall (fun b => valid b = 0) (OrderedDict.values empty')
    /\ Forall (fun b => valid b = 1) (OrderedDict.values resident')
    /\ OrderedDict.keys resident'
       = List.remove Z.eq_dec k (OrderedDict.keys resident) ++ [k].
Proof.
  intros Hnd He Hr Hv [Hin|(b & rest & ->)].
  - assert (Hnotin : ~ In k (OrderedDict.keys empty)).
    { rewrite od_keys_app in Hnd. intros Hk.
      clear - Hnd Hin Hk. induction (OrderedDict.keys empty) as [|x l IH]; [tauto|].
      simpl in Hnd. inversion Hnd; subst. destruct Hk as [->|Hk]; [|auto].
      apply H1. apply in_or_app. now right. }
    exists empty, (OrderedDict.remove resident k ++ [(k, v)]).
    rewrite od_remove_app_notin by exact Hnotin. rewrite <- app_assoc.
    repeat split; try assumption.
    + rewrite od_values_app. apply Forall_app. split.
      * apply od_remove_values, Hr.
      * constructor; [exact Hv|constructor].
    + rewrite od_keys_app, od_keys_remove; [reflexivity|].
      rewrite od_keys_app in Hnd. eapply NoDup_app_remove_l, Hnd.
  - exists rest, (resident ++ [(k, v)]).
    simpl. rewrite Z.eqb_refl. rewrite <- app_assoc.
    inversion He; subst.
    repeat split; try assumption.
    + rewrite od_values_app. apply Forall_app. split; [exact Hr|].
      constructor; [exact Hv|constructor].
    + rewrite od_keys_app. simpl. f_equal. symmetry. apply notin_remove.
      simpl in Hnd. inversion Hnd; subst. rewrite od_keys_app in H3.
      intros Hk. apply H3. apply in_or_app. now right.
Qed.

Lemma FA_access_sound (f : FullyAssociativeCache.t) (h : list (result Response))
  (a : Z) (op : string) (data : option Z) :
  fa_sound f h ->
  fa_sound (fst (FullyAssociativeCache.access a op data f))
           (snd (FullyAssociativeCache.access a op data f) :: h).
Proof.
  intros (Hob & Hnd & empty & resident & Hsplit & He & Hr & Hkeys).
  pose proof (FA_access_cases f a op data Hnd) as Hcase.
  assert (Hmove : forall k v base' resp,
             valid v = 1 ->
             In k (OrderedDict.keys resident) \/ (exists b rest, empty = (k, b) :: rest) ->
             CacheSimulator.offset_bits base'
             = CacheSimulator.offset_bits (FullyAssociativeCache.base f) ->
             affected_line resp = Some k ->
             fa_sound
               (FullyAssociativeCache.mk base' (FullyAssociativeCache.tag_bits f)
                  (OrderedDict.remove (FullyAssociativeCache.cache f) k ++ [(k, v)]))
               (Ok resp :: h)).
  { intros k v base' resp Hv Hk Hbase Haff.
    unfold fa_sound. simpl. rewrite Hbase, Haff. split; [exact Hob|]. split.
    - apply NoDup_keys_moved, Hnd.
    - rewrite Hsplit in Hnd |- *.
      destruct (touch_keeps_shape empty resident k v Hnd He Hr Hv Hk)
        as (empty' & resident' & Heq & He' & Hr' & Hk').
      exists empty', resident'. rewrite <- Hkeys. auto. }
  inversion Hcase as [k line resp tg Hfind Hget Hv Ht Hh Hev Hwb Haff Hnum Heq
                     |k line resp tg Hfind Hempty Hget Hv Hh Hev Hwb Haff Hnum Heq
                     |k line rest resp tg wb Hfind Hempty Hcache Hh Hev Hwb Haff Hnum Heq
                     |Hcache Heq]; simpl.
  - apply Hmove; try assumption; try reflexivity.
    + destruct (op =? "write")%string; [exact Hv|exact Hv].
    + left. apply od_getitem_In in Hget. rewrite Hsplit in Hget.
      apply in_app_or in Hget as [Hin|Hin].
      * apply In_values in Hin. rewrite Forall_forall in He. apply He in Hin. lia.
      * eapply In_keys, Hin.
  - apply Hmove; try assumption; try reflexivity.
    right. rewrite Hsplit in Hempty.
    destruct empty as [|[e b] rest].
    + simpl in Hempty. rewrite find_empty_resident in Hempty by exact Hr. discriminate.
    + inversion He; subst. simpl in Hempty.
      replace (valid b =? 0) with true in Hempty by (symmetry; apply Z.eqb_eq; assumption).
      injection Hempty as <-. eauto.
  - assert (Hrm : rest = OrderedDict.remove (FullyAssociativeCache.cache f) k)
      by (rewrite Hcache; simpl; now rewrite Z.eqb_refl).
    rewrite Hrm. apply Hmove; try assumption; try reflexivity.
    left. apply find_empty_from_None in Hempty.
    rewrite Hsplit in Hempty, Hcache.
    destruct empty as [|[e b] rest'].
    + simpl in Hcache. rewrite Hcache. simpl. now left.
    + inversion He; subst. simpl in Hempty. inversion Hempty; subst. lia.
  - unfold fa_sound. simpl. split; [exact Hob|]. split; [exact Hnd|].
    exists empty, resident. auto.
Qed.

Lemma serve_sound (c : Cache) (h : list (result Response)) (q : Request) :
  sound c h -> sound (fst (serve q c)) (snd (serve q c) :: h).
Proof.
  unfold serve. destruct c as [d|f]; intros Hs.
  - rewrite access_DirectMapped. simpl. apply DM_access_sound, Hs.
  - rewrite access_FullyAssociative. simpl. apply FA_access_sound, Hs.
Qed.

Lemma run_from_invariant (P : Cache -> list (result Response) -> Prop) :
  (forall c h q, P c h -> P (fst (serve q c)) (snd (serve q c) :: h)) ->
  forall qs c h, P c h -> P (fst (run_from c h qs)) (snd (run_from c h qs)).
Proof.
  intros Hstep qs. induction qs as [|q qs IH]; intros c h H; simpl; [exact H|].
  destruct (serve q c) as [c' r] eqn:E. apply IH.
  specialize (Hstep c h q H). rewrite E in Hstep. exact Hstep.
Qed.

Lemma run_sound (c : Cache) (qs : list Request) :
  sound c [] -> sound (fst (run c qs)) (snd (run c qs)).
Proof. apply (run_from_invariant sound). intros. now apply serve_sound. Qed.

Lemma reachable_sound (c : Cache) :
  reachable c -> exists h, sound c h.
Proof.
  intros (cs & bs & ct & wp & c0 & qs & Hc & ->).
  eexists. apply run_sound. eapply construct_sound, Hc.
Qed.

(** ** The counters along a call *)





Lemma construct_scenario_direct_mapped (wp : string) :
  construct 16 4 "direct-mapped" wp = Ok (scenario_direct_mapped wp).
Proof. reflexivity. Qed.

Lemma construct_scenario_fully_associative (wp : string) :
  construct 16 4 "fully-associative" wp = Ok (scenario_fully_associative wp).
Proof. reflexivity. Qed.

(** * The claims *)

(** ** C4: one access, one count *)



(** ** C2: the statistics exposed *)


(** The ratios the source rounds: a third of the accesses shows as 33.33,
    the double nearest to that decimal. *)
#[local] Set Warnings "-inexact-float".
Example hit_ratio_one_third :
  CacheSimulator.hit_ratio
    (CacheSimulator.get_statistics (CacheSimulator.mk 16 4 4 "write-back" 2 3 1 2 2 0))
  = PyFloat 33.33.
Proof. vm_compute. reflexivity. Qed.



(** ** C8: the write-through scenario *)

(** C8.  The direct-mapped, write-through cache of 16 bytes in blocks of 4
    bytes, written at 0, 4, 8, 12, 0, 4, 8, 12: four misses, then four hits;
    the statistics end with 4 misses, 4 hits, 8 memory writes and 4 memory
    reads. *)
Theorem scenario_write_through_writes :
  construct 16 4 "direct-mapped" "write-through"
  = Ok (scenario_direct_mapped "write-through")
  /\ (let outcome :=
        run (scenario_direct_mapped "write-through")
          (map write [0; 4; 8; 12; 0; 4; 8; 12]) in
      map hit_of (rev (snd outcome))
      = [Some false; Some false; Some false; Some false;
         Some true; Some true; Some true; Some true]
      /\ CacheSimulator.stat_misses (get_statistics (fst outcome)) = 4
      /\ CacheSimulator.stat_hits (get_statistics (fst outcome)) = 4
      /\ CacheSimulator.stat_memory_writes (get_statistics (fst outcome)) = 8
      /\ CacheSimulator.stat_memory_reads (get_statistics (fst outcome)) = 4).
Proof.
  split; [reflexivity|]. cbv zeta. repeat split; vm_compute; reflexivity.
Qed.

(** ** C7: address decomposition *)

Lemma serve_field_bits (c : Cache) (h : list (result Response)) (q : Request) :
  sound c h -> field_bits (fst (serve q c)) = field_bits c.
Proof.
  unfold serve. destruct c as [d|f]; intros Hs; cbn [sound] in Hs.
  - rewrite access_DirectMapped.
    destruct (DM_access_spec d (q_address q) (q_operation q) (q_data q) Hs)
      as (line & resp & _ & Hacc & _).
    cbv zeta in Hacc. rewrite Hacc. reflexivity.
  - rewrite access_FullyAssociative.
    destruct Hs as (_ & Hnd & _).
    pose proof (FA_access_cases f (q_address q) (q_operation q) (q_data q) Hnd) as Hcase.
    inversion Hcase; reflexivity.
Qed.


Lemma construct_field_bits (cs bs : Z) (ct wp : string) (c : Cache) :
  construct cs bs ct wp = Ok c ->
  field_bits c = (Z.log2 bs,
                  match c with
                  | DirectMapped _ => Some (Z.log2 (cs / bs))
                  | FullyAssociative _ => None
                  end).
Proof.
  intros H. destruct (construct_inv _ _ _ _ _ H) as [(d & -> & _ & Hd)|(f & -> & _ & Hf)].
  - apply DM_init_inv in Hd as (_ & _ & ->). reflexivity.
  - apply FA_init_inv in Hf as (_ & ->). reflexivity.
Qed.

Lemma run_variant (c : Cache) (qs : list Request) :
  is_direct_mapped (fst (run c qs)) = is_direct_mapped c.
Proof.
  apply (run_from_invariant (fun c' _ => is_direct_mapped c' = is_direct_mapped c));
    [|reflexivity].
  intros c' h q <-. unfold serve. destruct c'.
  - now rewrite access_DirectMapped.
  - now rewrite access_FullyAssociative.
Qed.




(** The fields of address 57 in the 16-byte direct-mapped cache. *)
Example decompose_57 :
  match scenario_direct_mapped "write-back" with
  | DirectMapped d => DirectMappedCache.decompose_address d 57 = (3, 2, 1)
  | FullyAssociative _ => False
  end.
Proof. reflexivity. Qed.

(** ** C1: what the constructors reject *)

(** C1, counterexample.  A cache size of 15 with blocks of 4 bytes breaks the
    invariants (3 lines, and 15 is no multiple of 4), yet both constructors
    return an instance, with 3 lines, and [create_cache] installs it and
    reports success. *)
Lemma construct_15_4_returns_an_instance :
  config_invariants 15 4 = false
  /\ construct 15 4 "direct-mapped" "write-back"
     = Ok (DirectMapped
             (DirectMappedCache.mk (CacheSimulator.mk 15 4 3 "write-back" 2 0 0 0 0 0)
                1 29 [CacheBlock_new; CacheBlock_new; CacheBlock_new]))
  /\ construct 15 4 "fully-associative" "write-back"
     = Ok (FullyAssociative
             (FullyAssociativeCache.mk (CacheSimulator.mk 15 4 3 "write-back" 2 0 0 0 0 0)
                30 [(0, CacheBlock_new); (1, CacheBlock_new); (2, CacheBlock_new)]))
  /\ snd (create_cache None 15 4 "direct-mapped" "write-back") = true
  /\ fst (create_cache None 15 4 "direct-mapped" "write-back") <> None.
Proof.
  repeat split; try reflexivity. simpl. discriminate.
Qed.

(** The constructors raise exactly on a block size that is not positive and,
    for the direct-mapped engine, on a line count that is not positive. *)
Lemma construct_raises_iff (cs bs : Z) (ct wp : string) :
  (exists e, construct cs bs ct wp = Raise e)
  <-> bs <= 0 \/ ((ct =? "direct-mapped")%string = true /\ cs / bs <= 0).
Proof.
  unfold construct, DirectMappedCache.__init__, FullyAssociativeCache.__init__,
    CacheSimulator.__init__, py_floordiv, int_log2.
  destruct (bs =? 0) eqn:E0; destruct (bs <=? 0) eqn:E1;
    destruct (ct =? "direct-mapped")%string eqn:Ect; simpl;
    try destruct (cs / bs <=? 0) eqn:E2;
    split; intros H; try lia; eauto;
    try (destruct H as [e H]; discriminate H);
    try (left; lia); try (right; split; [reflexivity|lia]);
    destruct H as [H|[H1 H2]]; try lia; try discriminate H1.
Qed.

Lemma config_invariants_positive (cs bs : Z) :
  config_invariants cs bs = true -> 0 < bs /\ 0 < cs / bs.
Proof.
  unfold config_invariants, is_power_of_two. intros H.
  repeat (apply andb_prop in H as [H ?]).
  repeat match goal with
         | E : (_ && _) = true |- _ => apply andb_prop in E as [? ?]
         end.
  split; apply Z.ltb_lt; assumption.
Qed.

(** C1, amended.  Construction raises, and produces no instance, when the
    block size is zero ([ZeroDivisionError]) or negative ([ValueError]) and,
    for the direct-mapped engine, when [cache_size // block_size] is not
    positive ([ValueError]), which covers a non-positive total size and a
    block size above the total size.  The exception is a built-in one; on any
    exception [create_cache] reports failure and leaves the active cache as
    it was.  Every configuration that meets the invariants constructs a fresh
    instance, which [create_cache] installs. *)
Theorem construct_rejects (active_cache : option Cache) (cache_size block_size : Z)
  (cache_type write_policy : string) :
  (block_size = 0 ->
   construct cache_size block_size cache_type write_policy = Raise ZeroDivisionError)
  /\ (block_size < 0 ->
      construct cache_size block_size cache_type write_policy = Raise ValueError)
  /\ (0 < block_size -> cache_size / block_size <= 0 ->
      construct cache_size block_size "direct-mapped" write_policy = Raise ValueError)
  /\ (forall e,
        construct cache_size block_size cache_type write_policy = Raise e ->
        create_cache active_cache cache_size block_size cache_type write_policy
        = (active_cache, false))
  /\ (config_invariants cache_size block_size = true ->
      exists c,
        construct cache_size block_size cache_type write_policy = Ok c
        /\ fresh c
        /\ create_cache active_cache cache_size block_size cache_type write_policy
           = (Some c, true)).
Proof.
  split; [|split; [|split; [|split]]].
  - intros ->. unfold construct, DirectMappedCache.__init__,
      FullyAssociativeCache.__init__, CacheSimulator.__init__, py_floordiv.
    simpl. destruct (cache_type =? "direct-mapped")%string; reflexivity.
  - intros H. unfold construct, DirectMappedCache.__init__,
      FullyAssociativeCache.__init__, CacheSimulator.__init__, py_floordiv, int_log2.
    replace (block_size =? 0) with false by (symmetry; apply Z.eqb_neq; lia).
    replace (block_size <=? 0) with true by (symmetry; apply Z.leb_le; lia).
    destruct (cache_type =? "direct-mapped")%string; reflexivity.
  - intros H1 H2. unfold construct, DirectMappedCache.__init__,
      CacheSimulator.__init__, py_floordiv, int_log2. simpl.
    replace (block_size =? 0) with false by (symmetry; apply Z.eqb_neq; lia).
    replace (block_size <=? 0) with false by (symmetry; apply Z.leb_gt; lia).
    simpl.
    replace (cache_size / block_size <=? 0) with true by (symmetry; apply Z.leb_le; lia).
    reflexivity.
  - intros e H. unfold create_cache. rewrite H. reflexivity.
  - intros H. apply config_invariants_positive in H as [Hbs Hnb].
    destruct (construct cache_size block_size cache_type write_policy) as [c|e] eqn:E.
    + exists c. split; [reflexivity|]. split; [eapply construct_fresh, E|].
      unfold create_cache. rewrite E. reflexivity.
    + exfalso.
      assert (Hr : exists e, construct cache_size block_size cache_type write_policy
                             = Raise e) by eauto.
      apply construct_raises_iff in Hr. lia.
Qed.

(** The valid configuration of the scenarios meets the invariants, and the
    three failing shapes occur. *)
Example construct_rejects_examples :
  config_invariants 16 4 = true
  /\ construct 16 0 "direct-mapped" "write-back" = Raise ZeroDivisionError
  /\ construct 16 (-4) "fully-associative" "write-back" = Raise ValueError
  /\ construct 2 4 "direct-mapped" "write-back" = Raise ValueError
  /\ construct (-16) 4 "direct-mapped" "write-back" = Raise ValueError.
Proof. repeat split; reflexivity. Qed.

(** ** C6: write-through keeps every line clean *)

Lemma written_block_clean (line : CacheBlock) (a : Z) (data : option Z) :
  dirty (written_block line a data "write-through") = 0.
Proof. reflexivity. Qed.

Lemma filled_block_clean (tg a : Z) (op : string) (data : option Z) :
  dirty (filled_block tg a op data "write-through") = 0.
Proof. unfold filled_block. simpl. destruct (op =? "write")%string; reflexivity. Qed.

Lemma serve_clean (c : Cache) (h : list (result Response)) (q : Request) :
  sound c h ->
  CacheSimulator.write_policy (base c) = "write-through"%string ->
  Forall (fun b => dirty b = 0) (lines c) ->
  CacheSimulator.write_policy (base (fst (serve q c))) = "write-through"%string
  /\ Forall (fun b => dirty b = 0) (lines (fst (serve q c))).
Proof.
  unfold serve. destruct c as [d|f]; intros Hs Hwp Hclean; cbn [sound base lines] in *.
  - rewrite access_DirectMapped.
    destruct (DM_access_spec d (q_address q) (q_operation q) (q_data q) Hs)
      as (line & resp & Hline & Hacc & _).
    cbv zeta in Hacc. rewrite Hacc. cbn [fst base lines DirectMappedCache.base
                                         DirectMappedCache.cache].
    split; [exact Hwp|].
    unfold DirectMappedCache.write_policy. rewrite Hwp.
    repeat match goal with |- context [if ?b then _ else _] => destruct b end;
      try assumption; apply py_mutate_Forall; try assumption.
    + apply written_block_clean.
    + apply filled_block_clean.
  - rewrite access_FullyAssociative.
    destruct Hs as (_ & Hnd & _).
    pose proof (FA_access_cases f (q_address q) (q_operation q) (q_data q) Hnd) as Hcase.
    unfold FullyAssociativeCache.write_policy in Hcase.
    inversion Hcase as [k line resp tg Hfind Hget Hv Ht Hh Hev Hwb Haff Hnum Heq
                       |k line resp tg Hfind Hempty Hget Hv Hh Hev Hwb Haff Hnum Heq
                       |k line rest resp tg wb Hfind Hempty Hcache Hh Hev Hwb Haff Hnum Heq
                       |Hcache Heq];
      cbn [fst base lines FullyAssociativeCache.base FullyAssociativeCache.cache
           FullyAssociativeCache.on_base];
      (split; [exact Hwp|]);
      unfold FullyAssociativeCache.write_policy; rewrite ?Hwp.
    + rewrite od_values_app. apply Forall_app. split; [apply od_remove_values, Hclean|].
      constructor; [|constructor]. cbn [snd].
      destruct (q_operation q =? "write")%string; [apply written_block_clean|].
      apply od_getitem_In, In_values in Hget. rewrite Forall_forall in Hclean. auto.
    + rewrite od_values_app. apply Forall_app. split; [apply od_remove_values, Hclean|].
      constructor; [cbn [snd]; apply filled_block_clean|constructor].
    + rewrite od_values_app. apply Forall_app. split.
      * rewrite Hcache in Hclean. simpl in Hclean. now inversion Hclean.
      * constructor; [cbn [snd]; apply filled_block_clean|constructor].
    + exact Hclean.
Qed.

(** C6.  A cache of either engine constructed with the write-through policy
    has no dirty line after any sequence of accesses, whatever the addresses,
    operations and data. *)
Theorem write_through_never_dirty (cache_size block_size : Z) (cache_type : string)
  (c0 : Cache) (qs : list Request) :
  construct cache_size block_size cache_type "write-through" = Ok c0 ->
  Forall (fun b => dirty b = 0) (lines (fst (run c0 qs))).
Proof.
  intros Hc.
  apply (run_from_invariant
           (fun c h => sound c h
                       /\ CacheSimulator.write_policy (base c) = "write-through"%string
                       /\ Forall (fun b => dirty b = 0) (lines c))).
  - intros c h q (Hs & Hwp & Hclean). split; [apply serve_sound, Hs|].
    eapply serve_clean; eassumption.
  - split; [eapply construct_sound, Hc|].
    destruct (construct_fresh _ _ _ _ _ Hc) as (Hnew & _).
    split.
    + destruct (construct_inv _ _ _ _ _ Hc) as [(d & -> & _ & Hd)|(f & -> & _ & Hf)].
      * apply DM_init_inv in Hd as (_ & _ & ->). reflexivity.
      * apply FA_init_inv in Hf as (_ & ->). reflexivity.
    + eapply Forall_impl; [|exact Hnew]. intros b ->. reflexivity.
Qed.

Lemma write_through_never_dirty_witness :
  construct 16 4 "fully-associative" "write-through"
  = Ok (scenario_fully_associative "write-through")
  /\ Forall (fun b => dirty b = 0)
       (lines (fst (run (scenario_fully_associative "write-through")
                      [write 0; write 16; write 0; read 32; write 48; write 64]))).
Proof.
  split; [reflexivity|].
  apply (write_through_never_dirty 16 4 "fully-associative").
  reflexivity.
Defined.

(** ** C5: when an eviction writes to memory *)

(** C5.  On every call, on either engine, that misses and whose target line
    [l] was valid before the call: the response records an eviction; it
    records a dirty write-back exactly when the policy is write-back and the
    victim was dirty; the call adds to [memory_writes] one for that write-back
    and, apart from it, only the one of a write under write-through.  Under
    write-through the eviction therefore adds nothing, whatever the dirty bit
    of the victim. *)
Theorem eviction_writes_back_iff_dirty (c c' : Cache) (address : Z) (operation : string)
  (data : option Z) (resp : Response) (l : Z) (victim : CacheBlock) :
  reachable c ->
  access address operation data c = (c', Ok resp) ->
  hit resp = false ->
  affected_line resp = Some l ->
  line_at c l = Some victim ->
  valid victim = 1 ->
  eviction resp = true
  /\ (dirty_writeback resp = true
      <-> CacheSimulator.write_policy (base c) = "write-back"%string /\ dirty victim = 1)
  /\ CacheSimulator.memory_writes (base c')
     = CacheSimulator.memory_writes (base c)
       + b2z (dirty_writeback resp)
       + b2z ((operation =? "write")%string
              && (CacheSimulator.write_policy (base c) =? "write-through")%string)
  /\ (CacheSimulator.write_policy (base c) = "write-through"%string ->
      dirty_writeback resp = false).
Proof.
  intros Hr Hacc Hmiss Haff Hline Hvalid.
  destruct (reachable_sound c Hr) as [h Hs].
  assert (Hiff : forall wp d,
             (wp =? "write-back")%string && (d =? 1) = true
             <-> wp = "write-back"%string /\ d = 1).
  { intros wp d. rewrite andb_true_iff, String.eqb_eq, Z.eqb_eq. tauto. }
  destruct c as [d|f]; cbn [sound base line_at] in *.
  - rewrite access_DirectMapped in Hacc.
    destruct (DM_access_spec d address operation data Hs)
      as (line & resp' & Hget & Hspec & Hh & Hev & Hwb & Hal & _).
    cbv zeta in Hspec, Hh, Hev, Hwb. rewrite Hspec in Hacc.
    cbn [fst snd] in Hacc. injection Hacc as <- <-.
    rewrite Hal in Haff. injection Haff as <-.
    rewrite Hget in Hline. injection Hline as <-.
    rewrite Hmiss in Hh. rewrite <- Hh in *.
    replace (valid line =? 1) with true in * by (symmetry; apply Z.eqb_eq, Hvalid).
    cbn [negb andb] in *. unfold DirectMappedCache.write_policy in *.
    split; [exact Hev|]. split; [rewrite Hwb; apply Hiff|].
    split; [rewrite Hwb; reflexivity|].
    intros Hwt. rewrite Hwb, Hwt. reflexivity.
  - rewrite access_FullyAssociative in Hacc.
    destruct Hs as (_ & Hnd & _).
    pose proof (FA_access_cases f address operation data Hnd) as Hcase.
    unfold FullyAssociativeCache.write_policy in Hcase.
    destruct (FullyAssociativeCache.access address operation data f) as [f' r].
    cbn [fst snd] in Hacc. injection Hacc as <- ->.
    inversion Hcase as [k line resp' tg Hfind Hget Hv Ht Hh Hev Hwb Hal Hnum
                       |k line resp' tg Hfind Hempty Hget Hv Hh Hev Hwb Hal Hnum
                       |k line rest resp' tg wb Hfind Hempty Hcache Hh Hev Hwb Hal Hnum
                       |Hcache]; subst.
    + congruence.
    + rewrite Hal in Haff. injection Haff as <-.
      rewrite Hget in Hline. injection Hline as <-. lia.
    + rewrite Hal in Haff. injection Haff as <-.
      rewrite Hcache in Hline. simpl in Hline. rewrite Z.eqb_refl in Hline.
      injection Hline as <-.
      cbn [base FullyAssociativeCache.base].
      subst wb. unfold FullyAssociativeCache.write_policy in Hwb.
      split; [exact Hev|]. split; [rewrite Hwb; apply Hiff|].
      split; [rewrite Hwb; reflexivity|].
      intros Hwt. rewrite Hwb, Hwt. reflexivity.
Qed.

Lemma eviction_writes_back_iff_dirty_witness :
  let c := fst (run (scenario_direct_mapped "write-back") [write 0]) in
  let outcome := access 16 "read" None c in
  reachable c
  /\ (exists resp victim,
        outcome = (fst outcome, Ok resp)
        /\ line_at c 0 = Some victim
        /\ dirty victim = 1
        /\ dirty_writeback resp = true
        /\ CacheSimulator.memory_writes (base (fst outcome))
           = CacheSimulator.memory_writes (base c) + 1).
Proof.
  cbv zeta.
  assert (H : reachable (fst (run (scenario_direct_mapped "write-back") [write 0]))).
  { exists 16, 4, "direct-mapped"%string, "write-back"%string,
      (scenario_direct_mapped "write-back"), [write 0].
    split; reflexivity. }
  split; [exact H|].
  eexists _, _.
  split; [reflexivity|]. split; [reflexivity|]. split; [reflexivity|].
  split; [reflexivity|].
  exact (proj1 (proj2 (proj2
           (eviction_writes_back_iff_dirty _ _ 16 "read"%string None _ 0 _
              H eq_refl eq_refl eq_refl eq_refl eq_refl)))).
Defined.

(** ** C9: access returns normally *)





(** An engine without lines, which the fully associative constructor builds
    when the block size exceeds the cache size, raises on every access. *)
Example access_without_lines :
  exists c, construct 2 4 "fully-associative" "write-back" = Ok c
            /\ snd (access 0 "read" None c) = Raise StopIteration.
Proof. eexists. split; reflexivity. Qed.

(** ** C3: the victim of the LRU policy *)

Lemma FA_init_construct (cs bs : Z) (wp : string) (f0 : FullyAssociativeCache.t) :
  FullyAssociativeCache.__init__ cs bs wp = Ok f0 ->
  construct cs bs "fully-associative" wp = Ok (FullyAssociative f0).
Proof. intros H. unfold construct. simpl. rewrite H. reflexivity. Qed.

(** C3.  Take a fully associative cache as its constructor returned it, any
    sequence of calls on it, and one more call that misses while no line is
    invalid.  The line this call evicts and fills is a valid line, and it has
    gone strictly longer without a touch (a hit on it or a fill of it) than
    every other valid line: it is the least recently touched one. *)
Theorem lru_evicts_least_recently_touched (cache_size block_size : Z)
  (write_policy : string) (f0 : FullyAssociativeCache.t) (qs : list Request)
  (address : Z) (operation : string) (data : option Z) (c' : Cache) (resp : Response) :
  FullyAssociativeCache.__init__ cache_size block_size write_policy = Ok f0 ->
  let c := fst (run (FullyAssociative f0) qs) in
  let history := snd (run (FullyAssociative f0) qs) in
  access address operation data c = (c', Ok resp) ->
  hit resp = false ->
  Forall (fun b => valid b <> 0) (lines c) ->
  exists victim line,
    affected_line resp = Some victim
    /\ eviction resp = true
    /\ line_at c victim = Some line
    /\ valid line = 1
    /\ forall other b,
         other <> victim -> line_at c other = Some b -> valid b = 1 ->
         older history victim other.
Proof.
  intros Hinit c history Hacc Hmiss Hfull. subst c history.
  apply FA_init_construct in Hinit.
  pose proof (run_sound _ qs (construct_sound _ _ _ _ _ Hinit)) as Hs.
  pose proof (run_variant (FullyAssociative f0) qs) as Hvar.
  destruct (fst (run (FullyAssociative f0) qs)) as [d|f]; [discriminate Hvar|].
  set (history := snd (run (FullyAssociative f0) qs)) in *.
  cbn [sound lines line_at] in *.
  destruct Hs as (_ & Hnd & empty & resident & Hsplit & He & Hr & Hkeys).
  assert (Hempty : empty = []).
  { destruct empty as [|[e b] rest]; [reflexivity|].
    rewrite Hsplit in Hfull. simpl in Hfull.
    inversion Hfull; subst. inversion He; subst. simpl in *. lia. }
  subst empty. simpl in Hsplit.
  rewrite access_FullyAssociative in Hacc.
  pose proof (FA_access_cases f address operation data Hnd) as Hcase.
  destruct (FullyAssociativeCache.access address operation data f) as [f' r].
  cbn [fst snd] in Hacc. injection Hacc as <- ->.
  inversion Hcase as [k line resp' tg Hfind Hget Hv Ht Hh Hev Hwb Hal Hnum
                     |k line resp' tg Hfind Hfe Hget Hv Hh Hev Hwb Hal Hnum
                     |k line rest resp' tg wb Hfind Hfe Hcache Hh Hev Hwb Hal Hnum
                     |Hcache]; subst.
  - congruence.
  - apply od_getitem_In, In_values in Hget.
    rewrite Forall_forall in Hfull. apply Hfull in Hget. lia.
  - exists k, line. rewrite Hcache in *.
    split; [exact Hal|]. split; [exact Hev|].
    split; [simpl; now rewrite Z.eqb_refl|].
    split; [now inversion Hr|].
    intros other b Hne Hget _.
    simpl in Hget.
    replace (k =? other) with false in Hget by (symmetry; apply Z.eqb_neq; congruence).
    apply od_getitem_In, In_keys in Hget.
    pose proof (lru_order_sorted history) as Hsorted.
    rewrite <- Hkeys in Hsorted. simpl in Hsorted.
    apply StronglySorted_inv in Hsorted as [_ Hall].
    rewrite Forall_forall in Hall. apply Hall, Hget.
Qed.

Lemma lru_evicts_least_recently_touched_witness :
  let qs := [read 0; read 16; read 32; read 48; read 0; read 16] in
  let c := fst (run (scenario_fully_associative "write-back") qs) in
  let history := snd (run (scenario_fully_associative "write-back") qs) in
  Forall (fun b => valid b <> 0) (lines c)
  /\ hit_of (snd (access 64 "read" None c)) = Some false
  /\ exists victim line,
       line_at c victim = Some line
       /\ valid line = 1
       /\ forall other b,
            other <> victim -> line_at c other = Some b -> valid b = 1 ->
            older history victim other.
Proof.
  cbv zeta.
  assert (Hfull : Forall (fun b => valid b <> 0)
                    (lines (fst (run (scenario_fully_associative "write-back")
                                   [read 0; read 16; read 32; read 48; read 0; read 16])))).
  { vm_compute. repeat constructor; discriminate. }
  assert (Hacc : exists c' resp,
             access 64 "read" None
               (fst (run (scenario_fully_associative "write-back")
                       [read 0; read 16; read 32; read 48; read 0; read 16]))
             = (c', Ok resp)
             /\ hit resp = false).
  { vm_compute. eexists _, _. split; reflexivity. }
  split; [exact Hfull|]. split; [vm_compute; reflexivity|].
  destruct Hacc as (c' & resp & Hacc & Hmiss).
  destruct (lru_evicts_least_recently_touched 16 4 "write-back"
              (FullyAssociativeCache.mk (CacheSimulator.mk 16 4 4 "write-back" 2 0 0 0 0 0)
                 30 [(0, CacheBlock_new); (1, CacheBlock_new); (2, CacheBlock_new);
                     (3, CacheBlock_new)])
              [read 0; read 16; read 32; read 48; read 0; read 16]
              64 "read"%string None c' resp eq_refl Hacc Hmiss Hfull)
    as (victim & line & _ & _ & Hline & Hvalid & Holder).
  exists victim, line. split; [exact Hline|]. split; [exact Hvalid|exact Holder].
Defined.

(** ** C10: an operation other than ["write"] is served as a read *)

Lemma od_getitem_snoc_other (d : OrderedDict.t) (k l : Z) (v : CacheBlock) :
  l <> k -> OrderedDict.getitem (d ++ [(k, v)]) l = OrderedDict.getitem d l.
Proof.
  intros Hne. induction d as [|[k' v'] rest IH]; simpl.
  - replace (k =? l) with false by (symmetry; apply Z.eqb_neq; congruence).
    reflexivity.
  - destruct (k' =? l); [reflexivity|exact IH].
Qed.

Lemma od_getitem_remove_other (d : OrderedDict.t) (k l : Z) :
  l <> k -> OrderedDict.getitem (OrderedDict.remove d k) l = OrderedDict.getitem d l.
Proof.
  intros Hne. induction d as [|[k' v'] rest IH]; simpl; [reflexivity|].
  destruct (k' =? k) eqn:Ek; simpl.
  - apply Z.eqb_eq in Ek. subst k'.
    replace (k =? l) with false by (symmetry; apply Z.eqb_neq; congruence).
    reflexivity.
  - destruct (k' =? l); [reflexivity|exact IH].
Qed.

(** Moving a line to the recent end changes no line. *)
Lemma od_getitem_moved_same (d : OrderedDict.t) (k l : Z) (v : CacheBlock) :
  NoDup (OrderedDict.keys d) ->
  OrderedDict.getitem d k = Some v ->
  OrderedDict.getitem (OrderedDict.remove d k ++ [(k, v)]) l = OrderedDict.getitem d l.
Proof.
  intros Hnd Hget. destruct (Z.eq_dec l k) as [->|Hne].
  - rewrite od_getitem_moved by exact Hnd. now rewrite Hget.
  - rewrite od_getitem_snoc_other by exact Hne.
    apply od_getitem_remove_other, Hne.
Qed.

Lemma filled_block_read (tg a : Z) (op : string) (data : option Z) (wp : string) :
  (op =? "write")%string = false ->
  filled_block tg a op data wp = mkCacheBlock 1 (Some tg) (Some (payload a data)) 0.
Proof. intros E. unfold filled_block. rewrite E. reflexivity. Qed.

Lemma counted_read (s : CacheSimulator.t) (is_hit wb : bool) (op : string) :
  (op =? "write")%string = false ->
  counted s is_hit wb op = counted s is_hit wb "read".
Proof. intros E. unfold counted. rewrite E. reflexivity. Qed.

Lemma counted_memory_writes_read (s : CacheSimulator.t) (is_hit wb : bool) (op : string) :
  (op =? "write")%string = false ->
  CacheSimulator.memory_writes (counted s is_hit wb op)
  = CacheSimulator.memory_writes s + b2z wb.
Proof. intros E. unfold counted. rewrite E. simpl. lia. Qed.

(** What a call with an operation other than ["write"] does to a sound
    cache. *)
Lemma read_like_effect (c : Cache) (h : list (result Response)) (address : Z)
  (op : string) (data : option Z) :
  sound c h ->
  (op =? "write")%string = false ->
  let c' := fst (access address op data c) in
  forall resp, snd (access address op data c) = Ok resp ->
    (hit resp = true ->
     (forall l, line_at c' l = line_at c l)
     /\ CacheSimulator.memory_writes (base c') = CacheSimulator.memory_writes (base c))
    /\ (hit resp = false ->
        exists l b,
          affected_line resp = Some l
          /\ line_at c' l = Some b
          /\ valid b = 1 /\ dirty b = 0
          /\ CacheSimulator.memory_writes (base c')
             = CacheSimulator.memory_writes (base c) + b2z (dirty_writeback resp)).
Proof.
  intros Hs Eop. cbv zeta.
  destruct c as [d|f]; cbn [sound] in Hs.
  - rewrite access_DirectMapped.
    destruct (DM_access_spec d address op data Hs)
      as (line & resp' & Hget & Hspec & Hh & Hev & Hwb & Hal & _).
    cbv zeta in Hspec, Hh, Hev, Hwb. rewrite Hspec. cbn [fst snd].
    intros resp [= <-]. rewrite Eop, filled_block_read by exact Eop.
    cbn [base line_at DirectMappedCache.base DirectMappedCache.cache].
    rewrite counted_memory_writes_read by exact Eop.
    rewrite Hh, Hwb. split; intros ->; cbn [negb andb b2z].
    + split; [reflexivity|lia].
    + eexists _, _. split; [exact Hal|].
      split; [eapply py_getitem_mutate_same, Hget|].
      split; [reflexivity|]. split; reflexivity.
  - rewrite access_FullyAssociative.
    destruct Hs as (_ & Hnd & _).
    pose proof (FA_access_cases f address op data Hnd) as Hcase.
    destruct (FullyAssociativeCache.access address op data f) as [f' r].
    cbn [fst snd]. intros resp ->.
    inversion Hcase as [k line resp' tg Hfind Hget Hv Ht Hh Hev Hwb Hal Hnum
                       |k line resp' tg Hfind Hfe Hget Hv Hh Hev Hwb Hal Hnum
                       |k line rest resp' tg wb Hfind Hfe Hcache Hh Hev Hwb Hal Hnum
                       |Hcache];
      subst; cbn [base line_at FullyAssociativeCache.base FullyAssociativeCache.cache];
      rewrite counted_memory_writes_read by exact Eop;
      rewrite ?Eop, ?filled_block_read by exact Eop;
      (split; [intros Hhit|intros Hmiss]; try congruence).
    + split; [|simpl; lia].
      intros l. apply od_getitem_moved_same; assumption.
    + eexists _, _. split; [exact Hal|].
      split; [apply od_getitem_moved, Hnd|].
      rewrite Hwb. split; [reflexivity|]. split; [reflexivity|simpl; lia].
    + eexists _, _. split; [exact Hal|].
      assert (Hrm : rest = OrderedDict.remove (FullyAssociativeCache.cache f) k)
        by (rewrite Hcache; simpl; now rewrite Z.eqb_refl).
      split; [rewrite Hrm; apply od_getitem_moved, Hnd|].
      split; [reflexivity|]. split; [reflexivity|].
      rewrite Hwb. reflexivity.
Qed.

(** The state a call leaves, and whether it hits, depend on the operation
    only through the test [operation == 'write']. *)
Lemma access_read_like (c : Cache) (h : list (result Response)) (address : Z)
  (op : string) (data : option Z) :
  sound c h ->
  (op =? "write")%string = false ->
  fst (access address op data c) = fst (access address "read" data c)
  /\ hit_of (snd (access address op data c))
     = hit_of (snd (access address "read" data c)).
Proof.
  intros Hs Eop.
  destruct c as [d|f]; cbn [sound] in Hs.
  - rewrite !access_DirectMapped.
    destruct (DM_access_spec d address op data Hs)
      as (line & resp & Hget & Hspec & Hh & _).
    destruct (DM_access_spec d address "read" data Hs)
      as (line' & resp' & Hget' & Hspec' & Hh' & _).
    cbv zeta in Hspec, Hspec', Hh, Hh'.
    rewrite Hget in Hget'. injection Hget' as <-.
    rewrite Hspec, Hspec'. cbn [fst snd hit_of]. rewrite Hh, Hh'.
    split; [|reflexivity].
    rewrite Eop, (counted_read _ _ _ op Eop), (filled_block_read _ _ op) by exact Eop.
    rewrite filled_block_read by reflexivity.
    reflexivity.
  - rewrite !access_FullyAssociative.
    destruct Hs as (_ & Hnd & _).
    pose proof (FA_access_cases f address op data Hnd) as H1.
    pose proof (FA_access_cases f address "read" data Hnd) as H2.
    destruct (FullyAssociativeCache.access address op data f) as [f1 r1].
    destruct (FullyAssociativeCache.access address "read" data f) as [f2 r2].
    cbn [fst snd].
    inversion H1 as [k line resp tg Hfind Hget Hv Ht Hh Hev Hwb Hal Hnum
                    |k line resp tg Hfind Hfe Hget Hv Hh Hev Hwb Hal Hnum
                    |k line rest resp tg wb Hfind Hfe Hcache Hh Hev Hwb Hal Hnum
                    |Hcache];
      inversion H2 as [k' line' resp' tg' Hfind' Hget' Hv' Ht' Hh' Hev' Hwb' Hal' Hnum'
                      |k' line' resp' tg' Hfind' Hfe' Hget' Hv' Hh' Hev' Hwb' Hal' Hnum'
                      |k' line' rest' resp' tg' wb' Hfind' Hfe' Hcache' Hh' Hev' Hwb' Hal' Hnum'
                      |Hcache'];
      subst; repeat match goal with x := _ |- _ => subst x end; try congruence;
      try (match goal with
           | Hc : FullyAssociativeCache.cache f = [] |- _ =>
               rewrite Hc in *; simpl in *; discriminate
           end);
      cbn [hit_of];
      rewrite ?Eop, ?(counted_read _ _ _ op Eop), ?(filled_block_read _ _ op) by exact Eop;
      rewrite ?filled_block_read by reflexivity.
    + rewrite Hfind in Hfind'. injection Hfind' as <-.
      rewrite Hget in Hget'. injection Hget' as <-.
      rewrite Hh, Hh'. split; reflexivity.
    + rewrite Hfe in Hfe'. injection Hfe' as <-.
      rewrite Hh, Hh'. split; reflexivity.
    + rewrite Hcache in Hcache'. injection Hcache' as <- <- <-.
      rewrite Hh, Hh'. split; reflexivity.
    + split; reflexivity.
Qed.

(** C10.  On every reachable cache of either engine, a call whose operation
    is any string other than ['write'] leaves exactly the state a read of the
    same address and data leaves, and hits, misses or raises as that read
    does: the string is not validated.  When the call hits, no line changes
    and [memory_writes] stays; when it misses, the line it installs is clean
    and [memory_writes] grows only by the write-back of a dirty victim, never
    by a write-through write. *)
Theorem other_operation_is_read (c : Cache) (address : Z) (operation : string)
  (data : option Z) :
  reachable c ->
  operation <> "write"%string ->
  let c' := fst (access address operation data c) in
  let r := snd (access address operation data c) in
  c' = fst (access address "read" data c)
  /\ hit_of r = hit_of (snd (access address "read" data c))
  /\ forall resp,
       r = Ok resp ->
       (hit resp = true ->
        (forall l, line_at c' l = line_at c l)
        /\ CacheSimulator.memory_writes (base c')
           = CacheSimulator.memory_writes (base c))
       /\ (hit resp = false ->
           exists l b,
             affected_line resp = Some l
             /\ line_at c' l = Some b
             /\ valid b = 1 /\ dirty b = 0
             /\ CacheSimulator.memory_writes (base c')
                = CacheSimulator.memory_writes (base c) + b2z (dirty_writeback resp)).
Proof.
  intros Hr Hop. cbv zeta.
  destruct (reachable_sound c Hr) as [h Hs].
  assert (Eop : (operation =? "write")%string = false)
    by (apply String.eqb_neq, Hop).
  destruct (access_read_like c h address operation data Hs Eop) as [H1 H2].
  split; [exact H1|]. split; [exact H2|].
  apply (read_like_effect c h address operation data Hs Eop).
Qed.

Lemma other_operation_is_read_witness :
  let c := fst (run (scenario_direct_mapped "write-through") [write 0]) in
  reachable c
  /\ "WRITE"%string <> "write"%string
  /\ fst (access 0 "WRITE" (Some 9) c) = fst (access 0 "read" (Some 9) c)
  /\ hit_of (snd (access 0 "WRITE" (Some 9) c)) = Some true
  /\ CacheSimulator.memory_writes (base (fst (access 0 "WRITE" (Some 9) c)))
     = CacheSimulator.memory_writes (base c).
Proof.
  cbv zeta.
  assert (H : reachable (fst (run (scenario_direct_mapped "write-through") [write 0]))).
  { exists 16, 4, "direct-mapped"%string, "write-through"%string,
      (scenario_direct_mapped "write-through"), [write 0].
    split; reflexivity. }
  assert (Hne : "WRITE"%string <> "write"%string) by discriminate.
  split; [exact H|]. split; [exact Hne|].
  split; [exact (proj1 (other_operation_is_read _ 0 "WRITE"%string (Some 9) H Hne))|].
  split; reflexivity.
Defined.

(** * Further properties of the engines, the adapter and the console program *)

(** ** The whole response *)

Lemma DM_access_response (d : DirectMappedCache.t) (address : Z) (op : string)
  (data : option Z) :
  dm_sound d ->
  forall resp,
    snd (DirectMappedCache.access address op data d) = Ok resp ->
    let ob := CacheSimulator.offset_bits (DirectMappedCache.base d) in
    let ib := DirectMappedCache.index_bits d in
    let index := Z.land (Z.shiftr address ob) (Z.shiftl 1 ib - 1) in
    resp = mkResponse
             (CacheSimulator.total_accesses (DirectMappedCache.base d) + 1)
             address op (Z.shiftr address (ob + ib)) (Some index)
             (Z.land address (Z.shiftl 1 ob - 1))
             (trace_steps "Fetch" (hit resp) op)
             (hit resp) (eviction resp) (dirty_writeback resp) (Some index).
Proof.
  intros (Hob & Hib & Hlen & Hok).
  destruct d as [[cs bs nb wp ob t h m r w] ib tb cache].
  simpl in Hob, Hib, Hlen, Hok.
  unfold DirectMappedCache.access, DirectMappedCache.decompose_address,
    DirectMappedCache._handle_write_hit, DirectMappedCache._fetch_from_memory,
    DirectMappedCache.write_policy, trace_steps.
  reduce_methods.
  remember (Z.land (Z.shiftr address ob) (Z.shiftl 1 ib - 1)) as index eqn:Eindex.
  remember (Z.shiftr address (ob + ib)) as tg eqn:Etag.
  destruct (py_getitem_in_range cache index) as [line Hline].
  { pose proof (land_mask_range (Z.shiftr address ob) _ Hib) as Hr.
    rewrite <- Eindex in Hr. lia. }
  clear Eindex Etag.
  rewrite Hline. reduce_methods.
  destruct (valid line =? 1) eqn:Ev;
    destruct (tag_eqb line tg) eqn:Et;
    repeat (reduce_methods; rewrite ?Hline; try split_if);
    intros resp [= <-]; reflexivity.
Qed.

Lemma FA_access_response (f : FullyAssociativeCache.t) (address : Z) (op : string)
  (data : option Z) :
  NoDup (OrderedDict.keys (FullyAssociativeCache.cache f)) ->
  forall resp,
    snd (FullyAssociativeCache.access address op data f) = Ok resp ->
    let ob := CacheSimulator.offset_bits (FullyAssociativeCache.base f) in
    resp = mkResponse
             (CacheSimulator.total_accesses (FullyAssociativeCache.base f) + 1)
             address op (Z.shiftr address ob) None
             (Z.land address (Z.shiftl 1 ob - 1))
             (trace_steps "Search" (hit resp) op)
             (hit resp) (eviction resp) (dirty_writeback resp) (affected_line resp).
Proof.
  intros Hnd.
  destruct f as [[cs bs nb wp ob t h m r w] tb cache].
  simpl in Hnd.
  unfold FullyAssociativeCache.access, FullyAssociativeCache.decompose_address,
    FullyAssociativeCache._find_block, FullyAssociativeCache._find_empty_line,
    trace_steps.
  reduce_methods.
  destruct (FullyAssociativeCache.find_block_from cache (Z.shiftr address ob))
    as [k|] eqn:Efind.
  - destruct (find_block_from_Some _ _ _ Efind) as (line & Hin & Hv & Ht).
    pose proof (od_In_getitem _ _ _ Hnd Hin) as Hget.
    unfold FullyAssociativeCache._update_lru, FullyAssociativeCache._handle_write_hit,
      OrderedDict.move_to_end.
    reduce_methods. rewrite Hget. reduce_methods.
    destruct (op =? "write")%string eqn:Eop.
    + reduce_methods. rewrite (od_getitem_moved _ _ _ Hnd). reduce_methods.
      destruct (wp =? "write-through")%string eqn:Ewp; reduce_methods;
        intros resp [= <-]; reflexivity.
    + reduce_methods. intros resp [= <-]. reflexivity.
  - destruct (FullyAssociativeCache.find_empty_from cache) as [k|] eqn:Eempty.
    + destruct (find_empty_from_Some _ _ Eempty) as (line & Hin & Hv).
      pose proof (od_In_getitem _ _ _ Hnd Hin) as Hget.
      unfold FullyAssociativeCache._update_lru, FullyAssociativeCache._fetch_from_memory,
        OrderedDict.move_to_end.
      reduce_methods. rewrite Hget. reduce_methods.
      destruct (op =? "write")%string eqn:Eop;
        [destruct (wp =? "write-through")%string eqn:Ewp|];
        reduce_methods;
        rewrite (od_getitem_mutate _ _ _ _ Hget); reduce_methods;
        intros resp [= <-]; reflexivity.
    + unfold FullyAssociativeCache._evict_lru, FullyAssociativeCache._update_lru,
        FullyAssociativeCache._fetch_from_memory, OrderedDict.move_to_end,
        OrderedDict.first_key.
      reduce_methods.
      destruct cache as [|[k line] rest].
      * reduce_methods. discriminate.
      * reduce_methods.
        assert (Hget : OrderedDict.getitem ((k, line) :: rest) k = Some line)
          by (simpl; now rewrite Z.eqb_refl).
        rewrite Hget. reduce_methods.
        destruct (wp =? "write-back")%string eqn:Ewb;
          destruct (dirty line =? 1) eqn:Ed;
          (destruct (op =? "write")%string eqn:Eop;
           [destruct (wp =? "write-through")%string eqn:Ewp|]);
          reduce_methods; rewrite ?Hget; reduce_methods;
          rewrite ?Eop, ?Ewp; reduce_methods;
          rewrite (od_getitem_mutate _ _ _ _ Hget); reduce_methods;
          intros resp [= <-]; reflexivity.
Qed.

(** ** What one call does to the lines *)

Lemma tag_eqb_true (b : CacheBlock) (t : Z) : tag_eqb b t = true <-> tag b = Some t.
Proof.
  unfold tag_eqb. destruct (tag b) as [t'|]; split; intros H; try discriminate.
  - apply Z.eqb_eq in H. now subst.
  - injection H as ->. apply Z.eqb_refl.
Qed.

(** The line the call works on, before and after: [old] is the line hit, or
    the line about to be filled; [new] is what the call leaves there. *)
Lemma FA_access_effect (f : FullyAssociativeCache.t) (h : list (result Response))
  (address : Z) (op : string) (data : option Z) :
  fa_sound f h ->
  let f' := fst (FullyAssociativeCache.access address op data f) in
  let r := snd (FullyAssociativeCache.access address op data f) in
  let tg := Z.shiftr address (CacheSimulator.offset_bits (FullyAssociativeCache.base f)) in
  let wp := CacheSimulator.write_policy (FullyAssociativeCache.base f) in
  (r = Raise StopIteration
   /\ FullyAssociativeCache.cache f = []
   /\ FullyAssociativeCache.cache f' = [])
  \/ exists resp k old,
       r = Ok resp
       /\ affected_line resp = Some k
       /\ OrderedDict.getitem (FullyAssociativeCache.cache f) k = Some old
       /\ FullyAssociativeCache.cache f'
          = OrderedDict.remove (FullyAssociativeCache.cache f) k
            ++ [(k, if hit resp
                    then if (op =? "write")%string
                         then written_block old address data wp else old
                    else filled_block tg address op data wp)]
       /\ FullyAssociativeCache.base f'
          = counted (FullyAssociativeCache.base f) (hit resp) (dirty_writeback resp) op
       /\ (hit resp = true -> valid old = 1 /\ tag old = Some tg)
       /\ (hit resp = false ->
           FullyAssociativeCache.find_block_from (FullyAssociativeCache.cache f) tg = None)
       /\ eviction resp = negb (hit resp) && (valid old =? 1)
       /\ dirty_writeback resp
          = negb (hit resp) && (valid old =? 1)
            && (wp =? "write-back")%string && (dirty old =? 1).
Proof.
  intros (Hob & Hnd & empty & resident & Hsplit & He & Hr & Hkeys). cbv zeta.
  pose proof (FA_access_cases f address op data Hnd) as Hcase.
  unfold FullyAssociativeCache.write_policy in Hcase.
  inversion Hcase as [k line resp tg Hfind Hget Hv Ht Hh Hev Hwb Hal Hnum Heq
                     |k line resp tg Hfind Hfe Hget Hv Hh Hev Hwb Hal Hnum Heq
                     |k line rest resp tg wb Hfind Hfe Hcache Hh Hev Hwb Hal Hnum Heq
                     |Hcache Heq];
    cbn [fst snd FullyAssociativeCache.cache FullyAssociativeCache.base
         FullyAssociativeCache.on_base].
  - right. exists resp, k, line. rewrite Hh, Hev, Hwb.
    apply tag_eqb_true in Ht.
    repeat split; try assumption; try reflexivity; try (intros; discriminate);
      intros; split; assumption.
  - right. exists resp, k, line. rewrite Hh, Hev, Hwb.
    replace (valid line =? 1) with false by (symmetry; apply Z.eqb_neq; lia).
    repeat split; try assumption; try reflexivity; try (intros; discriminate);
      intros; assumption.
  - right. exists resp, k, line. rewrite Hh, Hev, Hwb.
    assert (Hvalid : valid line = 1).
    { rewrite Hsplit in Hfe, Hcache.
      apply find_empty_from_None in Hfe.
      destruct empty as [|[e b] rest'].
      - simpl in Hcache. rewrite Hcache in Hr. simpl in Hr. now inversion Hr.
      - inversion He; subst. simpl in Hfe. inversion Hfe; subst. simpl in *. lia. }
    replace (valid line =? 1) with true by (symmetry; apply Z.eqb_eq; assumption).
    assert (Hget : OrderedDict.getitem (FullyAssociativeCache.cache f) k = Some line)
      by (rewrite Hcache; simpl; now rewrite Z.eqb_refl).
    assert (Hrm : OrderedDict.remove (FullyAssociativeCache.cache f) k = rest)
      by (rewrite Hcache; simpl; now rewrite Z.eqb_refl).
    rewrite Hrm.
    repeat split; try assumption; try reflexivity; try (intros; discriminate).
    intros _. exact Hfind.
  - left. auto.
Qed.

Lemma list_set_nth_other {A : Type} (l : list A) (k j : nat) (v : A) :
  j <> k -> nth_error (list_set l k v) j = nth_error l j.
Proof.
  revert k j. induction l as [|x t IH]; intros [|k] [|j] H; simpl; auto;
    try congruence.
Qed.

Lemma py_getitem_mutate_other {A : Type} (l : list A) (k j : Z) (v : A) :
  0 <= k -> 0 <= j -> j <> k -> py_getitem (py_mutate l k v) j = py_getitem l j.
Proof.
  intros Hk Hj Hne. unfold py_getitem, py_mutate.
  destruct (py_index (List.length l) k) as [nk|] eqn:Ek; [|reflexivity].
  rewrite list_set_length.
  destruct (py_index (List.length l) j) as [nj|] eqn:Ej; [|reflexivity].
  apply list_set_nth_other.
  unfold py_index in Ek, Ej.
  destruct ((0 <=? k) && (k <? Z.of_nat (List.length l))) eqn:E1;
    destruct ((0 <=? j) && (j <? Z.of_nat (List.length l))) eqn:E2;
    repeat match goal with
           | H : (if ?b then _ else _) = _ |- _ => destruct b eqn:?
           | H : Some _ = Some _ |- _ => injection H as <-
           | H : (_ && _) = true |- _ => apply andb_prop in H as [? ?]
           end; try discriminate; lia.
Qed.

(** The effect of one call on a sound cache of either engine.  Unless the
    engine has no line, the call answers with a response that names one line
    [k]; that line goes from [old] to [new]; every other line stays. *)
Lemma access_effect (c : Cache) (h : list (result Response)) (address : Z) (op : string)
  (data : option Z) :
  sound c h ->
  let c' := fst (access address op data c) in
  let r := snd (access address op data c) in
  let wp := CacheSimulator.write_policy (base c) in
  (r = Raise StopIteration /\ lines c = [] /\ lines c' = [])
  \/ exists resp k old new,
       r = Ok resp
       /\ affected_line resp = Some k
       /\ line_at c k = Some old
       /\ line_at c' k = Some new
       /\ new = (if hit resp
                 then if (op =? "write")%string
                      then written_block old address data wp else old
                 else filled_block (tag_of c address) address op data wp)
       /\ base c' = counted (base c) (hit resp) (dirty_writeback resp) op
       /\ (hit resp = true -> valid old = 1 /\ tag old = Some (tag_of c address))
       /\ eviction resp = negb (hit resp) && (valid old =? 1)
       /\ dirty_writeback resp
          = negb (hit resp) && (valid old =? 1)
            && (wp =? "write-back")%string && (dirty old =? 1)
       /\ (forall l, 0 <= l -> l <> k -> line_at c' l = line_at c l).
Proof.
  intros Hs. cbv zeta.
  destruct c as [d|f]; cbn [sound] in Hs.
  - right. rewrite access_DirectMapped.
    destruct (DM_access_spec d address op data Hs)
      as (line & resp & Hget & Hspec & Hh & Hev & Hwb & Hal & _).
    cbv zeta in Hspec, Hh, Hev, Hwb. rewrite Hspec.
    destruct Hs as (Hob & Hib & Hlen & Hok).
    pose proof (land_mask_range
                  (Z.shiftr address (CacheSimulator.offset_bits (DirectMappedCache.base d)))
                  _ Hib) as Hrange.
    set (index := Z.land _ _) in *.
    unfold DirectMappedCache.write_policy in *.
    cbn [fst snd base line_at tag_of DirectMappedCache.base DirectMappedCache.cache].
    unfold DirectMappedCache.decompose_address. cbn [fst].
    exists resp, index, line,
      (if hit resp
       then if (op =? "write")%string
            then written_block line address data
                   (CacheSimulator.write_policy (DirectMappedCache.base d))
            else line
       else filled_block
              (Z.shiftr address
                 (CacheSimulator.offset_bits (DirectMappedCache.base d)
                  + DirectMappedCache.index_bits d))
              address op data (CacheSimulator.write_policy (DirectMappedCache.base d))).
    split; [reflexivity|]. split; [exact Hal|]. split; [exact Hget|].
    rewrite Hh, Hev, Hwb.
    destruct ((valid line =? 1) && tag_eqb line _) eqn:Ehit.
    + apply andb_prop in Ehit as [Ev Et]. apply Z.eqb_eq in Ev. apply tag_eqb_true in Et.
      destruct (op =? "write")%string.
      * split; [eapply py_getitem_mutate_same, Hget|].
        split; [reflexivity|]. split; [reflexivity|].
        split; [intros _; split; assumption|].
        split; [reflexivity|]. split; [reflexivity|].
        intros l Hl Hne. apply py_getitem_mutate_other; lia.
      * split; [exact Hget|].
        split; [reflexivity|]. split; [reflexivity|].
        split; [intros _; split; assumption|].
        split; [reflexivity|]. split; reflexivity.
    + split; [eapply py_getitem_mutate_same, Hget|].
      split; [reflexivity|]. split; [reflexivity|].
      split; [intros; discriminate|].
      split; [reflexivity|]. split; [reflexivity|].
      intros l Hl Hne. apply py_getitem_mutate_other; lia.
  - rewrite access_FullyAssociative.
    pose proof (FA_access_effect f h address op data Hs) as Heff. cbv zeta in Heff.
    destruct Hs as (_ & Hnd & _).
    cbn [fst snd base lines line_at tag_of FullyAssociativeCache.decompose_address].
    unfold FullyAssociativeCache.decompose_address. cbn [fst].
    destruct Heff as [(Hr & Hc & Hc')|(resp & k & old & Hr & Hal & Hget & Hc' & Hb & Hhit
                                       & Hmiss & Hev & Hwb)].
    + left. rewrite Hc, Hc'. auto.
    + right. eexists resp, k, old, _. rewrite Hc'.
      split; [exact Hr|]. split; [exact Hal|]. split; [exact Hget|].
      split; [apply od_getitem_moved, Hnd|].
      split; [reflexivity|]. split; [exact Hb|]. split; [exact Hhit|].
      split; [exact Hev|]. split; [exact Hwb|].
      intros l _ Hne. rewrite od_getitem_snoc_other by exact Hne.
      apply od_getitem_remove_other, Hne.
Qed.

(** ** The response is the trace of the call *)

Lemma access_response (c : Cache) (h : list (result Response)) (address : Z)
  (op : string) (data : option Z) (resp : Response) :
  sound c h ->
  snd (access address op data c) = Ok resp ->
  access_number resp = CacheSimulator.total_accesses (base c) + 1
  /\ r_address resp = address
  /\ r_operation resp = op
  /\ r_tag resp = tag_of c address
  /\ steps resp
     = trace_steps (if is_direct_mapped c then "Fetch" else "Search")%string (hit resp) op.
Proof.
  destruct c as [d|f]; intros Hs Hr; cbn [sound] in Hs.
  - rewrite access_DirectMapped in Hr. cbn [snd] in Hr.
    pose proof (DM_access_response d address op data Hs resp Hr) as Heq.
    cbv zeta in Heq.
    repeat split.
    + apply (f_equal access_number) in Heq. exact Heq.
    + apply (f_equal r_address) in Heq. exact Heq.
    + apply (f_equal r_operation) in Heq. exact Heq.
    + apply (f_equal r_tag) in Heq. exact Heq.
    + apply (f_equal steps) in Heq. exact Heq.
  - rewrite access_FullyAssociative in Hr. cbn [snd] in Hr.
    destruct Hs as (_ & Hnd & _).
    pose proof (FA_access_response f address op data Hnd resp Hr) as Heq.
    cbv zeta in Heq.
    repeat split.
    + apply (f_equal access_number) in Heq. exact Heq.
    + apply (f_equal r_address) in Heq. exact Heq.
    + apply (f_equal r_operation) in Heq. exact Heq.
    + apply (f_equal r_tag) in Heq. exact Heq.
    + apply (f_equal steps) in Heq. exact Heq.
Qed.

(** X1.  The response of a call on a reachable cache is the trace of that
    call: it numbers the call, repeats the address and the operation string as
    given, carries the tag of the address, and lists the steps in the one
    order the engine takes them: the probe ([Fetch] or [Search]), [Compare
    Tag], [Hit/Miss], then [Write] on a write hit or [Memory Fetch] on a miss
    (nothing on a read hit), then [Update Cache].  A hit reports neither an
    eviction nor a write-back, and a write-back is reported only with an
    eviction, under the write-back policy. *)
Theorem response_is_the_trace (c c' : Cache) (address : Z) (operation : string)
  (data : option Z) (resp : Response) :
  reachable c ->
  access address operation data c = (c', Ok resp) ->
  access_number resp = CacheSimulator.total_accesses (base c) + 1
  /\ r_address resp = address
  /\ r_operation resp = operation
  /\ r_tag resp = tag_of c address
  /\ steps resp
     = trace_steps (if is_direct_mapped c then "Fetch" else "Search")%string
         (hit resp) operation
  /\ (hit resp = true -> eviction resp = false /\ dirty_writeback resp = false)
  /\ (dirty_writeback resp = true ->
      eviction resp = true
      /\ CacheSimulator.write_policy (base c) = "write-back"%string).
Proof.
  intros Hr Hacc. destruct (reachable_sound c Hr) as [h Hs].
  assert (Hsnd : snd (access address operation data c) = Ok resp)
    by (rewrite Hacc; reflexivity).
  destruct (access_response c h address operation data resp Hs Hsnd)
    as (H1 & H2 & H3 & H4 & H5).
  do 5 (split; [assumption|]).
  pose proof (access_effect c h address operation data Hs) as Heff. cbv zeta in Heff.
  destruct Heff as [(Hraise & _)|(resp' & k & old & new & Hok & _ & _ & _ & _ & _ & _
                                  & Hev & Hwb & _)]; [congruence|].
  rewrite Hsnd in Hok. injection Hok as <-.
  split.
  - intros Hhit. rewrite Hev, Hwb, Hhit. split; reflexivity.
  - intros Hd. rewrite Hd in Hwb. symmetry in Hwb.
    repeat (apply andb_prop in Hwb as [Hwb ?]).
    split; [rewrite Hev; apply andb_true_intro; split; assumption|].
    apply String.eqb_eq. assumption.
Qed.

Lemma response_is_the_trace_witness :
  let c := fst (run (scenario_fully_associative "write-back") [write 0]) in
  reachable c
  /\ steps (mkResponse 2 0 "write" 0 None 0
              ["Search"; "Compare Tag"; "Hit/Miss"; "Write"; "Update Cache"]%string
              true false false (Some 0))
     = trace_steps "Search" true "write".
Proof.
  cbv zeta.
  assert (H : reachable (fst (run (scenario_fully_associative "write-back") [write 0]))).
  { exists 16, 4, "fully-associative"%string, "write-back"%string,
      (scenario_fully_associative "write-back"), [write 0].
    split; reflexivity. }
  split; [exact H|].
  exact (proj1 (proj2 (proj2 (proj2 (proj2
           (response_is_the_trace _ _ 0 "write"%string None _ H eq_refl)))))).
Defined.

(** ** A call hits exactly the resident blocks, and leaves its block resident *)

Lemma find_block_from_None (d : OrderedDict.t) (tg : Z) :
  FullyAssociativeCache.find_block_from d tg = None ->
  forall k b, In (k, b) d -> valid b = 1 -> tag b = Some tg -> False.
Proof.
  induction d as [|[k' v] rest IH]; simpl; [tauto|].
  destruct ((valid v =? 1) && tag_eqb v tg) eqn:E; [discriminate|].
  intros H k b [Hin|Hin] Hv Ht.
  - injection Hin as -> ->.
    apply tag_eqb_true in Ht. rewrite Ht in E.
    replace (valid b =? 1) with true in E by (symmetry; apply Z.eqb_eq; assumption).
    discriminate.
  - eapply IH; eassumption.
Qed.

Lemma new_line_resident (old : CacheBlock) (is_hit : bool) (op : string) (tg a : Z)
  (data : option Z) (wp : string) :
  (is_hit = true -> valid old = 1 /\ tag old = Some tg) ->
  let new := if is_hit
             then if (op =? "write")%string then written_block old a data wp else old
             else filled_block tg a op data wp in
  valid new = 1 /\ tag new = Some tg.
Proof.
  intros H. cbv zeta. destruct is_hit.
  - destruct (H eq_refl) as [Hv Ht]. destruct (op =? "write")%string; simpl; auto.
  - simpl. auto.
Qed.

(** Hits and residency around one call on a sound cache. *)
Lemma access_holds (c c' : Cache) (h : list (result Response)) (address : Z)
  (operation : string) (data : option Z) (resp : Response) :
  sound c h ->
  access address operation data c = (c', Ok resp) ->
  (hit resp = true <-> holds c address) /\ holds c' address.
Proof.
  intros Hs Hacc.
  destruct c as [d|f]; cbn [sound] in Hs.
  - rewrite access_DirectMapped in Hacc.
    destruct (DM_access_spec d address operation data Hs)
      as (line & resp' & Hget & Hspec & Hh & _).
    cbv zeta in Hspec, Hh. rewrite Hspec in Hacc. cbn [fst snd] in Hacc.
    injection Hacc as <- <-.
    unfold holds, tag_of, line_at, DirectMappedCache.decompose_address.
    cbn [fst snd DirectMappedCache.base DirectMappedCache.cache
         DirectMappedCache.index_bits].
    change (CacheSimulator.offset_bits (counted (DirectMappedCache.base d) _ _ _))
      with (CacheSimulator.offset_bits (DirectMappedCache.base d)).
    set (index := Z.land (Z.shiftr address
                            (CacheSimulator.offset_bits (DirectMappedCache.base d)))
                    (Z.shiftl 1 (DirectMappedCache.index_bits d) - 1)) in *.
    set (tg := Z.shiftr address
                 (CacheSimulator.offset_bits (DirectMappedCache.base d)
                  + DirectMappedCache.index_bits d)) in *.
    split; [split|].
    + intros Hhit. rewrite Hhit in Hh. symmetry in Hh.
      apply andb_prop in Hh as [Hv Ht]. apply Z.eqb_eq in Hv. apply tag_eqb_true in Ht.
      exists index, line. auto.
    + intros (l & b & Hl & Hv & Ht & ->). rewrite Hget in Hl. injection Hl as <-.
      rewrite Hh. apply andb_true_intro. split; [apply Z.eqb_eq, Hv|apply tag_eqb_true, Ht].
    + destruct ((valid line =? 1) && tag_eqb line tg) eqn:Ehit.
      * apply andb_prop in Ehit as [Hv Ht]. apply Z.eqb_eq in Hv.
        apply tag_eqb_true in Ht.
        destruct (operation =? "write")%string.
        -- eexists index, _. split; [eapply py_getitem_mutate_same, Hget|].
           simpl. auto.
        -- exists index, line. auto.
      * eexists index, _. split; [eapply py_getitem_mutate_same, Hget|].
        simpl. auto.
  - rewrite access_FullyAssociative in Hacc.
    pose proof (FA_access_effect f h address operation data Hs) as Heff.
    cbv zeta in Heff. destruct Hs as (_ & Hnd & _).
    destruct (FullyAssociativeCache.access address operation data f) as [f' r].
    cbn [fst snd] in *. injection Hacc as <- ->.
    destruct Heff as [(Hraise & _)|(resp' & k & old & Hok & Hal & Hget & Hc' & Hb & Hhit
                                    & Hmiss & _)]; [discriminate|].
    injection Hok as <-.
    unfold holds, tag_of, line_at, FullyAssociativeCache.decompose_address.
    cbn [fst]. rewrite Hb, Hc'.
    change (CacheSimulator.offset_bits (counted (FullyAssociativeCache.base f) _ _ _))
      with (CacheSimulator.offset_bits (FullyAssociativeCache.base f)).
    set (tg := Z.shiftr address _) in *.
    split; [split|].
    + intros Hh. destruct (Hhit Hh) as [Hv Ht]. exists k, old. auto.
    + intros (l & b & Hl & Hv & Ht & _).
      destruct (hit resp) eqn:Hh; [reflexivity|]. exfalso.
      apply od_getitem_In in Hl.
      eapply find_block_from_None; [apply Hmiss; reflexivity|exact Hl|exact Hv|exact Ht].
    + eexists k, _. split; [apply od_getitem_moved, Hnd|].
      destruct (new_line_resident old (hit resp) operation tg address data
                  (CacheSimulator.write_policy (FullyAssociativeCache.base f)) Hhit)
        as [Hv Ht].
      auto.
Qed.

(** X2.  On a reachable cache a call hits if and only if the block of its
    address is resident: for the direct-mapped engine the line of its index is
    valid and carries its tag, for the fully associative engine some valid
    line carries its tag.  Whether it hit or missed, the block is resident
    when the call returns. *)
Theorem hit_iff_resident (c c' : Cache) (address : Z) (operation : string)
  (data : option Z) (resp : Response) :
  reachable c ->
  access address operation data c = (c', Ok resp) ->
  (hit resp = true <-> holds c address) /\ holds c' address.
Proof.
  intros Hr Hacc. destruct (reachable_sound c Hr) as [h Hs].
  exact (access_holds c c' h address operation data resp Hs Hacc).
Qed.

Lemma hit_iff_resident_witness :
  let c := fst (run (scenario_direct_mapped "write-back") [read 0; read 16]) in
  reachable c
  /\ exists c' resp,
       access 4 "read" None c = (c', Ok resp)
       /\ (hit resp = true <-> holds c 4)
       /\ holds c' 4.
Proof.
  cbv zeta.
  assert (H : reachable (fst (run (scenario_direct_mapped "write-back")
                                [read 0; read 16]))).
  { exists 16, 4, "direct-mapped"%string, "write-back"%string,
      (scenario_direct_mapped "write-back"), [read 0; read 16].
    split; reflexivity. }
  split; [exact H|].
  assert (Hacc : exists c' resp,
             access 4 "read" None
               (fst (run (scenario_direct_mapped "write-back") [read 0; read 16]))
             = (c', Ok resp)).
  { vm_compute. eexists _, _. reflexivity. }
  destruct Hacc as (c' & resp & Hacc).
  exists c', resp. split; [exact Hacc|].
  exact (hit_iff_resident _ c' 4 "read"%string None resp H Hacc).
Defined.

Lemma line_at_no_lines (c : Cache) (l : Z) : lines c = [] -> line_at c l = None.
Proof.
  destruct c as [d|f]; cbn [lines line_at]; intros H.
  - unfold py_getitem. rewrite H.
    destruct (py_index (List.length (@nil CacheBlock)) l) as [n|] eqn:E; [|reflexivity].
    apply py_index_bound in E. simpl in E. lia.
  - destruct (FullyAssociativeCache.cache f); [reflexivity|discriminate].
Qed.




(** ** The list of lines before and after a call *)

Lemma list_set_split {A : Type} (l : list A) (n : nat) (old v : A) :
  nth_error l n = Some old ->
  exists pre post, l = pre ++ old :: post /\ list_set l n v = pre ++ v :: post.
Proof.
  revert n. induction l as [|x t IH]; intros [|n] H; simpl in *; try discriminate.
  - injection H as ->. exists [], t. auto.
  - destruct (IH n H) as (pre & post & -> & ->). exists (x :: pre), post. auto.
Qed.

Lemma py_mutate_split {A : Type} (l : list A) (i : Z) (old v : A) :
  py_getitem l i = Some old ->
  exists pre post, l = pre ++ old :: post /\ py_mutate l i v = pre ++ v :: post.
Proof.
  unfold py_getitem, py_mutate. destruct (py_index (List.length l) i); [|discriminate].
  apply list_set_split.
Qed.

Lemma od_getitem_split (d : OrderedDict.t) (k : Z) (old : CacheBlock) :
  OrderedDict.getitem d k = Some old ->
  exists pre post, d = pre ++ (k, old) :: post /\ OrderedDict.remove d k = pre ++ post.
Proof.
  induction d as [|[k' v] rest IH]; simpl; [discriminate|].
  destruct (k' =? k) eqn:E.
  - intros [= ->]. apply Z.eqb_eq in E. subst. exists [], rest. auto.
  - intros H. destruct (IH H) as (pre & post & -> & ->).
    exists ((k', v) :: pre), post. auto.
Qed.

(** The lines of a sound cache around one call: the call either finds no
    line at all and raises, or replaces one line [old] by [new], in place or,
    in the fully associative engine, moved to the end of the iteration
    order. *)
Lemma access_shape (c : Cache) (h : list (result Response)) (address : Z) (op : string)
  (data : option Z) :
  sound c h ->
  let c' := fst (access address op data c) in
  let r := snd (access address op data c) in
  let wp := CacheSimulator.write_policy (base c) in
  (r = Raise StopIteration /\ lines c = [] /\ lines c' = []
   /\ base c' = CacheSimulator.incr_misses (CacheSimulator.incr_total_accesses (base c)))
  \/ exists resp k old new pre post,
       r = Ok resp
       /\ affected_line resp = Some k
       /\ line_at c k = Some old
       /\ line_at c' k = Some new
       /\ lines c = pre ++ old :: post
       /\ lines c' = (if is_direct_mapped c then pre ++ new :: post
                      else pre ++ post ++ [new])
       /\ new = (if hit resp
                 then if (op =? "write")%string
                      then written_block old address data wp else old
                 else filled_block (tag_of c address) address op data wp)
       /\ base c' = counted (base c) (hit resp) (dirty_writeback resp) op
       /\ (hit resp = true -> valid old = 1 /\ tag old = Some (tag_of c address))
       /\ dirty_writeback resp
          = negb (hit resp) && (valid old =? 1)
            && (wp =? "write-back")%string && (dirty old =? 1).
Proof.
  intros Hs. cbv zeta.
  destruct c as [d|f]; cbn [sound] in Hs.
  - right. rewrite access_DirectMapped.
    destruct (DM_access_spec d address op data Hs)
      as (line & resp & Hget & Hspec & Hh & Hev & Hwb & Hal & _).
    cbv zeta in Hspec, Hh, Hev, Hwb. rewrite Hspec.
    unfold DirectMappedCache.write_policy in *.
    cbn [fst snd base lines line_at tag_of is_direct_mapped DirectMappedCache.base
         DirectMappedCache.cache].
    unfold DirectMappedCache.decompose_address. cbn [fst].
    set (index := Z.land (Z.shiftr address
                            (CacheSimulator.offset_bits (DirectMappedCache.base d)))
                    (Z.shiftl 1 (DirectMappedCache.index_bits d) - 1)) in *.
    set (new := if hit resp
                then if (op =? "write")%string
                     then written_block line address data
                            (CacheSimulator.write_policy (DirectMappedCache.base d))
                     else line
                else filled_block
                       (Z.shiftr address
                          (CacheSimulator.offset_bits (DirectMappedCache.base d)
                           + DirectMappedCache.index_bits d))
                       address op data
                       (CacheSimulator.write_policy (DirectMappedCache.base d))).
    destruct (py_mutate_split _ _ _ new Hget) as (pre & post & Hl & Hm).
    exists resp, index, line, new, pre, post.
    split; [reflexivity|]. split; [exact Hal|]. split; [exact Hget|].
    split.
    { subst new. rewrite Hh in *.
      destruct ((valid line =? 1) && tag_eqb line _) eqn:Ehit.
      - destruct (op =? "write")%string;
          [eapply py_getitem_mutate_same, Hget|exact Hget].
      - eapply py_getitem_mutate_same, Hget. }
    split; [exact Hl|].
    split.
    { subst new. rewrite Hh in *.
      destruct ((valid line =? 1) && tag_eqb line _) eqn:Ehit.
      - destruct (op =? "write")%string; [exact Hm|exact Hl].
      - exact Hm. }
    split; [reflexivity|]. rewrite Hh, Hwb.
    split; [reflexivity|]. split; [|reflexivity].
    intros Ehit. apply andb_prop in Ehit as [Ev Et].
    apply Z.eqb_eq in Ev. apply tag_eqb_true in Et. auto.
  - rewrite access_FullyAssociative.
    pose proof (FA_access_effect f h address op data Hs) as Heff. cbv zeta in Heff.
    cbn [fst snd base lines line_at tag_of is_direct_mapped].
    unfold FullyAssociativeCache.decompose_address. cbn [fst].
    destruct Heff as [(Hr & Hc & Hc')|(resp & k & old & Hr & Hal & Hget & Hc' & Hb & Hhit
                                       & Hmiss & Hev & Hwb)].
    + left. rewrite Hc, Hc'. repeat split; try assumption.
      pose proof (FA_access_cases f address op data (proj1 (proj2 Hs))) as Hcase.
      rewrite (surjective_pairing (FullyAssociativeCache.access address op data f)) in Hcase.
      rewrite Hr in Hcase. inversion Hcase. reflexivity.
    + right. destruct (od_getitem_split _ _ _ Hget) as (pre & post & Hd & Hrm).
      eexists resp, k, old, _, (OrderedDict.values pre), (OrderedDict.values post).
      split; [exact Hr|]. split; [exact Hal|]. split; [exact Hget|].
      split; [rewrite Hc'; apply od_getitem_moved, (proj1 (proj2 Hs))|].
      split; [rewrite Hd, od_values_app; reflexivity|].
      split; [rewrite Hc', Hrm, !od_values_app, <- app_assoc; reflexivity|].
      split; [reflexivity|]. split; [exact Hb|]. split; [exact Hhit|exact Hwb].
Qed.

(** ** Which lines a call changes *)



(** ** Lines as the engines keep them *)

Lemma written_block_ok (old : CacheBlock) (a : Z) (data : option Z) (wp : string) :
  valid old = 1 -> line_ok old -> line_ok (written_block old a data wp).
Proof.
  intros Hv [[H0 _]|(_ & Ht & _)]; [lia|].
  right. unfold written_block. simpl.
  repeat split; try assumption; try discriminate.
  destruct (wp =? "write-through")%string; auto.
Qed.

Lemma filled_block_ok (tg a : Z) (op : string) (data : option Z) (wp : string) :
  line_ok (filled_block tg a op data wp).
Proof.
  right. unfold filled_block. simpl. repeat split; try discriminate.
  destruct (op =? "write")%string; [destruct (wp =? "write-through")%string|]; auto.
Qed.

Lemma serve_lines_ok (c : Cache) (h : list (result Response)) (q : Request) :
  sound c h -> Forall line_ok (lines c) -> Forall line_ok (lines (fst (serve q c))).
Proof.
  intros Hs Hok. unfold serve.
  pose proof (access_shape c h (q_address q) (q_operation q) (q_data q) Hs) as Hshape.
  cbv zeta in Hshape.
  destruct Hshape as [(_ & _ & Hl' & _)|(resp & k & old & new & pre & post & _ & _ & _ & _
                                        & Hl & Hl' & Hnew & _ & Hhit & _)].
  - rewrite Hl'. constructor.
  - rewrite Hl in Hok. apply Forall_app in Hok as [Hpre Hrest].
    apply Forall_cons_iff in Hrest as [Hold Hpost].
    assert (Hn : line_ok new).
    { rewrite Hnew. destruct (hit resp).
      - destruct (Hhit eq_refl) as [Hv _].
        destruct (q_operation q =? "write")%string; [|exact Hold].
        apply written_block_ok; assumption.
      - apply filled_block_ok. }
    rewrite Hl'. destruct (is_direct_mapped c).
    + apply Forall_app. split; [exact Hpre|]. constructor; assumption.
    + apply Forall_app. split; [exact Hpre|]. apply Forall_app. split; [exact Hpost|].
      constructor; [exact Hn|constructor].
Qed.

(** X5.  In every reachable state every line is either invalid and exactly
    as constructed (no tag, no payload, clean) or valid with a tag, a payload
    and a dirty bit of 0 or 1. *)
Theorem lines_are_well_formed (c : Cache) :
  reachable c -> Forall line_ok (lines c).
Proof.
  intros (cs & bs & ct & wp & c0 & qs & Hc & ->).
  apply (run_from_invariant (fun c h => sound c h /\ Forall line_ok (lines c))).
  - intros c h q [Hs Hok]. split; [apply serve_sound, Hs|].
    eapply serve_lines_ok; eassumption.
  - split; [eapply construct_sound, Hc|].
    destruct (construct_fresh _ _ _ _ _ Hc) as (Hnew & _).
    eapply Forall_impl; [|exact Hnew]. intros b ->. left. split; reflexivity.
Qed.

Lemma lines_are_well_formed_witness :
  let c := fst (run (scenario_direct_mapped "write-back") [write 0; read 16; write 4]) in
  reachable c /\ Forall line_ok (lines c).
Proof.
  cbv zeta.
  assert (H : reachable (fst (run (scenario_direct_mapped "write-back")
                                [write 0; read 16; write 4]))).
  { exists 16, 4, "direct-mapped"%string, "write-back"%string,
      (scenario_direct_mapped "write-back"), [write 0; read 16; write 4].
    split; reflexivity. }
  split; [exact H|]. exact (lines_are_well_formed _ H).
Defined.

(** ** The state the adapter shows *)

(** X6.  [get_cache_state] of the fully associative engine lists the lines
    in order of recency, without their numbers: after a call that returned,
    the line the response names is the last of the list, whatever its number,
    and the list is as long as before. *)
Theorem associative_state_lists_touched_line_last (c c' : Cache) (address : Z)
  (operation : string) (data : option Z) (resp : Response) (k : Z) :
  reachable c ->
  is_direct_mapped c = false ->
  access address operation data c = (c', Ok resp) ->
  affected_line resp = Some k ->
  exists front b,
    st_lines (get_cache_state c') = front ++ [b]
    /\ line_at c' k = Some b
    /\ List.length (st_lines (get_cache_state c'))
       = List.length (st_lines (get_cache_state c)).
Proof.
  intros Hr Hfa Hacc Hal. destruct (reachable_sound c Hr) as [h Hs].
  pose proof (access_shape c h address operation data Hs) as Hshape.
  cbv zeta in Hshape. rewrite Hacc in Hshape. cbn [fst snd] in Hshape.
  destruct Hshape as [(Hraise & _)|(resp' & k' & old & new & pre & post & Hok & Hal' & _
                                    & Hnew & Hl & Hl' & _)]; [discriminate|].
  injection Hok as <-. rewrite Hal in Hal'. injection Hal' as <-.
  rewrite Hfa in Hl'. unfold get_cache_state. cbn [st_lines].
  exists (pre ++ post), new. rewrite Hl', Hl.
  split; [apply app_assoc|]. split; [exact Hnew|].
  rewrite !length_app. simpl. rewrite ?length_app. simpl. lia.
Qed.

Lemma associative_state_lists_touched_line_last_witness :
  let c := fst (run (scenario_fully_associative "write-back") [read 0; read 16]) in
  reachable c
  /\ is_direct_mapped c = false
  /\ exists c' resp front b,
       access 0 "read" None c = (c', Ok resp)
       /\ affected_line resp = Some 0
       /\ st_lines (get_cache_state c') = front ++ [b]
       /\ line_at c' 0 = Some b.
Proof.
  cbv zeta.
  assert (H : reachable (fst (run (scenario_fully_associative "write-back")
                                [read 0; read 16]))).
  { exists 16, 4, "fully-associative"%string, "write-back"%string,
      (scenario_fully_associative "write-back"), [read 0; read 16].
    split; reflexivity. }
  split; [exact H|]. split; [reflexivity|].
  assert (Hacc : exists c' resp,
             access 0 "read" None
               (fst (run (scenario_fully_associative "write-back") [read 0; read 16]))
             = (c', Ok resp)
             /\ affected_line resp = Some 0).
  { vm_compute. eexists _, _. split; reflexivity. }
  destruct Hacc as (c' & resp & Hacc & Hal).
  destruct (associative_state_lists_touched_line_last _ c' 0 "read"%string None resp 0
              H eq_refl Hacc Hal) as (front & b & Hlines & Hline & _).
  exists c', resp, front, b. auto.
Defined.

(** ** Memory traffic *)

Lemma dirty_count_app (l1 l2 : list CacheBlock) :
  dirty_count (l1 ++ l2) = dirty_count l1 + dirty_count l2.
Proof. induction l1 as [|b l1 IH]; simpl; [reflexivity|]. rewrite IH. lia. Qed.

Lemma dirty_count_nonneg (l : list CacheBlock) : 0 <= dirty_count l.
Proof.
  induction l as [|b l IH]; cbn [dirty_count]; [lia|].
  unfold b2z. destruct (dirty b =? 1)%Z; lia.
Qed.

Lemma dirty_count_clean (l : list CacheBlock) :
  Forall (fun b => b = CacheBlock_new) l -> dirty_count l = 0.
Proof. induction 1 as [|b l Hb Hl IH]; simpl; [reflexivity|]. subst b. simpl. exact IH. Qed.

(** What one call adds to the traffic counters. *)
Lemma serve_traffic (c : Cache) (h : list (result Response)) (q : Request) :
  sound c h ->
  let c' := fst (serve q c) in
  let is_write := (q_operation q =? "write")%string in
  CacheSimulator.write_policy (base c') = CacheSimulator.write_policy (base c)
  /\ CacheSimulator.memory_writes (base c') + dirty_count (lines c')
     <= CacheSimulator.memory_writes (base c) + dirty_count (lines c) + b2z is_write
  /\ (lines c <> [] ->
      lines c' <> []
      /\ CacheSimulator.memory_reads (base c') - CacheSimulator.misses (base c')
         = CacheSimulator.memory_reads (base c) - CacheSimulator.misses (base c)
      /\ (CacheSimulator.write_policy (base c) = "write-through"%string ->
          CacheSimulator.memory_writes (base c')
          = CacheSimulator.memory_writes (base c) + b2z is_write))
  /\ (lines c = [] ->
      lines c' = []
      /\ CacheSimulator.memory_reads (base c') = CacheSimulator.memory_reads (base c)
      /\ CacheSimulator.memory_writes (base c') = CacheSimulator.memory_writes (base c)
      /\ CacheSimulator.hits (base c') = CacheSimulator.hits (base c)
      /\ CacheSimulator.misses (base c') = CacheSimulator.misses (base c) + 1).
Proof.
  intros Hs. cbv zeta. unfold serve.
  pose proof (access_shape c h (q_address q) (q_operation q) (q_data q) Hs) as Hshape.
  cbv zeta in Hshape.
  destruct Hshape as [(_ & Hl & Hl' & Hb)
                     |(resp & k & old & new & pre & post & _ & _ & _ & _
                       & Hl & Hl' & Hnew & Hb & Hhit & Hwb)].
  - rewrite Hb, Hl, Hl'. simpl.
    split; [reflexivity|].
    split; [destruct (q_operation q =? "write")%string; simpl; lia|].
    split; [tauto|]. intros _. repeat split; reflexivity.
  - rewrite Hb, Hl.
    assert (Hdc : dirty_count (lines (fst (access (q_address q) (q_operation q)
                                             (q_data q) c)))
                  = dirty_count pre + dirty_count post + b2z (dirty new =? 1)).
    { rewrite Hl'. destruct (is_direct_mapped c);
        rewrite ?dirty_count_app; simpl; rewrite ?dirty_count_app; simpl; lia. }
    rewrite Hdc, dirty_count_app. simpl.
    split; [reflexivity|].
    unfold counted. cbn [CacheSimulator.memory_writes CacheSimulator.memory_reads
                         CacheSimulator.misses CacheSimulator.hits].
    rewrite Hwb, Hnew. unfold written_block, filled_block.
    split.
    { destruct (hit resp); destruct (q_operation q =? "write")%string;
        destruct (CacheSimulator.write_policy (base c) =? "write-through")%string;
        destruct (CacheSimulator.write_policy (base c) =? "write-back")%string;
        destruct (valid old =? 1)%Z; destruct (dirty old =? 1)%Z eqn:Ed;
        cbn [dirty valid tag data andb negb b2z Z.eqb Pos.eqb]; rewrite ?Ed;
        cbn [b2z]; lia. }
    split.
    { intros _. split.
      - rewrite Hl'. destruct (is_direct_mapped c); intros Hnil;
          apply app_eq_nil in Hnil as [_ Hnil];
          try apply app_eq_nil in Hnil as [_ Hnil]; discriminate.
      - split; [lia|].
        intros Hwt. rewrite Hwt. simpl. rewrite !andb_false_r, andb_true_r. simpl. lia. }
    intros Hnil. destruct pre; discriminate.
Qed.

Lemma run_from_cons (c : Cache) (h : list (result Response)) (q : Request)
  (qs : list Request) :
  run_from c h (q :: qs) = run_from (fst (serve q c)) (snd (serve q c) :: h) qs.
Proof. simpl. destruct (serve q c). reflexivity. Qed.

(** The traffic counters after a sequence of calls. *)
Lemma run_from_traffic (qs : list Request) :
  forall (c : Cache) (h : list (result Response)),
    sound c h ->
    let c' := fst (run_from c h qs) in
    CacheSimulator.memory_writes (base c') + dirty_count (lines c')
    <= CacheSimulator.memory_writes (base c) + dirty_count (lines c) + write_count qs
    /\ (lines c <> [] ->
        CacheSimulator.memory_reads (base c') - CacheSimulator.misses (base c')
        = CacheSimulator.memory_reads (base c) - CacheSimulator.misses (base c)
        /\ (CacheSimulator.write_policy (base c) = "write-through"%string ->
            CacheSimulator.memory_writes (base c')
            = CacheSimulator.memory_writes (base c) + write_count qs))
    /\ (lines c = [] ->
        CacheSimulator.memory_reads (base c') = CacheSimulator.memory_reads (base c)
        /\ CacheSimulator.memory_writes (base c') = CacheSimulator.memory_writes (base c)
        /\ CacheSimulator.hits (base c') = CacheSimulator.hits (base c)
        /\ CacheSimulator.misses (base c')
           = CacheSimulator.misses (base c) + Z.of_nat (List.length qs)).
Proof.
  induction qs as [|q qs IH]; intros c h Hs; cbv zeta.
  - simpl. repeat split; lia.
  - rewrite run_from_cons.
    pose proof (serve_traffic c h q Hs) as Hstep. cbv zeta in Hstep.
    destruct Hstep as (Hwp & Hle & Hfull & Hnone).
    specialize (IH _ _ (serve_sound c h q Hs)). cbv zeta in IH.
    destruct IH as (IHle & IHfull & IHnone).
    cbn [write_count List.length]. split; [lia|]. split.
    + intros Hne. destruct (Hfull Hne) as (Hne' & Hreads & Hwt).
      destruct (IHfull Hne') as (IHreads & IHwt).
      split; [lia|]. intros Hpol. rewrite Hwp in IHwt.
      rewrite (IHwt Hpol), (Hwt Hpol). lia.
    + intros Hnil. destruct (Hnone Hnil) as (Hnil' & H1 & H2 & H3 & H4).
      destruct (IHnone Hnil') as (I1 & I2 & I3 & I4).
      repeat split; lia.
Qed.





(** X9.  Whatever the policy, memory is written only on behalf of a write:
    after any sequence of calls on a constructed cache, [memory_writes] plus
    the number of lines still dirty is at most the number of calls whose
    operation is ['write']. *)
Theorem memory_writes_need_writes (cache_size block_size : Z)
  (cache_type write_policy : string) (c0 : Cache) (qs : list Request) :
  construct cache_size block_size cache_type write_policy = Ok c0 ->
  let c := fst (run c0 qs) in
  0 <= dirty_count (lines c)
  /\ CacheSimulator.memory_writes (base c) + dirty_count (lines c) <= write_count qs.
Proof.
  intros Hc. cbv zeta. split; [apply dirty_count_nonneg|].
  pose proof (run_from_traffic qs c0 [] (construct_sound _ _ _ _ _ Hc)) as H.
  cbv zeta in H. destruct H as (Hle & _).
  destruct (construct_fresh _ _ _ _ _ Hc) as (Hnew & _ & _ & _ & _ & Hw).
  rewrite Hw, (dirty_count_clean _ Hnew) in Hle. unfold run. lia.
Qed.

Lemma memory_writes_need_writes_witness :
  construct 16 4 "direct-mapped" "write-back" = Ok (scenario_direct_mapped "write-back")
  /\ CacheSimulator.memory_writes
       (base (fst (run (scenario_direct_mapped "write-back")
                     [write 0; write 16; read 32])))
     + dirty_count
         (lines (fst (run (scenario_direct_mapped "write-back")
                        [write 0; write 16; read 32])))
     <= write_count [write 0; write 16; read 32].
Proof.
  split; [reflexivity|].
  exact (proj2 (memory_writes_need_writes 16 4 "direct-mapped" "write-back"
                  (scenario_direct_mapped "write-back") [write 0; write 16; read 32]
                  eq_refl)).
Defined.

(** X10.  On the same configuration and the same sequence of calls the
    write-back policy never writes memory more often than the write-through
    policy. *)
Theorem write_back_writes_no_more (cache_size block_size : Z) (cache_type : string)
  (back through : Cache) (qs : list Request) :
  construct cache_size block_size cache_type "write-back" = Ok back ->
  construct cache_size block_size cache_type "write-through" = Ok through ->
  CacheSimulator.memory_writes (base (fst (run back qs)))
  <= CacheSimulator.memory_writes (base (fst (run through qs))).
Proof.
  intros Hb Ht.
  assert (Hback : 0 <= dirty_count (lines (fst (run back qs)))
                  /\ CacheSimulator.memory_writes (base (fst (run back qs)))
                     + dirty_count (lines (fst (run back qs))) <= write_count qs).
  { split; [apply dirty_count_nonneg|].
    pose proof (run_from_traffic qs back [] (construct_sound _ _ _ _ _ Hb)) as H.
    cbv zeta in H. destruct H as (Hle & _).
    destruct (construct_fresh _ _ _ _ _ Hb) as (Hnew & _ & _ & _ & _ & Hw).
    rewrite Hw, (dirty_count_clean _ Hnew) in Hle. unfold run. lia. }
  pose proof (run_from_traffic qs through [] (construct_sound _ _ _ _ _ Ht)) as H.
  cbv zeta in H. destruct H as (_ & Hfull & Hnone).
  destruct (construct_fresh _ _ _ _ _ Ht) as (_ & _ & _ & _ & _ & Hw).
  assert (Hlines : lines back = [] <-> lines through = []).
  { destruct (construct_inv _ _ _ _ _ Hb) as [(d & -> & E & Hd)|(f & -> & E & Hf)];
      destruct (construct_inv _ _ _ _ _ Ht) as [(d' & -> & E' & Hd')|(f' & -> & E' & Hf')];
      try congruence.
    - apply DM_init_inv in Hd as (_ & _ & ->). apply DM_init_inv in Hd' as (_ & _ & ->).
      reflexivity.
    - apply FA_init_inv in Hf as (_ & ->). apply FA_init_inv in Hf' as (_ & ->).
      reflexivity. }
  destruct (lines through) as [|b rest] eqn:El.
  - pose proof (run_from_traffic qs back [] (construct_sound _ _ _ _ _ Hb)) as Hbk.
    cbv zeta in Hbk. destruct Hbk as (_ & _ & Hbnone).
    destruct (construct_fresh _ _ _ _ _ Hb) as (_ & _ & _ & _ & _ & Hwb).
    destruct (Hbnone (proj2 Hlines eq_refl)) as (_ & H2 & _).
    destruct (Hnone eq_refl) as (_ & H2' & _).
    unfold run. lia.
  - assert (Hne : b :: rest <> []) by discriminate.
    destruct (Hfull Hne) as [_ Hwt].
    assert (Hpol : CacheSimulator.write_policy (base through) = "write-through"%string).
    { destruct (construct_inv _ _ _ _ _ Ht) as [(d & -> & _ & Hd)|(f & -> & _ & Hf)].
      - apply DM_init_inv in Hd as (_ & _ & ->). reflexivity.
      - apply FA_init_inv in Hf as (_ & ->). reflexivity. }
    destruct Hback as [Hdirty Hback].
    unfold run in *. rewrite (Hwt Hpol). lia.
Qed.

Lemma write_back_writes_no_more_witness :
  construct 16 4 "direct-mapped" "write-back" = Ok (scenario_direct_mapped "write-back")
  /\ construct 16 4 "direct-mapped" "write-through"
     = Ok (scenario_direct_mapped "write-through")
  /\ CacheSimulator.memory_writes
       (base (fst (run (scenario_direct_mapped "write-back")
                     (map write [0; 4; 8; 12; 0; 4; 8; 12]))))
     <= CacheSimulator.memory_writes
          (base (fst (run (scenario_direct_mapped "write-through")
                        (map write [0; 4; 8; 12; 0; 4; 8; 12])))).
Proof.
  split; [reflexivity|]. split; [reflexivity|].
  exact (write_back_writes_no_more 16 4 "direct-mapped"
           (scenario_direct_mapped "write-back") (scenario_direct_mapped "write-through")
           (map write [0; 4; 8; 12; 0; 4; 8; 12]) eq_refl eq_refl).
Defined.

(** ** The configuration and the line numbers never change *)

Ltac order_lia :=
  repeat match goal with
         | H : (_ <=? _) = true |- _ => apply Z.leb_le in H
         | H : (_ <=? _) = false |- _ => apply Z.leb_gt in H
         | H : (_ <? _) = true |- _ => apply Z.ltb_lt in H
         | H : (_ <? _) = false |- _ => apply Z.ltb_ge in H
         | H : (_ =? _) = true |- _ => apply Z.eqb_eq in H
         | H : (_ =? _) = false |- _ => apply Z.eqb_neq in H
         end;
  lia.

Lemma serve_static (c : Cache) (h : list (result Response)) (q : Request) :
  sound c h ->
  configuration (fst (serve q c)) = configuration c
  /\ tag_bits (fst (serve q c)) = tag_bits c.
Proof.
  unfold serve. destruct c as [d|f]; intros Hs; cbn [sound] in Hs.
  - rewrite access_DirectMapped.
    destruct (DM_access_spec d (q_address q) (q_operation q) (q_data q) Hs)
      as (line & resp & _ & Hacc & _).
    cbv zeta in Hacc. rewrite Hacc. split; reflexivity.
  - rewrite access_FullyAssociative. destruct Hs as (_ & Hnd & _).
    pose proof (FA_access_cases f (q_address q) (q_operation q) (q_data q) Hnd) as Hcase.
    inversion Hcase; split; reflexivity.
Qed.

Lemma serve_length (c : Cache) (h : list (result Response)) (q : Request) :
  sound c h -> List.length (lines (fst (serve q c))) = List.length (lines c).
Proof.
  intros Hs. unfold serve.
  pose proof (access_shape c h (q_address q) (q_operation q) (q_data q) Hs) as Hshape.
  cbv zeta in Hshape.
  destruct Hshape as [(_ & Hl & Hl' & _)
                     |(resp & k & old & new & pre & post & _ & _ & _ & _ & Hl & Hl' & _)].
  - rewrite Hl, Hl'. reflexivity.
  - rewrite Hl, Hl'. destruct (is_direct_mapped c);
      rewrite ?length_app; simpl; rewrite ?length_app; simpl; lia.
Qed.

Lemma serve_line_numbers (c : Cache) (h : list (result Response)) (q : Request) (l : Z) :
  sound c h -> 0 <= l ->
  (line_at (fst (serve q c)) l = None <-> line_at c l = None).
Proof.
  intros Hs Hl. unfold serve.
  pose proof (access_effect c h (q_address q) (q_operation q) (q_data q) Hs) as Heff.
  cbv zeta in Heff.
  destruct Heff as [(_ & Hnil & Hnil')
                   |(resp & k & old & new & _ & _ & Hold & Hnew & _ & _ & _ & _ & _ & Hframe)].
  - rewrite (line_at_no_lines _ l Hnil), (line_at_no_lines _ l Hnil'). tauto.
  - destruct (Z.eq_dec l k) as [->|Hne].
    + rewrite Hold, Hnew. split; discriminate.
    + rewrite (Hframe l Hl Hne). tauto.
Qed.

Lemma od_getitem_initial (n start : nat) (l : Z) :
  OrderedDict.getitem (map (fun i => (Z.of_nat i, CacheBlock_new)) (seq start n)) l
  = if (Z.of_nat start <=? l) && (l <? Z.of_nat (start + n))
    then Some CacheBlock_new else None.
Proof.
  revert start. induction n as [|n IH]; intros start; simpl.
  - destruct (Z.of_nat start <=? l) eqn:E1; destruct (l <? Z.of_nat (start + 0)) eqn:E2;
      try reflexivity. order_lia.
  - rewrite IH.
    destruct (Z.of_nat start =? l) eqn:E0;
      destruct (Z.of_nat start <=? l) eqn:E1;
      destruct (l <? Z.of_nat (start + S n)) eqn:E2;
      destruct (Z.of_nat (S start) <=? l) eqn:E3;
      destruct (l <? Z.of_nat (S start + n)) eqn:E4;
      try reflexivity; order_lia.
Qed.

Lemma py_getitem_repeat {A : Type} (x : A) (n : nat) (l : Z) :
  0 <= l ->
  py_getitem (repeat x n) l = if l <? Z.of_nat n then Some x else None.
Proof.
  intros Hl. destruct (l <? Z.of_nat n) eqn:E.
  - destruct (py_getitem_in_range (repeat x n) l) as [y Hy];
      [rewrite repeat_length; lia|].
    rewrite Hy. f_equal. eapply repeat_spec, py_getitem_In, Hy.
  - unfold py_getitem, py_index. rewrite repeat_length.
    replace ((0 <=? l) && (l <? Z.of_nat n)) with false
      by (symmetry; apply andb_false_iff; right; exact E).
    replace ((- Z.of_nat n <=? l) && (l <? 0)) with false
      by (symmetry; apply andb_false_iff; right; apply Z.ltb_ge; lia).
    reflexivity.
Qed.

Lemma construct_line_at (cs bs : Z) (ct wp : string) (c0 : Cache) (l : Z) :
  construct cs bs ct wp = Ok c0 -> 0 <= l ->
  line_at c0 l = if l <? cs / bs then Some CacheBlock_new else None.
Proof.
  intros H Hl.
  destruct (construct_inv _ _ _ _ _ H) as [(d & -> & _ & Hd)|(f & -> & _ & Hf)].
  - apply DM_init_inv in Hd as (_ & Hnb & ->). cbn [line_at DirectMappedCache.cache].
    rewrite py_getitem_repeat by exact Hl. rewrite Z2Nat.id by lia. reflexivity.
  - apply FA_init_inv in Hf as (_ & ->). cbn [line_at FullyAssociativeCache.cache].
    rewrite od_getitem_initial. simpl Z.of_nat at 1.
    replace (0 <=? l) with true by (symmetry; apply Z.leb_le; exact Hl).
    cbn [andb Nat.add].
    destruct (l <? cs / bs) eqn:E1; destruct (l <? Z.of_nat (Z.to_nat (cs / bs))) eqn:E2;
      try reflexivity; order_lia.
Qed.

Lemma construct_configuration (cs bs : Z) (ct wp : string) (c0 : Cache) :
  construct cs bs ct wp = Ok c0 ->
  configuration c0
  = (cs, bs, cs / bs, wp,
     if (ct =? "direct-mapped")%string then "direct-mapped"%string
     else "fully-associative"%string)
  /\ tag_bits c0
     = 32 - (if (ct =? "direct-mapped")%string then Z.log2 (cs / bs) else 0) - Z.log2 bs
  /\ List.length (lines c0) = Z.to_nat (cs / bs).
Proof.
  intros H.
  destruct (construct_inv _ _ _ _ _ H) as [(d & -> & -> & Hd)|(f & -> & -> & Hf)].
  - apply DM_init_inv in Hd as (_ & _ & ->). simpl.
    rewrite repeat_length. repeat split.
  - apply FA_init_inv in Hf as (_ & ->).
    cbn [lines FullyAssociativeCache.cache]. rewrite initial_values, repeat_length.
    repeat split; simpl; lia.
Qed.

(** What never changes along a sequence of calls. *)
Lemma run_static (c0 : Cache) (qs : list Request) :
  sound c0 [] ->
  let c := fst (run c0 qs) in
  configuration c = configuration c0
  /\ tag_bits c = tag_bits c0
  /\ List.length (lines c) = List.length (lines c0)
  /\ forall l, 0 <= l -> line_at c l = None <-> line_at c0 l = None.
Proof.
  intros Hs. cbv zeta.
  pose proof (run_from_invariant
                (fun c h => sound c h
                            /\ configuration c = configuration c0
                            /\ tag_bits c = tag_bits c0
                            /\ List.length (lines c) = List.length (lines c0)
                            /\ forall l, 0 <= l ->
                                         line_at c l = None <-> line_at c0 l = None))
    as Hinv.
  apply Hinv; clear Hinv.
  - intros c h q (Hsc & Hcfg & Htb & Hlen & Hdom).
    destruct (serve_static c h q Hsc) as [Hcfg' Htb'].
    split; [apply serve_sound, Hsc|].
    split; [congruence|]. split; [congruence|].
    split; [rewrite (serve_length c h q Hsc); exact Hlen|].
    intros l Hl. rewrite (serve_line_numbers c h q l Hsc Hl). apply Hdom, Hl.
  - split; [exact Hs|]. repeat split; auto.
Qed.

(** X11.  The line numbers of a cache are fixed when it is constructed:
    after any sequence of calls, a line number [l >= 0] names a line exactly
    when [l < cache_size // block_size], and the state lists that many
    lines. *)
Theorem line_numbers_are_fixed (cache_size block_size : Z)
  (cache_type write_policy : string) (c0 : Cache) (qs : list Request) (l : Z) :
  construct cache_size block_size cache_type write_policy = Ok c0 ->
  0 <= l ->
  (line_at (fst (run c0 qs)) l <> None <-> l < cache_size / block_size)
  /\ List.length (st_lines (get_cache_state (fst (run c0 qs))))
     = Z.to_nat (cache_size / block_size).
Proof.
  intros Hc Hl.
  pose proof (run_static c0 qs (construct_sound _ _ _ _ _ Hc)) as Hst. cbv zeta in Hst.
  destruct Hst as (_ & _ & Hlen & Hdom).
  destruct (construct_configuration _ _ _ _ _ Hc) as (_ & _ & Hlen0).
  split.
  - rewrite (Hdom l Hl), (construct_line_at _ _ _ _ _ l Hc Hl).
    destruct (l <? cache_size / block_size) eqn:E.
    + split; [intros _; order_lia|discriminate].
    + split; [intros H; exfalso; apply H; reflexivity|order_lia].
  - cbn [get_cache_state st_lines]. congruence.
Qed.

Lemma line_numbers_are_fixed_witness :
  construct 16 4 "fully-associative" "write-back"
  = Ok (scenario_fully_associative "write-back")
  /\ (line_at (fst (run (scenario_fully_associative "write-back")
                      (map read [0; 4; 8; 12; 16; 20]))) 3 <> None
      <-> 3 < 16 / 4).
Proof.
  split; [reflexivity|].
  apply (line_numbers_are_fixed 16 4 "fully-associative" "write-back"
           (scenario_fully_associative "write-back") (map read [0; 4; 8; 12; 16; 20]) 3
           eq_refl).
  lia.
Defined.



(** X13.  [reset_cache] gives back the cache exactly as it was constructed:
    whatever calls were served, the handler succeeds and the new active cache
    is the one the constructor returned in the first place, with every line
    invalid and every counter zero. *)
Theorem reset_restores_the_constructed_cache (cache_size block_size : Z)
  (cache_type write_policy : string) (c0 : Cache) (qs : list Request) :
  construct cache_size block_size cache_type write_policy = Ok c0 ->
  reset_cache (Some (fst (run c0 qs))) = (Some c0, Ok true).
Proof.
  intros Hc.
  pose proof (run_static c0 qs (construct_sound _ _ _ _ _ Hc)) as Hst. cbv zeta in Hst.
  destruct Hst as (Hcfg & _).
  destruct (construct_configuration _ _ _ _ _ Hc) as (Hcfg0 & _).
  rewrite Hcfg0 in Hcfg. unfold configuration in Hcfg. injection Hcfg as H1 H2 H3 H4 H5.
  unfold reset_cache. rewrite H1, H2, H4, H5.
  assert (Hsame : construct cache_size block_size
                    (if (cache_type =? "direct-mapped")%string
                     then "direct-mapped"%string else "fully-associative"%string)
                    write_policy
                  = construct cache_size block_size cache_type write_policy).
  { unfold construct. destruct (cache_type =? "direct-mapped")%string; reflexivity. }
  rewrite Hsame, Hc. reflexivity.
Qed.

Lemma reset_restores_the_constructed_cache_witness :
  construct 16 4 "direct-mapped" "write-back" = Ok (scenario_direct_mapped "write-back")
  /\ reset_cache (Some (fst (run (scenario_direct_mapped "write-back")
                               [write 0; write 16; read 4])))
     = (Some (scenario_direct_mapped "write-back"), Ok true).
Proof.
  split; [reflexivity|].
  exact (reset_restores_the_constructed_cache 16 4 "direct-mapped" "write-back"
           (scenario_direct_mapped "write-back") [write 0; write 16; read 4] eq_refl).
Defined.

(** ** What each line holds *)

Lemma latest_step (c : Cache) (c0 : Cache) (h : list (result Response)) (q : Request) :
  sound c h ->
  (forall l, 0 <= l ->
             match latest h l with
             | Some resp =>
                 exists b, line_at c l = Some b /\ valid b = 1 /\ tag b = Some (r_tag resp)
             | None => line_at c l = line_at c0 l
             end) ->
  forall l, 0 <= l ->
            match latest (snd (serve q c) :: h) l with
            | Some resp =>
                exists b, line_at (fst (serve q c)) l = Some b
                          /\ valid b = 1 /\ tag b = Some (r_tag resp)
            | None => line_at (fst (serve q c)) l = line_at c0 l
            end.
Proof.
  intros Hs IH l Hl. unfold serve.
  pose proof (access_effect c h (q_address q) (q_operation q) (q_data q) Hs) as Heff.
  pose proof (access_response c h (q_address q) (q_operation q) (q_data q)) as Hresp.
  cbv zeta in Heff.
  destruct Heff as [(Hr & Hnil & Hnil')
                   |(resp & k & old & new & Hr & Hal & Hold & Hnew & Hnew_eq & _ & Hhit
                     & _ & _ & Hframe)].
  - rewrite Hr. cbn [latest]. specialize (IH l Hl).
    rewrite (line_at_no_lines _ l Hnil').
    rewrite (line_at_no_lines _ l Hnil) in IH.
    destruct (latest h l); [destruct IH as (b & Hb & _); discriminate|exact IH].
  - rewrite Hr. cbn [latest]. rewrite Hal.
    destruct (k =? l) eqn:E.
    + apply Z.eqb_eq in E. subst l. exists new. split; [exact Hnew|].
      destruct (Hresp resp Hs Hr) as (_ & _ & _ & Htag & _). rewrite Htag, Hnew_eq.
      apply new_line_resident, Hhit.
    + apply Z.eqb_neq in E. rewrite (Hframe l Hl) by congruence. apply IH, Hl.
Qed.

(** X14.  Every line holds the block of the latest call that touched it:
    after any sequence of calls on a constructed cache, a line that some call
    hit or filled is valid and carries the tag of the last such call, and a
    line no call touched is as the constructor left it. *)
Theorem lines_hold_their_latest_block (cache_size block_size : Z)
  (cache_type write_policy : string) (c0 : Cache) (qs : list Request) (l : Z) :
  construct cache_size block_size cache_type write_policy = Ok c0 ->
  0 <= l ->
  match latest (snd (run c0 qs)) l with
  | Some resp =>
      exists b, line_at (fst (run c0 qs)) l = Some b
                /\ valid b = 1 /\ tag b = Some (r_tag resp)
  | None => line_at (fst (run c0 qs)) l = line_at c0 l
  end.
Proof.
  intros Hc Hl.
  pose proof (run_from_invariant
                (fun c h =>
                   sound c h
                   /\ forall l, 0 <= l ->
                        match latest h l with
                        | Some resp =>
                            exists b, line_at c l = Some b
                                      /\ valid b = 1 /\ tag b = Some (r_tag resp)
                        | None => line_at c l = line_at c0 l
                        end)) as Hinv.
  unfold run. apply Hinv; [| |exact Hl]; clear Hinv.
  - intros c h q [Hs IH]. split; [apply serve_sound, Hs|].
    apply latest_step; assumption.
  - split; [eapply construct_sound, Hc|]. intros l' _. reflexivity.
Qed.

Lemma lines_hold_their_latest_block_witness :
  construct 16 4 "direct-mapped" "write-back" = Ok (scenario_direct_mapped "write-back")
  /\ exists b,
       line_at (fst (run (scenario_direct_mapped "write-back") [read 0; write 16; read 4])) 0
       = Some b
       /\ valid b = 1 /\ tag b = Some 1.
Proof.
  split; [reflexivity|].
  assert (H0 : 0 <= 0) by lia.
  exact (lines_hold_their_latest_block 16 4 "direct-mapped" "write-back"
           (scenario_direct_mapped "write-back") [read 0; write 16; read 4] 0 eq_refl H0).
Defined.

Lemma valid_tags_app (l1 l2 : list CacheBlock) :
  valid_tags (l1 ++ l2) = valid_tags l1 ++ valid_tags l2.
Proof. unfold valid_tags. rewrite filter_app, map_app. reflexivity. Qed.

Lemma valid_tags_In (l : list CacheBlock) (t : option Z) :
  In t (valid_tags l) -> exists b, In b l /\ valid b = 1 /\ tag b = t.
Proof.
  unfold valid_tags. intros H. apply in_map_iff in H as (b & Ht & Hb).
  apply filter_In in Hb as [Hin Hv]. apply Z.eqb_eq in Hv. eauto.
Qed.

Lemma lines_In_line_at (c : Cache) (h : list (result Response)) (b : CacheBlock) :
  sound c h -> In b (lines c) -> exists l, line_at c l = Some b.
Proof.
  destruct c as [d|f]; cbn [sound lines line_at]; intros Hs Hin.
  - apply In_nth_error in Hin as [n Hn].
    exists (Z.of_nat n). unfold py_getitem.
    assert (Hlt : (n < List.length (DirectMappedCache.cache d))%nat)
      by (apply nth_error_Some; congruence).
    rewrite py_index_in_range by lia. rewrite Nat2Z.id. exact Hn.
  - destruct Hs as (_ & Hnd & _). unfold OrderedDict.values in Hin.
    apply in_map_iff in Hin as ([k b'] & Hb & Hin). simpl in Hb. subst b'.
    exists k. apply od_In_getitem; assumption.
Qed.

Lemma NoDup_move_last {A : Type} (l1 l2 : list A) (x : A) :
  NoDup (l1 ++ l2) -> ~ In x (l1 ++ l2) -> NoDup (l1 ++ l2 ++ [x]).
Proof.
  intros Hnd Hnotin. rewrite app_assoc.
  induction (l1 ++ l2) as [|y l IH]; simpl.
  - constructor; [intros []|constructor].
  - inversion Hnd as [|? ? Hy Hnd']; subst. constructor.
    + intros Hin. apply in_app_or in Hin as [Hin|[Hin|[]]]; [exact (Hy Hin)|].
      subst y. apply Hnotin. now left.
    + apply IH; [exact Hnd'|]. intros Hin. apply Hnotin. now right.
Qed.

Lemma serve_valid_tags (c : Cache) (h : list (result Response)) (q : Request) :
  sound c h -> is_direct_mapped c = false ->
  NoDup (valid_tags (lines c)) ->
  NoDup (valid_tags (lines (fst (serve q c)))).
Proof.
  intros Hs Hfa Hnd. unfold serve.
  pose proof (access_shape c h (q_address q) (q_operation q) (q_data q) Hs) as Hshape.
  pose proof (access_holds c (fst (access (q_address q) (q_operation q) (q_data q) c)) h
                (q_address q) (q_operation q) (q_data q)) as Hholds.
  cbv zeta in Hshape.
  destruct Hshape as [(_ & _ & Hl' & _)
                     |(resp & k & old & new & pre & post & Hr & _ & Hold & _ & Hl & Hl'
                       & Hnew & _ & Hhit & _)].
  - rewrite Hl'. constructor.
  - rewrite Hl', Hfa. rewrite Hl in Hnd.
    assert (Hpair : access (q_address q) (q_operation q) (q_data q) c
                    = (fst (access (q_address q) (q_operation q) (q_data q) c), Ok resp)).
    { rewrite <- Hr. apply surjective_pairing. }
    destruct (Hholds resp Hs Hpair) as [Hiff _].
    destruct (new_line_resident old (hit resp) (q_operation q) (tag_of c (q_address q))
                (q_address q) (q_data q) (CacheSimulator.write_policy (base c)) Hhit)
      as [Hv Ht].
    rewrite <- Hnew in Hv, Ht.
    rewrite !valid_tags_app.
    assert (Hnew_tags : valid_tags [new] = [Some (tag_of c (q_address q))]).
    { unfold valid_tags. cbn [filter]. rewrite Hv. simpl. rewrite Ht. reflexivity. }
    rewrite Hnew_tags.
    change (old :: post) with ([old] ++ post) in Hnd. rewrite !valid_tags_app in Hnd.
    destruct (hit resp) eqn:Ehit.
    + destruct (Hhit eq_refl) as [Hvo Hto].
      assert (Hold_tags : valid_tags [old] = [Some (tag_of c (q_address q))]).
      { unfold valid_tags. cbn [filter]. rewrite Hvo. simpl. rewrite Hto. reflexivity. }
      rewrite Hold_tags in Hnd. simpl in Hnd.
      apply NoDup_remove in Hnd as [Hnd Hnotin].
      apply NoDup_move_last; assumption.
    + assert (Hnd' : NoDup (valid_tags pre ++ valid_tags post)).
      { unfold valid_tags at 2 in Hnd. simpl in Hnd.
        destruct (valid old =? 1); simpl in Hnd; [apply NoDup_remove_1 in Hnd|]; exact Hnd. }
      apply NoDup_move_last; [exact Hnd'|].
      intros Hin. rewrite <- valid_tags_app in Hin.
      apply valid_tags_In in Hin as (b & Hb & Hvb & Htb).
      assert (Hin : In b (lines c)).
      { rewrite Hl. apply in_app_or in Hb as [Hb|Hb]; apply in_or_app;
          [left|right; right]; exact Hb. }
      destruct (lines_In_line_at c h b Hs Hin) as [l Hline].
      assert (Hres : holds c (q_address q)).
      { exists l, b. repeat split; try assumption.
        destruct c; [discriminate Hfa|exact I]. }
      apply Hiff in Hres. discriminate Hres.
Qed.

(** X15.  The fully associative engine never keeps one block twice: in every
    reachable state the valid lines carry pairwise different tags. *)
Theorem associative_tags_are_distinct (c : Cache) :
  reachable c -> is_direct_mapped c = false -> NoDup (valid_tags (lines c)).
Proof.
  intros (cs & bs & ct & wp & c0 & qs & Hc & ->) Hfa.
  rewrite run_variant in Hfa.
  pose proof (run_from_invariant
                (fun c h => sound c h /\ is_direct_mapped c = false
                            /\ NoDup (valid_tags (lines c)))) as Hinv.
  unfold run. apply Hinv; clear Hinv.
  - intros c h q (Hs & Hv & Hnd). split; [apply serve_sound, Hs|]. split.
    + unfold serve. destruct c as [d|f]; [discriminate Hv|].
      rewrite access_FullyAssociative. reflexivity.
    + apply (serve_valid_tags c h q Hs Hv Hnd).
  - split; [eapply construct_sound, Hc|]. split; [exact Hfa|].
    destruct (construct_fresh _ _ _ _ _ Hc) as [Hnew _].
    unfold valid_tags.
    induction Hnew as [|b l Hb Hl IH]; simpl; [constructor|].
    subst b. simpl. exact IH.
Qed.

Lemma associative_tags_are_distinct_witness :
  reachable (fst (run (scenario_fully_associative "write-back")
                    (map read [0; 16; 0; 32; 48; 64; 16])))
  /\ NoDup (valid_tags
              (lines (fst (run (scenario_fully_associative "write-back")
                             (map read [0; 16; 0; 32; 48; 64; 16]))))).
Proof.
  assert (H : reachable (fst (run (scenario_fully_associative "write-back")
                                (map read [0; 16; 0; 32; 48; 64; 16])))).
  { exists 16, 4, "fully-associative"%string, "write-back"%string,
      (scenario_fully_associative "write-back"), (map read [0; 16; 0; 32; 48; 64; 16]).
    split; reflexivity. }
  split; [exact H|].
  exact (associative_tags_are_distinct _ H eq_refl).
Defined.

(** ** Behind the adapter *)

Lemma run_from_fst_history (qs : list Request) :
  forall c h h', fst (run_from c h qs) = fst (run_from c h' qs).
Proof.
  induction qs as [|q qs IH]; intros c h h'; simpl; [reflexivity|].
  destruct (serve q c) as [c' r]. apply IH.
Qed.

Lemma cache_accesses_run (calls : list (Z * string)) :
  forall c,
    fst (cache_accesses (Some c) calls)
    = Some (fst (run c (map (fun p => mkRequest (fst p) (snd p) None) calls))).
Proof.
  induction calls as [|[a op] calls IH]; intros c; [reflexivity|].
  cbn [cache_accesses map run]. unfold run. rewrite run_from_cons.
  unfold cache_access, serve. cbn [q_address q_operation q_data fst snd].
  destruct (access a op None c) as [c' [resp|e]]; cbn [fst snd];
    specialize (IH c'); destruct (cache_accesses (Some c') calls) as [final replies];
    cbn [fst] in *; rewrite IH; f_equal; apply run_from_fst_history.
Qed.

Lemma tag_of_field_bits (c c' : Cache) (a : Z) :
  field_bits c = field_bits c' -> tag_of c a = tag_of c' a.
Proof.
  destruct c as [d|f]; destruct c' as [d'|f']; cbn [field_bits]; intros H;
    try discriminate H; injection H as H1 H2 || injection H as H1;
    unfold tag_of, DirectMappedCache.decompose_address,
      FullyAssociativeCache.decompose_address; cbn [fst]; congruence.
Qed.

Lemma serve_payload (c c0 : Cache) (h : list (result Response)) (q : Request) :
  sound c h -> q_data q = None ->
  field_bits c = field_bits c0 ->
  Forall (fun b => valid b = 1 -> exists a, data b = Some a /\ tag b = Some (tag_of c0 a))
    (lines c) ->
  Forall (fun b => valid b = 1 -> exists a, data b = Some a /\ tag b = Some (tag_of c0 a))
    (lines (fst (serve q c))).
Proof.
  intros Hs Hdata Hfb Hall. unfold serve.
  pose proof (access_shape c h (q_address q) (q_operation q) (q_data q) Hs) as Hshape.
  cbv zeta in Hshape.
  destruct Hshape as [(_ & _ & Hl' & _)
                     |(resp & k & old & new & pre & post & _ & _ & _ & _ & Hl & Hl'
                       & Hnew & _ & Hhit & _)].
  - rewrite Hl'. constructor.
  - rewrite Hl in Hall. apply Forall_app in Hall as [Hpre Hrest].
    apply Forall_cons_iff in Hrest as [Hold Hpost].
    assert (Hnew_ok : valid new = 1 ->
                      exists a, data new = Some a /\ tag new = Some (tag_of c0 a)).
    { rewrite Hnew, Hdata, (tag_of_field_bits c c0 _ Hfb) in *.
      destruct (hit resp).
      - destruct (Hhit eq_refl) as [Hv Ht].
        destruct (q_operation q =? "write")%string; [|exact Hold].
        intros _. exists (q_address q). split; [reflexivity|exact Ht].
      - intros _. exists (q_address q). split; reflexivity. }
    rewrite Hl'. destruct (is_direct_mapped c).
    + apply Forall_app. split; [exact Hpre|]. constructor; assumption.
    + apply Forall_app. split; [exact Hpre|].
      apply Forall_app. split; [exact Hpost|]. constructor; [exact Hnew_ok|constructor].
Qed.

(** X16.  The adapter never passes data to [access], so behind it the payload
    of a line is always an address of the block the line holds: after
    [create_cache] succeeded and any number of [cache_access] calls, every
    valid line of the active cache has as data an address whose tag is the
    tag of the line. *)
Theorem adapter_lines_store_their_address (active_cache : option Cache)
  (cache_size block_size : Z) (cache_type write_policy : string)
  (c0 c : Cache) (calls : list (Z * string)) :
  create_cache active_cache cache_size block_size cache_type write_policy
  = (Some c0, true) ->
  fst (cache_accesses (Some c0) calls) = Some c ->
  Forall (fun b => valid b = 1 -> exists a, data b = Some a /\ tag b = Some (tag_of c a))
    (lines c).
Proof.
  intros Hcreate Hcalls.
  assert (Hc : construct cache_size block_size cache_type write_policy = Ok c0).
  { unfold create_cache in Hcreate.
    destruct (construct cache_size block_size cache_type write_policy) as [c1|e];
      [|discriminate Hcreate].
    injection Hcreate as ->. reflexivity. }
  rewrite cache_accesses_run in Hcalls. injection Hcalls as <-.
  set (qs := map (fun p => mkRequest (fst p) (snd p) None) calls).
  assert (Hqs : Forall (fun q => q_data q = None) qs).
  { unfold qs. apply Forall_forall. intros q Hq.
    apply in_map_iff in Hq as (p & <- & _). reflexivity. }
  assert (Hinv : forall qs c h,
             Forall (fun q => q_data q = None) qs ->
             sound c h -> field_bits c = field_bits c0 ->
             Forall (fun b => valid b = 1 ->
                              exists a, data b = Some a /\ tag b = Some (tag_of c0 a))
               (lines c) ->
             field_bits (fst (run_from c h qs)) = field_bits c0
             /\ Forall (fun b => valid b = 1 ->
                                 exists a, data b = Some a /\ tag b = Some (tag_of c0 a))
                  (lines (fst (run_from c h qs)))).
  { clear. intros qs. induction qs as [|q qs IH]; intros c h Hqs Hs Hfb Hall.
    - simpl. auto.
    - rewrite run_from_cons. apply Forall_cons_iff in Hqs as [Hq Hqs].
      apply IH; [exact Hqs|apply serve_sound, Hs| |].
      + rewrite (serve_field_bits c h q Hs). exact Hfb.
      + apply (serve_payload c c0 h q Hs Hq Hfb Hall). }
  destruct (Hinv qs c0 [] Hqs (construct_sound _ _ _ _ _ Hc) eq_refl) as [Hfb Hall].
  { destruct (construct_fresh _ _ _ _ _ Hc) as [Hnew _].
    eapply Forall_impl; [|exact Hnew]. intros b -> Hv. discriminate Hv. }
  unfold run. eapply Forall_impl; [|exact Hall].
  intros b Hb Hv. destruct (Hb Hv) as (a & Hd & Ht). exists a. split; [exact Hd|].
  rewrite Ht. f_equal. symmetry. apply tag_of_field_bits, Hfb.
Qed.

Lemma adapter_lines_store_their_address_witness :
  create_cache None 16 4 "direct-mapped" "write-back"
  = (Some (scenario_direct_mapped "write-back"), true)
  /\ exists c,
       fst (cache_accesses (Some (scenario_direct_mapped "write-back"))
              [(0, "write"); (20, "read"); (16, "write")]%string) = Some c
       /\ Forall (fun b => valid b = 1 ->
                           exists a, data b = Some a /\ tag b = Some (tag_of c a))
            (lines c).
Proof.
  split; [reflexivity|].
  assert (Hrun : exists c,
             fst (cache_accesses (Some (scenario_direct_mapped "write-back"))
                    [(0, "write"); (20, "read"); (16, "write")]%string) = Some c).
  { vm_compute. eexists. reflexivity. }
  destruct Hrun as [c Hrun]. exists c. split; [exact Hrun|].
  exact (adapter_lines_store_their_address None 16 4 "direct-mapped" "write-back"
           (scenario_direct_mapped "write-back") c
           [(0, "write"); (20, "read"); (16, "write")]%string eq_refl Hrun).
Defined.

(** * The console program *)

(** ** Its engines make the state changes of the web engines *)





(** ** The sizes the prompt loop lets through *)

Lemma land_pred_pow2 (k : Z) : 0 <= k -> Z.land (2 ^ k) (2 ^ k - 1) = 0.
Proof.
  intros Hk. replace (2 ^ k - 1) with (Z.ones k) by (rewrite Z.ones_equiv; lia).
  rewrite Z.land_ones by exact Hk. apply Z_mod_same_full.
Qed.

Lemma land_pred_zero (x : Z) : 0 < x -> Z.land x (x - 1) = 0 -> x = 2 ^ Z.log2 x.
Proof.
  intros Hx Hland.
  destruct (Z.log2_spec x Hx) as [Hlo Hhi].
  destruct (Z.eq_dec x (2 ^ Z.log2 x)) as [E|E]; [exact E|exfalso].
  assert (Hpred : Z.log2 (x - 1) = Z.log2 x).
  { apply Z.log2_unique; [apply Z.log2_nonneg|]. lia. }
  assert (Hbit : Z.testbit (Z.land x (x - 1)) (Z.log2 x) = true).
  { rewrite Z.land_spec, (Z.bit_log2 x Hx).
    rewrite <- Hpred. rewrite Z.bit_log2; [reflexivity|].
    pose proof (Z.pow_pos_nonneg 2 (Z.log2 x) ltac:(lia) (Z.log2_nonneg x)). lia. }
  rewrite Hland, Z.bits_0 in Hbit. discriminate.
Qed.

Lemma accepted_size_is_power_of_two (x : Z) :
  rejects_size x = false -> exists k, 0 <= k /\ x = 2 ^ k.
Proof.
  unfold rejects_size. intros H. apply orb_false_elim in H as [Hpos Hland].
  apply Z.leb_gt in Hpos. apply negb_false_iff, Z.eqb_eq in Hland.
  exists (Z.log2 x). split; [apply Z.log2_nonneg|].
  apply land_pred_zero; assumption.
Qed.

(** X19.  The prompt loop of [interactive_mode] keeps asking until the size
    is a power of two: the test it applies passes exactly the numbers
    [2 ^ k], [k >= 0]. *)
Theorem prompt_accepts_the_powers_of_two (x : Z) :
  rejects_size x = false <-> exists k, 0 <= k /\ x = 2 ^ k.
Proof.
  split.
  - apply accepted_size_is_power_of_two.
  - unfold rejects_size. intros (k & Hk & ->).
    pose proof (Z.pow_pos_nonneg 2 k ltac:(lia) Hk).
    rewrite (land_pred_pow2 k Hk). simpl.
    rewrite orb_false_r. apply Z.leb_gt. assumption.
Qed.

(** X20.  Every configuration the prompt loop lets through is one both
    constructors accept: the sizes are [2 ^ i] and [2 ^ j] with [j <= i], the
    constructor returns a cache of [2 ^ (i - j)] lines with [j] offset bits
    (and [i - j] index bits when direct-mapped), and the configuration meets
    the invariants of the specification. *)
Theorem prompt_configurations_construct (cache_size block_size : Z)
  (cache_type write_policy : string) :
  rejects_size cache_size = false ->
  rejects_block_size cache_size block_size = false ->
  exists i j c0,
    0 <= j <= i
    /\ cache_size = 2 ^ i /\ block_size = 2 ^ j
    /\ construct cache_size block_size cache_type write_policy = Ok c0
    /\ List.length (lines c0) = Z.to_nat (2 ^ (i - j))
    /\ field_bits c0
       = (j, if (cache_type =? "direct-mapped")%string then Some (i - j) else None)
    /\ config_invariants cache_size block_size = true.
Proof.
  intros Hcs Hbs. unfold rejects_block_size in Hbs.
  apply orb_false_elim in Hbs as [Hbs Hle]. apply Z.ltb_ge in Hle.
  apply accepted_size_is_power_of_two in Hcs as (i & Hi & ->).
  apply accepted_size_is_power_of_two in Hbs as (j & Hj & ->).
  assert (Hji : j <= i) by (apply (Z.pow_le_mono_r_iff 2); lia).
  assert (Hdiv : 2 ^ i / 2 ^ j = 2 ^ (i - j)) by (symmetry; apply Z.pow_sub_r; lia).
  assert (Hposj : 0 < 2 ^ j) by (apply Z.pow_pos_nonneg; lia).
  assert (Hposi : 0 < 2 ^ i) by (apply Z.pow_pos_nonneg; lia).
  assert (Hposd : 0 < 2 ^ (i - j)) by (apply Z.pow_pos_nonneg; lia).
  destruct (construct (2 ^ i) (2 ^ j) cache_type write_policy) as [c0|e] eqn:Hc.
  - exists i, j, c0. split; [lia|]. split; [reflexivity|]. split; [reflexivity|].
    split; [reflexivity|].
    destruct (construct_configuration _ _ _ _ _ Hc) as (_ & _ & Hlen).
    split; [rewrite Hlen, Hdiv; reflexivity|].
    split.
    + rewrite (construct_field_bits _ _ _ _ _ Hc).
      rewrite Z.log2_pow2 by exact Hj. rewrite Hdiv, Z.log2_pow2 by lia.
      destruct (construct_inv _ _ _ _ _ Hc) as [(d & -> & -> & _)|(f & -> & -> & _)];
        reflexivity.
    + unfold config_invariants, is_power_of_two.
      rewrite Hdiv, !Z.log2_pow2 by lia.
      assert (Hmod : 2 ^ i mod 2 ^ j = 0).
      { replace i with ((i - j) + j) by lia. rewrite Z.pow_add_r by lia.
        apply Z_mod_mult. }
      rewrite Hmod, !Z.eqb_refl.
      replace (0 <? 2 ^ i) with true by (symmetry; apply Z.ltb_lt; exact Hposi).
      replace (0 <? 2 ^ j) with true by (symmetry; apply Z.ltb_lt; exact Hposj).
      replace (0 <? 2 ^ (i - j)) with true by (symmetry; apply Z.ltb_lt; exact Hposd).
      replace (2 ^ j <=? 2 ^ i) with true by (symmetry; apply Z.leb_le; exact Hle).
      reflexivity.
  - exfalso.
    assert (Hraise : exists e, construct (2 ^ i) (2 ^ j) cache_type write_policy = Raise e)
      by eauto.
    apply construct_raises_iff in Hraise as [Hraise|[_ Hraise]]; lia.
Qed.

Lemma prompt_configurations_construct_witness :
  rejects_size 32 = false
  /\ rejects_block_size 32 8 = false
  /\ exists i j c0,
       0 <= j <= i
       /\ 32 = 2 ^ i /\ 8 = 2 ^ j
       /\ construct 32 8 "direct-mapped" "write-through" = Ok c0
       /\ List.length (lines c0) = Z.to_nat (2 ^ (i - j))
       /\ field_bits c0
          = (j, if ("direct-mapped" =? "direct-mapped")%string then Some (i - j) else None)
       /\ config_invariants 32 8 = true.
Proof.
  split; [reflexivity|]. split; [reflexivity|].
  exact (prompt_configurations_construct 32 8 "direct-mapped" "write-through"
           eq_refl eq_refl).
Defined.

(** ** The calls of an interactive session *)

Lemma map_fst_combine {A B : Type} (l : list A) (l' : list B) :
  (List.length l <= List.length l')%nat -> map fst (combine l l') = l.
Proof.
  revert l'. induction l as [|a l IH]; intros [|b l'] H; simpl in *;
    try reflexivity; try lia.
  f_equal. apply IH. lia.
Qed.

Lemma parse_operations_known (tokens : list string) :
  Forall (fun op => op = "read"%string \/ op = "write"%string) (parse_operations tokens).
Proof.
  induction tokens as [|op rest IH]; simpl; [constructor|].
  destruct ((lower op =? "r") || (lower op =? "read"))%string; [constructor; auto|].
  destruct ((lower op =? "w") || (lower op =? "write"))%string; [constructor; auto|].
  exact IH.
Qed.

(** X21.  An interactive session serves every address that was entered, once
    and in the order entered, whatever was typed as operations: too few
    operations are made up with reads, surplus ones are dropped, and a token
    that is neither [r]/[read] nor [w]/[write] is passed over.  Every call it
    makes has the operation ['read'] or ['write'] and no data. *)
Theorem interactive_session_serves_every_address (addresses : list Z)
  (tokens : list string) :
  map q_address (interactive_requests addresses tokens) = addresses
  /\ Forall (fun q => (q_operation q = "read"%string \/ q_operation q = "write"%string)
                      /\ q_data q = None)
       (interactive_requests addresses tokens).
Proof.
  unfold interactive_requests, pad_operations. split.
  - rewrite map_map. cbn [q_address]. apply map_fst_combine.
    rewrite length_app, repeat_length. lia.
  - apply Forall_forall. intros q Hq.
    apply in_map_iff in Hq as ([a op] & <- & Hin). cbn [q_operation q_data fst snd].
    split; [|reflexivity].
    apply in_combine_r in Hin. apply in_app_or in Hin as [Hin|Hin].
    + pose proof (parse_operations_known tokens) as Hall.
      rewrite Forall_forall in Hall. apply Hall, Hin.
    + apply repeat_spec in Hin. left. exact Hin.
Qed.

(** * Placement depends on the addresses only *)

Lemma list_set_Forall2 {A : Type} (R : A -> A -> Prop) (l1 l2 : list A) (k : nat)
  (v1 v2 : A) :
  Forall2 R l1 l2 -> R v1 v2 -> Forall2 R (list_set l1 k v1) (list_set l2 k v2).
Proof.
  intros H Hv. revert k. induction H as [|x y l1 l2 Hxy Hl IH]; intros [|k]; simpl;
    constructor; auto.
Qed.

Lemma py_mutate_Forall2 {A : Type} (R : A -> A -> Prop) (l1 l2 : list A) (i : Z)
  (v1 v2 : A) :
  Forall2 R l1 l2 -> R v1 v2 -> Forall2 R (py_mutate l1 i v1) (py_mutate l2 i v2).
Proof.
  intros H Hv. unfold py_mutate. rewrite <- (Forall2_length H).
  destruct (py_index (List.length l1) i); [apply list_set_Forall2; assumption|exact H].
Qed.

Lemma list_set_id {A : Type} (l : list A) (k : nat) (x : A) :
  nth_error l k = Some x -> list_set l k x = l.
Proof.
  revert k. induction l as [|y l IH]; intros [|k] H; simpl in *; try discriminate.
  - injection H as ->. reflexivity.
  - f_equal. apply IH, H.
Qed.

Lemma py_mutate_id {A : Type} (l : list A) (i : Z) (x : A) :
  py_getitem l i = Some x -> py_mutate l i x = l.
Proof.
  unfold py_getitem, py_mutate. destruct (py_index (List.length l) i); [|reflexivity].
  apply list_set_id.
Qed.

Lemma py_getitem_Forall2 {A : Type} (R : A -> A -> Prop) (l1 l2 : list A) (i : Z)
  (x y : A) :
  Forall2 R l1 l2 -> py_getitem l1 i = Some x -> py_getitem l2 i = Some y -> R x y.
Proof.
  intros H. unfold py_getitem. rewrite <- (Forall2_length H).
  destruct (py_index (List.length l1) i) as [k|]; [|discriminate].
  revert k. induction H as [|a b l1 l2 Hab Hl IH]; intros [|k] H1 H2; simpl in *;
    try discriminate.
  - injection H1 as <-. injection H2 as <-. exact Hab.
  - eapply IH; eassumption.
Qed.

Lemma same_block_hit (b1 b2 : CacheBlock) (tg : Z) :
  same_block b1 b2 ->
  (valid b1 =? 1) && tag_eqb b1 tg = (valid b2 =? 1) && tag_eqb b2 tg.
Proof. intros [Hv Ht]. unfold tag_eqb. rewrite Hv, Ht. reflexivity. Qed.

Lemma same_block_new (old1 old2 : CacheBlock) (is_hit : bool) (op1 op2 : string)
  (tg a : Z) (data1 data2 : option Z) (wp1 wp2 : string) :
  same_block old1 old2 ->
  same_block
    (if is_hit
     then if (op1 =? "write")%string then written_block old1 a data1 wp1 else old1
     else filled_block tg a op1 data1 wp1)
    (if is_hit
     then if (op2 =? "write")%string then written_block old2 a data2 wp2 else old2
     else filled_block tg a op2 data2 wp2).
Proof.
  intros [Hv Ht]. destruct is_hit; [|split; reflexivity].
  destruct (op1 =? "write")%string; destruct (op2 =? "write")%string; split; assumption.
Qed.

Lemma DM_step_same (d1 d2 : DirectMappedCache.t) (a : Z) (op1 op2 : string)
  (data1 data2 : option Z) :
  dm_sound d1 -> dm_sound d2 ->
  same_placement (DirectMapped d1) (DirectMapped d2) ->
  same_placement (DirectMapped (fst (DirectMappedCache.access a op1 data1 d1)))
                 (DirectMapped (fst (DirectMappedCache.access a op2 data2 d2)))
  /\ outcome (snd (DirectMappedCache.access a op1 data1 d1))
     = outcome (snd (DirectMappedCache.access a op2 data2 d2)).
Proof.
  intros Hs1 Hs2 (Hfb & Ht & Hh & Hm & Hr & Hrel).
  cbn [field_bits base] in Hfb, Ht, Hh, Hm, Hr. injection Hfb as Hob Hib.
  destruct (DM_access_spec d1 a op1 data1 Hs1)
    as (line1 & resp1 & Hget1 & Hacc1 & Hhit1 & Hev1 & _ & Hal1 & _).
  destruct (DM_access_spec d2 a op2 data2 Hs2)
    as (line2 & resp2 & Hget2 & Hacc2 & Hhit2 & Hev2 & _ & Hal2 & _).
  cbv zeta in Hacc1, Hacc2, Hhit1, Hhit2, Hev1, Hev2.
  rewrite <- Hob, <- Hib in *.
  pose proof (py_getitem_Forall2 _ _ _ _ _ _ Hrel Hget1 Hget2) as Hline.
  pose proof (same_block_hit _ _
                (Z.shiftr a (CacheSimulator.offset_bits (DirectMappedCache.base d1)
                             + DirectMappedCache.index_bits d1)) Hline) as Hsame.
  rewrite <- Hsame in *.
  rewrite Hacc1, Hacc2. cbn [fst snd outcome].
  split.
  - unfold same_placement.
    cbn [field_bits base DirectMappedCache.base DirectMappedCache.index_bits
         DirectMappedCache.cache].
    unfold counted. cbn [CacheSimulator.offset_bits CacheSimulator.total_accesses
                         CacheSimulator.hits CacheSimulator.misses
                         CacheSimulator.memory_reads].
    split; [congruence|]. split; [congruence|]. split; [congruence|].
    split; [congruence|]. split; [congruence|].
    pose proof (same_block_new line1 line2
                  ((valid line1 =? 1)
                   && tag_eqb line1
                        (Z.shiftr a (CacheSimulator.offset_bits (DirectMappedCache.base d1)
                                     + DirectMappedCache.index_bits d1)))
                  op1 op2
                  (Z.shiftr a (CacheSimulator.offset_bits (DirectMappedCache.base d1)
                               + DirectMappedCache.index_bits d1))
                  a data1 data2 (DirectMappedCache.write_policy d1)
                  (DirectMappedCache.write_policy d2) Hline) as Hnew.
    destruct ((valid line1 =? 1) && tag_eqb line1 _).
    + destruct (op1 =? "write")%string; destruct (op2 =? "write")%string.
      * apply py_mutate_Forall2; assumption.
      * rewrite <- (py_mutate_id _ _ _ Hget2). apply py_mutate_Forall2; assumption.
      * rewrite <- (py_mutate_id _ _ _ Hget1). apply py_mutate_Forall2; assumption.
      * exact Hrel.
    + apply py_mutate_Forall2; assumption.
  - rewrite Hhit1, Hhit2, Hev1, Hev2, Hal1, Hal2.
    destruct Hline as [Hv _]. rewrite Hv. reflexivity.
Qed.

Lemma same_entries_find_block (d1 d2 : OrderedDict.t) (tg : Z) :
  same_entries d1 d2 ->
  FullyAssociativeCache.find_block_from d1 tg = FullyAssociativeCache.find_block_from d2 tg.
Proof.
  induction 1 as [|[k1 b1] [k2 b2] d1 d2 [Hk Hb] Hd IH]; [reflexivity|].
  simpl in Hk, Hb |- *. subst k2.
  rewrite (same_block_hit b1 b2 tg Hb), IH. reflexivity.
Qed.

Lemma same_entries_find_empty (d1 d2 : OrderedDict.t) :
  same_entries d1 d2 ->
  FullyAssociativeCache.find_empty_from d1 = FullyAssociativeCache.find_empty_from d2.
Proof.
  induction 1 as [|[k1 b1] [k2 b2] d1 d2 [Hk Hb] Hd IH]; [reflexivity|].
  simpl in Hk, Hb |- *. subst k2. destruct Hb as [Hv _].
  rewrite Hv, IH. reflexivity.
Qed.

Lemma same_entries_getitem (d1 d2 : OrderedDict.t) (k : Z) (b1 b2 : CacheBlock) :
  same_entries d1 d2 ->
  OrderedDict.getitem d1 k = Some b1 -> OrderedDict.getitem d2 k = Some b2 ->
  same_block b1 b2.
Proof.
  induction 1 as [|[k1 v1] [k2 v2] d1 d2 [Hk Hb] Hd IH]; [discriminate|].
  simpl in Hk, Hb |- *. subst k2. destruct (k1 =? k).
  - intros [= <-] [= <-]. exact Hb.
  - exact IH.
Qed.

Lemma same_entries_remove (d1 d2 : OrderedDict.t) (k : Z) :
  same_entries d1 d2 -> same_entries (OrderedDict.remove d1 k) (OrderedDict.remove d2 k).
Proof.
  induction 1 as [|[k1 v1] [k2 v2] d1 d2 [Hk Hb] Hd IH]; [constructor|].
  simpl in Hk, Hb |- *. subst k2. destruct (k1 =? k); [exact Hd|].
  constructor; [split; [reflexivity|exact Hb]|exact IH].
Qed.

Lemma same_entries_snoc (d1 d2 : OrderedDict.t) (k : Z) (b1 b2 : CacheBlock) :
  same_entries d1 d2 -> same_block b1 b2 ->
  same_entries (d1 ++ [(k, b1)]) (d2 ++ [(k, b2)]).
Proof.
  intros Hd Hb. apply Forall2_app; [exact Hd|].
  constructor; [split; [reflexivity|exact Hb]|constructor].
Qed.

Lemma FA_step_same (f1 f2 : FullyAssociativeCache.t) (h1 h2 : list (result Response))
  (a : Z) (op1 op2 : string) (data1 data2 : option Z) :
  fa_sound f1 h1 -> fa_sound f2 h2 ->
  same_placement (FullyAssociative f1) (FullyAssociative f2) ->
  same_placement (FullyAssociative (fst (FullyAssociativeCache.access a op1 data1 f1)))
                 (FullyAssociative (fst (FullyAssociativeCache.access a op2 data2 f2)))
  /\ outcome (snd (FullyAssociativeCache.access a op1 data1 f1))
     = outcome (snd (FullyAssociativeCache.access a op2 data2 f2)).
Proof.
  intros (_ & Hnd1 & _) (_ & Hnd2 & _) (Hfb & Ht & Hh & Hm & Hr & Hrel).
  cbn [field_bits base] in Hfb, Ht, Hh, Hm, Hr. injection Hfb as Hob.
  pose proof (same_entries_find_block _ _
                (Z.shiftr a (CacheSimulator.offset_bits (FullyAssociativeCache.base f1)))
                Hrel) as Efind.
  pose proof (same_entries_find_empty _ _ Hrel) as Eempty.
  pose proof (FA_access_cases f1 a op1 data1 Hnd1) as Hcase1.
  pose proof (FA_access_cases f2 a op2 data2 Hnd2) as Hcase2.
  assert (Hstate : forall k b1 b2 hit1 wb1 wb2 d1 d2,
             same_entries d1 d2 -> same_block b1 b2 ->
             same_placement
               (FullyAssociative
                  (FullyAssociativeCache.mk
                     (counted (FullyAssociativeCache.base f1) hit1 wb1 op1)
                     (FullyAssociativeCache.tag_bits f1) (d1 ++ [(k, b1)])))
               (FullyAssociative
                  (FullyAssociativeCache.mk
                     (counted (FullyAssociativeCache.base f2) hit1 wb2 op2)
                     (FullyAssociativeCache.tag_bits f2) (d2 ++ [(k, b2)])))).
  { intros k b1 b2 hit1 wb1 wb2 d1 d2 Hd Hb. unfold same_placement.
    cbn [field_bits base FullyAssociativeCache.base FullyAssociativeCache.cache].
    unfold counted. cbn [CacheSimulator.offset_bits CacheSimulator.total_accesses
                         CacheSimulator.hits CacheSimulator.misses
                         CacheSimulator.memory_reads].
    split; [congruence|]. split; [congruence|]. split; [congruence|].
    split; [congruence|]. split; [congruence|].
    apply same_entries_snoc; assumption. }
  destruct Hcase1 as [k1 line1 resp1 tg1 Hfb1 Hget1 Hv1 Ht1 Hh1 He1 Hw1 Hal1 Hn1
                     |k1 line1 resp1 tg1 Hfb1 Hfe1 Hget1 Hv1 Hh1 He1 Hw1 Hal1 Hn1
                     |k1 line1 rest1 resp1 tg1 wb1 Hfb1 Hfe1 Hc1 Hh1 He1 Hw1 Hal1 Hn1
                     |Hc1];
    destruct Hcase2 as [k2 line2 resp2 tg2 Hfb2 Hget2 Hv2 Ht2 Hh2 He2 Hw2 Hal2 Hn2
                       |k2 line2 resp2 tg2 Hfb2 Hfe2 Hget2 Hv2 Hh2 He2 Hw2 Hal2 Hn2
                       |k2 line2 rest2 resp2 tg2 wb2 Hfb2 Hfe2 Hc2 Hh2 He2 Hw2 Hal2 Hn2
                       |Hc2];
    repeat match goal with x := _ |- _ => subst x end;
    rewrite <- ?Hob in *;
    try (exfalso; congruence);
    try (exfalso; rewrite Hc1 in *; inversion Hrel; subst; simpl in *; congruence);
    try (exfalso; rewrite Hc2 in *; inversion Hrel; subst; simpl in *; congruence);
    cbn [fst snd outcome].
  - assert (k2 = k1) by congruence. subst k2.
    pose proof (same_entries_getitem _ _ _ _ _ Hrel Hget1 Hget2) as Hline.
    split.
    + apply Hstate; [apply same_entries_remove, Hrel|].
      apply (same_block_new line1 line2 true op1 op2 0 a data1 data2 _ _ Hline).
    + rewrite Hh1, Hh2, He1, He2, Hal1, Hal2. reflexivity.
  - assert (k2 = k1) by congruence. subst k2.
    split.
    + apply Hstate; [apply same_entries_remove, Hrel|split; reflexivity].
    + rewrite Hh1, Hh2, He1, He2, Hal1, Hal2. reflexivity.
  - rewrite Hc1, Hc2 in Hrel. inversion Hrel as [|? ? ? ? [Hk Hb] Hrest]; subst.
    simpl in Hk. subst k2.
    split.
    + apply Hstate; [exact Hrest|split; reflexivity].
    + rewrite Hh1, Hh2, He1, He2, Hal1, Hal2. reflexivity.
  - split; [|reflexivity].
    unfold same_placement.
    cbn [field_bits base FullyAssociativeCache.base FullyAssociativeCache.cache
         FullyAssociativeCache.on_base CacheSimulator.incr_misses
         CacheSimulator.incr_total_accesses CacheSimulator.offset_bits
         CacheSimulator.total_accesses CacheSimulator.hits CacheSimulator.misses
         CacheSimulator.memory_reads].
    split; [congruence|]. split; [congruence|]. split; [congruence|].
    split; [congruence|]. split; [congruence|]. exact Hrel.
Qed.

Lemma serve_same (c1 c2 : Cache) (h1 h2 : list (result Response)) (q1 q2 : Request) :
  sound c1 h1 -> sound c2 h2 -> same_placement c1 c2 ->
  q_address q1 = q_address q2 ->
  same_placement (fst (serve q1 c1)) (fst (serve q2 c2))
  /\ outcome (snd (serve q1 c1)) = outcome (snd (serve q2 c2)).
Proof.
  intros Hs1 Hs2 Hrel Ha. unfold serve. rewrite <- Ha.
  destruct c1 as [d1|f1]; destruct c2 as [d2|f2]; cbn [sound] in Hs1, Hs2;
    try (exfalso; destruct Hrel as (_ & _ & _ & _ & _ & Hfalse); exact Hfalse);
    rewrite ?access_DirectMapped, ?access_FullyAssociative; cbn [fst snd].
  - apply DM_step_same; assumption.
  - eapply FA_step_same; eassumption.
Qed.

Lemma run_from_same (qs1 : list Request) :
  forall (qs2 : list Request) (c1 c2 : Cache) (h1 h2 : list (result Response)),
    map q_address qs1 = map q_address qs2 ->
    sound c1 h1 -> sound c2 h2 -> same_placement c1 c2 ->
    map outcome h1 = map outcome h2 ->
    same_placement (fst (run_from c1 h1 qs1)) (fst (run_from c2 h2 qs2))
    /\ map outcome (snd (run_from c1 h1 qs1)) = map outcome (snd (run_from c2 h2 qs2)).
Proof.
  induction qs1 as [|q1 qs1 IH]; intros [|q2 qs2] c1 c2 h1 h2 Hqs Hs1 Hs2 Hrel Hh;
    try discriminate Hqs.
  - simpl. auto.
  - rewrite !run_from_cons. cbn [map] in Hqs. injection Hqs as Ha Hqs.
    destruct (serve_same c1 c2 h1 h2 q1 q2 Hs1 Hs2 Hrel Ha) as [Hrel' Hout].
    apply IH; [exact Hqs|apply serve_sound, Hs1|apply serve_sound, Hs2|exact Hrel'|].
    cbn [map]. rewrite Hout, Hh. reflexivity.
Qed.

Lemma Forall2_same {A : Type} (R : A -> A -> Prop) (l : list A) :
  (forall x, R x x) -> Forall2 R l l.
Proof. intros H. induction l; constructor; auto. Qed.

Lemma construct_same_placement (cs bs : Z) (ct wp1 wp2 : string) (c1 c2 : Cache) :
  construct cs bs ct wp1 = Ok c1 -> construct cs bs ct wp2 = Ok c2 ->
  same_placement c1 c2.
Proof.
  intros H1 H2.
  destruct (construct_inv _ _ _ _ _ H1) as [(d1 & -> & E1 & Hd1)|(f1 & -> & E1 & Hf1)];
    destruct (construct_inv _ _ _ _ _ H2) as [(d2 & -> & E2 & Hd2)|(f2 & -> & E2 & Hf2)];
    try congruence.
  - apply DM_init_inv in Hd1 as (_ & _ & ->). apply DM_init_inv in Hd2 as (_ & _ & ->).
    unfold same_placement. simpl. repeat split.
    apply Forall2_same. intros x. split; reflexivity.
  - apply FA_init_inv in Hf1 as (_ & ->). apply FA_init_inv in Hf2 as (_ & ->).
    unfold same_placement. simpl. repeat split.
    apply Forall2_same. intros x. repeat split.
Qed.

Lemma same_placement_lines (c1 c2 : Cache) :
  same_placement c1 c2 ->
  map (fun b => (valid b, tag b)) (lines c1) = map (fun b => (valid b, tag b)) (lines c2).
Proof.
  intros (_ & _ & _ & _ & _ & Hrel).
  destruct c1 as [d1|f1]; destruct c2 as [d2|f2]; try contradiction; cbn [lines].
  - induction Hrel as [|a b l1 l2 [Hv Ht] Hl IH]; [reflexivity|]. simpl.
    rewrite Hv, Ht, IH. reflexivity.
  - unfold OrderedDict.values.
    induction Hrel as [|a b l1 l2 [_ [Hv Ht]] Hl IH]; [reflexivity|]. simpl.
    rewrite Hv, Ht, IH. reflexivity.
Qed.

(** X22.  Which calls hit, which lines they use and what the lines hold
    depends on the addresses alone: two caches constructed with the same
    sizes and type, under any two write policies, and driven through the same
    addresses with any operations and data, report the same hit, eviction and
    line in every response, end with the same valid bits and tags on the same
    lines, and count the same hits, misses and memory reads. *)
Theorem placement_depends_on_addresses_only (cache_size block_size : Z)
  (cache_type write_policy1 write_policy2 : string) (c1 c2 : Cache)
  (qs1 qs2 : list Request) :
  construct cache_size block_size cache_type write_policy1 = Ok c1 ->
  construct cache_size block_size cache_type write_policy2 = Ok c2 ->
  map q_address qs1 = map q_address qs2 ->
  map outcome (snd (run c1 qs1)) = map outcome (snd (run c2 qs2))
  /\ map (fun b => (valid b, tag b)) (lines (fst (run c1 qs1)))
     = map (fun b => (valid b, tag b)) (lines (fst (run c2 qs2)))
  /\ CacheSimulator.hits (base (fst (run c1 qs1)))
     = CacheSimulator.hits (base (fst (run c2 qs2)))
  /\ CacheSimulator.misses (base (fst (run c1 qs1)))
     = CacheSimulator.misses (base (fst (run c2 qs2)))
  /\ CacheSimulator.memory_reads (base (fst (run c1 qs1)))
     = CacheSimulator.memory_reads (base (fst (run c2 qs2))).
Proof.
  intros H1 H2 Hqs.
  destruct (run_from_same qs1 qs2 c1 c2 [] [] Hqs
              (construct_sound _ _ _ _ _ H1) (construct_sound _ _ _ _ _ H2)
              (construct_same_placement _ _ _ _ _ _ _ H1 H2) eq_refl) as [Hrel Hout].
  unfold run. split; [exact Hout|]. split; [apply same_placement_lines, Hrel|].
  destruct Hrel as (_ & _ & Hh & Hm & Hr & _). auto.
Qed.

Lemma placement_depends_on_addresses_only_witness :
  construct 16 4 "fully-associative" "write-back"
  = Ok (scenario_fully_associative "write-back")
  /\ construct 16 4 "fully-associative" "write-through"
     = Ok (scenario_fully_associative "write-through")
  /\ map q_address [write 0; read 16; mkRequest 0 "write" (Some 7)]
     = map q_address [read 0; write 16; read 0]
  /\ map outcome (snd (run (scenario_fully_associative "write-back")
                         [write 0; read 16; mkRequest 0 "write" (Some 7)]))
     = map outcome (snd (run (scenario_fully_associative "write-through")
                           [read 0; write 16; read 0])).
Proof.
  split; [reflexivity|]. split; [reflexivity|]. split; [reflexivity|].
  exact (proj1 (placement_depends_on_addresses_only 16 4 "fully-associative"
                  "write-back" "write-through"
                  (scenario_fully_associative "write-back")
                  (scenario_fully_associative "write-through")
                  [write 0; read 16; mkRequest 0 "write" (Some 7)]
                  [read 0; write 16; read 0] eq_refl eq_refl eq_refl)).
Defined.

(** * The statistics tally the responses *)




(** * Conflicts in the direct-mapped engine *)

Lemma index_of_field_bits (c c' : Cache) (a : Z) :
  field_bits c = field_bits c' -> index_of c a = index_of c' a.
Proof.
  destruct c as [d|f]; destruct c' as [d'|f']; cbn [field_bits]; intros H;
    try discriminate H; [|reflexivity].
  injection H as H1 H2.
  unfold index_of, DirectMappedCache.decompose_address. cbn [fst snd]. congruence.
Qed.

Lemma conflict_miss (d : DirectMappedCache.t) (a a' : Z) (op : string) (data : option Z) :
  dm_sound d ->
  holds (DirectMapped d) a' ->
  index_of (DirectMapped d) a = index_of (DirectMapped d) a' ->
  tag_of (DirectMapped d) a <> tag_of (DirectMapped d) a' ->
  exists resp,
    snd (access a op data (DirectMapped d)) = Ok resp
    /\ hit resp = false /\ eviction resp = true
    /\ affected_line resp = index_of (DirectMapped d) a.
Proof.
  intros Hs (l & b & Hl & Hv & Ht & Hidx) Hindex Htag.
  destruct (DM_access_spec d a op data Hs)
    as (line & resp & Hget & Hacc & Hh & Hev & _ & Hal & _).
  cbv zeta in Hacc, Hh, Hev.
  rewrite access_DirectMapped, Hacc. cbn [fst snd].
  unfold index_of, tag_of, DirectMappedCache.decompose_address in *.
  cbn [fst snd line_at] in *.
  injection Hindex as Hindex. rewrite <- Hindex in Hidx. subst l.
  rewrite Hget in Hl. injection Hl as ->.
  exists resp. split; [reflexivity|].
  assert (Hmiss : tag_eqb b (Z.shiftr a (CacheSimulator.offset_bits (DirectMappedCache.base d)
                                         + DirectMappedCache.index_bits d)) = false).
  { unfold tag_eqb. rewrite Ht. apply Z.eqb_neq. congruence. }
  rewrite Hmiss, andb_false_r in Hh, Hev. rewrite Hv in Hev.
  split; [exact Hh|]. split; [exact Hev|exact Hal].
Qed.

(** X24.  In the direct-mapped engine two blocks with the same index evict
    each other: once a call at [address] has returned, a call at an address
    with the same index and another tag misses, evicts and uses the line of
    that index, and the next call at [address] misses and evicts again. *)
Theorem direct_mapped_conflict_evicts (c c1 c2 : Cache) (address address' : Z)
  (operation operation' operation'' : string) (data data' data'' : option Z)
  (r1 r2 : Response) :
  reachable c ->
  is_direct_mapped c = true ->
  index_of c address' = index_of c address ->
  tag_of c address' <> tag_of c address ->
  access address operation data c = (c1, Ok r1) ->
  access address' operation' data' c1 = (c2, Ok r2) ->
  hit r2 = false /\ eviction r2 = true /\ affected_line r2 = index_of c address
  /\ exists r3,
       snd (access address operation'' data'' c2) = Ok r3
       /\ hit r3 = false /\ eviction r3 = true.
Proof.
  intros Hr Hdm Hindex Htag Hacc1 Hacc2. destruct (reachable_sound c Hr) as [h Hs].
  destruct (access_holds c c1 h address operation data r1 Hs Hacc1) as [_ Hholds1].
  pose proof (serve_sound c h (mkRequest address operation data) Hs) as Hs1.
  pose proof (serve_field_bits c h (mkRequest address operation data) Hs) as Hfb1.
  unfold serve in Hs1, Hfb1. cbn [q_address q_operation q_data] in Hs1, Hfb1.
  rewrite Hacc1 in Hs1, Hfb1. cbn [fst snd] in Hs1, Hfb1.
  destruct (access_holds c1 c2 _ address' operation' data' r2 Hs1 Hacc2) as [_ Hholds2].
  pose proof (serve_sound c1 _ (mkRequest address' operation' data') Hs1) as Hs2.
  pose proof (serve_field_bits c1 _ (mkRequest address' operation' data') Hs1) as Hfb2.
  unfold serve in Hs2, Hfb2. cbn [q_address q_operation q_data] in Hs2, Hfb2.
  rewrite Hacc2 in Hs2, Hfb2. cbn [fst snd] in Hs2, Hfb2.
  assert (Hi1 : forall a, index_of c1 a = index_of c a)
    by (intros a; apply index_of_field_bits, Hfb1).
  assert (Ht1 : forall a, tag_of c1 a = tag_of c a)
    by (intros a; apply tag_of_field_bits, Hfb1).
  assert (Hi2 : forall a, index_of c2 a = index_of c a)
    by (intros a; rewrite <- Hi1; apply index_of_field_bits, Hfb2).
  assert (Ht2 : forall a, tag_of c2 a = tag_of c a)
    by (intros a; rewrite <- Ht1; apply tag_of_field_bits, Hfb2).
  destruct c1 as [d1|f1].
  2:{ exfalso. destruct c as [d|f]; [|discriminate Hdm].
      specialize (Hi1 address). discriminate Hi1. }
  destruct c2 as [d2|f2].
  2:{ exfalso. destruct c as [d|f]; [|discriminate Hdm].
      specialize (Hi2 address). discriminate Hi2. }
  cbn [sound] in Hs1, Hs2.
  destruct (conflict_miss d1 address' address operation' data' Hs1 Hholds1)
    as (r2' & Hr2 & Hh2 & He2 & Hal2).
  { rewrite !Hi1. exact Hindex. }
  { rewrite !Ht1. exact Htag. }
  rewrite Hacc2 in Hr2. cbn [snd] in Hr2. injection Hr2 as <-.
  split; [exact Hh2|]. split; [exact He2|].
  split; [rewrite Hal2, Hi1; exact Hindex|].
  destruct (conflict_miss d2 address address' operation'' data'' Hs2 Hholds2)
    as (r3 & Hr3 & Hh3 & He3 & _).
  { rewrite !Hi2. symmetry. exact Hindex. }
  { rewrite !Ht2. intros E. apply Htag. symmetry. exact E. }
  exists r3. auto.
Qed.

Lemma direct_mapped_conflict_evicts_witness :
  let c := fst (run (scenario_direct_mapped "write-back") [read 4]) in
  reachable c
  /\ index_of c 16 = index_of c 0
  /\ tag_of c 16 <> tag_of c 0
  /\ exists c1 r1 c2 r2,
       access 0 "read" None c = (c1, Ok r1)
       /\ access 16 "write" None c1 = (c2, Ok r2)
       /\ hit r2 = false /\ eviction r2 = true /\ affected_line r2 = index_of c 0.
Proof.
  cbv zeta.
  assert (H : reachable (fst (run (scenario_direct_mapped "write-back") [read 4]))).
  { exists 16, 4, "direct-mapped"%string, "write-back"%string,
      (scenario_direct_mapped "write-back"), [read 4].
    split; reflexivity. }
  assert (Htag : tag_of (fst (run (scenario_direct_mapped "write-back") [read 4])) 16
                 <> tag_of (fst (run (scenario_direct_mapped "write-back") [read 4])) 0)
    by (vm_compute; discriminate).
  split; [exact H|]. split; [reflexivity|]. split; [exact Htag|].
  assert (Hacc : exists c1 r1 c2 r2,
             access 0 "read" None
               (fst (run (scenario_direct_mapped "write-back") [read 4]))
             = (c1, Ok r1)
             /\ access 16 "write" None c1 = (c2, Ok r2)).
  { vm_compute. eexists _, _, _, _. split; reflexivity. }
  destruct Hacc as (c1 & r1 & c2 & r2 & Hacc1 & Hacc2).
  destruct (direct_mapped_conflict_evicts _ c1 c2 0 16 "read"%string "write"%string
              "read"%string None None None r1 r2 H eq_refl eq_refl Htag Hacc1 Hacc2)
    as (Hh & He & Hal & _).
  exists c1, r1, c2, r2. auto.
Defined.

(** * When the fully associative engine evicts *)

(** X25.  The fully associative engine evicts only when it is full: a call
    that returned reports an eviction exactly when it missed and every line
    was valid before the call.  While some line is invalid a miss fills an
    invalid line and evicts nothing. *)
Theorem associative_evicts_only_when_full (c c' : Cache) (address : Z)
  (operation : string) (data : option Z) (resp : Response) :
  reachable c ->
  is_direct_mapped c = false ->
  access address operation data c = (c', Ok resp) ->
  (eviction resp = true
   <-> hit resp = false /\ Forall (fun b => valid b = 1) (lines c)).
Proof.
  intros Hr Hfa Hacc. destruct (reachable_sound c Hr) as [h Hs].
  destruct c as [d|f]; [discriminate Hfa|].
  cbn [sound lines] in *.
  destruct Hs as (_ & Hnd & empty & resident & Hsplit & Hempty & Hres & _).
  rewrite access_FullyAssociative in Hacc. injection Hacc as _ Hr'.
  pose proof (FA_access_cases f address operation data Hnd) as Hcase.
  revert Hr'.
  destruct Hcase as [k line resp0 tg Hfb Hget Hv Ht Hh He Hw Hal Hn
                    |k line resp0 tg Hfb Hfe Hget Hv Hh He Hw Hal Hn
                    |k line rest resp0 tg wb Hfb Hfe Hc Hh He Hw Hal Hn
                    |Hc];
    cbn [snd]; intros Hr'; try discriminate Hr'; injection Hr' as <-.
  - rewrite He, Hh. split; [discriminate|]. intros [Hx _]. discriminate Hx.
  - rewrite He, Hh. split; [discriminate|]. intros [_ Hall]. exfalso.
    apply od_getitem_In, In_values in Hget.
    rewrite Forall_forall in Hall. specialize (Hall _ Hget). lia.
  - rewrite He, Hh. split; [|reflexivity]. intros _. split; [reflexivity|].
    apply find_empty_from_None in Hfe.
    rewrite Hsplit, od_values_app in Hfe |- *.
    apply Forall_app in Hfe as [Hfe _]. apply Forall_app. split; [|exact Hres].
    rewrite Forall_forall in Hfe, Hempty |- *.
    intros b Hb. exfalso. apply (Hfe b Hb). apply Hempty, Hb.
Qed.

Lemma associative_evicts_only_when_full_witness :
  let c := fst (run (scenario_fully_associative "write-back") (map read [0; 4; 8; 12])) in
  reachable c
  /\ exists c' resp,
       access 16 "read" None c = (c', Ok resp)
       /\ (eviction resp = true
           <-> hit resp = false /\ Forall (fun b => valid b = 1) (lines c)).
Proof.
  cbv zeta.
  assert (H : reachable (fst (run (scenario_fully_associative "write-back")
                                (map read [0; 4; 8; 12])))).
  { exists 16, 4, "fully-associative"%string, "write-back"%string,
      (scenario_fully_associative "write-back"), (map read [0; 4; 8; 12]).
    split; reflexivity. }
  split; [exact H|].
  assert (Hacc : exists c' resp,
             access 16 "read" None
               (fst (run (scenario_fully_associative "write-back")
                       (map read [0; 4; 8; 12])))
             = (c', Ok resp)).
  { vm_compute. eexists _, _. reflexivity. }
  destruct Hacc as (c' & resp & Hacc).
  exists c', resp. split; [exact Hacc|].
  exact (associative_evicts_only_when_full _ c' 16 "read"%string None resp H eq_refl Hacc).
Defined.
